(** * The resilient data-access core of the product-catalog client

    A shallow embedding of the TypeScript sources

      - [utils/errorUtils.ts]           (error classification),
      - [utils/gracefulDegradation.ts]  (retry loop, safe fetch, safe storage
                                         operation, circuit breaker),
      - [services/ApiService.ts]        (product fetch, cache, normalisation),
      - [services/StorageService.ts]    (favourites and theme persistence),
      - [contexts/AppContext.tsx]       (the effect that persists favourites),

    followed by the properties of the specification that concern them.

    Conventions of the embedding.

    - An asynchronous function [f(): Promise<T>] is a state transformer
      [World -> (JsThrown + T) * World]: [inl e] is a rejection with the thrown
      value [e], [inr v] a resolution.  The runtime is single threaded and the
      functions below are run one after the other, so [await] is sequencing.
    - [World] holds what the code reaches through the platform: the clock
      behind [Date.now()], the network behind [fetch], the key-value store behind
      [AsyncStorage], the static fields of [ApiService], and a call log of the
      kind a test spy records.  What the network and the store will answer is
      scripted in the world, so that a statement over all worlds is a
      statement over all behaviours of the platform.
    - JavaScript numbers are [JsNumber]: [NaN], the two infinities, or a finite
      value held as an exact rational; arithmetic on finite values is exact
      (the rounding error of IEEE doubles and the negative zero are outside
      the model).  A JSON text denotes finite numbers only.
    - Strings are [string]; [toLowerCase] and [trim] act on the ASCII range.
    - The properties of the numbers of a normalised product are stated on a
      second embedding of the normalisation, [Normaliser], which computes as
      the platform does: a numeral of the payload is read as the nearest
      double, or as an infinity, [*] and [/] round to the nearest double
      ([Binary64]), and [trim] is the platform's.
    - [console.*] calls have no effect on any result and are left out. *)

From Stdlib Require Import ZArith QArith Qcanon Qround String Ascii List Bool
  DecimalString Lia Lqa.
Import ListNotations.
Set Warnings "-register-all".
Open Scope string_scope.
Open Scope Z_scope.

(* ================================================================= *)
(** ** Strings *)

Module JsString.

Definition lower_ascii (c : ascii) : ascii :=
  let n := nat_of_ascii c in
  if (Nat.leb 65 n && Nat.leb n 90)%bool then ascii_of_nat (n + 32) else c.

(** [s.toLowerCase()] *)
Fixpoint toLowerCase (s : string) : string :=
  match s with
  | EmptyString => EmptyString
  | String c s' => String (lower_ascii c) (toLowerCase s')
  end.

(** [s.includes(sub)] *)
Fixpoint includes (s sub : string) : bool :=
  if String.prefix sub s then true
  else match s with
       | EmptyString => false
       | String _ s' => includes s' sub
       end.

Definition is_space (c : ascii) : bool :=
  let n := nat_of_ascii c in
  (Nat.eqb n 32 || (Nat.leb 9 n && Nat.leb n 13))%bool.

Fixpoint trimStart (s : string) : string :=
  match s with
  | String c s' => if is_space c then trimStart s' else s
  | EmptyString => EmptyString
  end.

(** Drops the white space at the end: the string is rebuilt from the
    right, and a space is kept only when something follows it. *)
Fixpoint trimEnd (s : string) : string :=
  match s with
  | EmptyString => EmptyString
  | String c s' =>
      match trimEnd s' with
      | EmptyString => if is_space c then EmptyString else String c EmptyString
      | rest => String c rest
      end
  end.

(** [s.trim()] *)
Definition trim (s : string) : string := trimEnd (trimStart s).

(** A string is falsy exactly when it is empty. *)
Definition truthy (s : string) : bool :=
  match s with EmptyString => false | _ => true end.

(** The decimal text of an integer, as a template literal prints it. *)
Definition of_Z (z : Z) : string := NilZero.string_of_int (Z.to_int z).

End JsString.

(* ================================================================= *)
(** ** Numbers *)

Inductive JsNumber : Type :=
| NaN
| Inf (negative : bool)
| Fin (q : Qc).

Module JsNum.

Definition of_Z (z : Z) : JsNumber := Fin (Q2Qc (inject_Z z)).

Definition isNaN (x : JsNumber) : bool :=
  match x with NaN => true | _ => false end.

Definition Qc_ltb (a b : Qc) : bool := negb (Qle_bool b a).

(** [x < y]; every comparison with [NaN] is false. *)
Definition lt (x y : JsNumber) : bool :=
  match x, y with
  | NaN, _ | _, NaN => false
  | Fin a, Fin b => Qc_ltb a b
  | Fin _, Inf neg => negb neg
  | Inf neg, Fin _ => neg
  | Inf s, Inf t => (s && negb t)%bool
  end.

(** [x === y] on numbers. *)
Definition strict_eq (x y : JsNumber) : bool :=
  match x, y with
  | Fin a, Fin b => Qc_eq_bool a b
  | Inf s, Inf t => Bool.eqb s t
  | _, _ => false
  end.

Definition le (x y : JsNumber) : bool := (lt x y || strict_eq x y)%bool.
Definition gt (x y : JsNumber) : bool := lt y x.

(** SameValueZero, the equality of [Array.prototype.includes]: as [===]
    except that [NaN] equals itself. *)
Definition sameValueZero (x y : JsNumber) : bool :=
  match x, y with
  | NaN, NaN => true
  | _, _ => strict_eq x y
  end.

(** [xs.includes(x)] *)
Definition includes (xs : list JsNumber) (x : JsNumber) : bool :=
  existsb (sameValueZero x) xs.

(** [Math.round] on a finite value: the nearest integer, halves upwards. *)
Definition round (q : Qc) : Qc := Q2Qc (inject_Z (Qfloor (q + Q2Qc (1 # 2))%Qc)).

(** [Math.floor] on a finite value. *)
Definition floor (q : Qc) : Qc := Q2Qc (inject_Z (Qfloor q)).


End JsNum.

(* ================================================================= *)
(** ** JSON values

    What [response.json()] and [JSON.parse] return.  An object is the list of
    its properties, each name bound once. *)

Inductive JsValue : Type :=
| JNull
| JBool (b : bool)
| JNum (q : Qc)
| JStr (s : string)
| JArr (items : list JsValue)
| JObj (props : list (string * JsValue)).

Module Json.

(** [Array.isArray(v)] *)
Definition isArray (v : JsValue) : bool :=
  match v with JArr _ => true | _ => false end.

(** Truthiness: [null], [false], [0] and the empty string are falsy, every
    object is truthy, the empty array included. *)
Definition truthy (v : JsValue) : bool :=
  match v with
  | JNull => false
  | JBool b => b
  | JNum q => negb (Qc_eq_bool q (Q2Qc 0))
  | JStr s => JsString.truthy s
  | JArr _ | JObj _ => true
  end.

(** The truthiness of an array, whatever it holds. *)
Definition truthy_array {A} (xs : list A) : bool := true.

(** [typeof v === 'object'] *)
Definition is_object (v : JsValue) : bool :=
  match v with JNull | JArr _ | JObj _ => true | _ => false end.

Fixpoint lookup (name : string) (props : list (string * JsValue)) : option JsValue :=
  match props with
  | [] => None
  | (k, v) :: rest => if String.eqb k name then Some v else lookup name rest
  end.

(** [v.name], for a [v] that passed the object test; [None] is
    [undefined].  An array has none of the property names read here. *)
Definition prop (v : JsValue) (name : string) : option JsValue :=
  match v with
  | JObj props => lookup name props
  | _ => None
  end.

End Json.

(* ================================================================= *)
(** ** Errors: [utils/errorUtils.ts] *)

Inductive ErrorType : Type := network | storage | validation | unknown.

Record AppError : Type := mkAppError {
  message : string;
  code : option string;
  type : ErrorType;
  recoverable : bool;
  userMessage : string
}.

(** [ApiError] of [types/Product.ts]: a plain object. *)
Record ApiError : Type := mkApiError {
  apiMessage : string;
  apiStatus : option Z;
  apiCode : option string
}.

(** A thrown value.  [JsError msg None] is an [Error] instance with that
    message; [JsError msg (Some a)] is an [Error] instance that also owns the
    properties [type], [userMessage] and [recoverable], read as [a].  The
    others are not instances of [Error]. *)
Inductive JsThrown : Type :=
| JsError (msg : string) (own : option AppError)
| ThrownString (s : string)
| ThrownAppError (a : AppError)
| ThrownApiError (a : ApiError)
| ThrownOther.

Module ErrorUtils.
Import JsString.

Definition getUserFriendlyMessage (message : string) (type : ErrorType) : string :=
  let lowerMessage := toLowerCase message in
  match type with
  | network =>
      if includes lowerMessage "timeout" then
        "Connection timed out. Please check your internet connection and try again."
      else if (includes lowerMessage "network" || includes lowerMessage "fetch")%bool then
        "Unable to connect to the internet. Please check your connection."
      else if includes lowerMessage "server" then
        "Server is temporarily unavailable. Please try again later."
      else "Network error occurred. Please check your connection and try again."
  | storage => "Unable to save your preferences. Please try again."
  | validation => "Invalid data received. Please refresh and try again."
  | unknown =>
      if includes lowerMessage "not found" then
        "The requested item could not be found."
      else if includes lowerMessage "unauthorized" then
        "You are not authorized to perform this action."
      else "An unexpected error occurred. Please try again."
  end.

(** [createAppError(message, type = 'unknown', code?, recoverable = true)] *)
Definition createAppError (message : string) (type : ErrorType)
    (code : option string) (recoverable : bool) : AppError :=
  {| message := message; code := code; type := type;
     recoverable := recoverable;
     userMessage := getUserFriendlyMessage message type |}.

(** The type that [handleError] reads off the message of an [Error]. *)
Definition classify (msg : string) : ErrorType :=
  let message := toLowerCase msg in
  if (includes message "network" || includes message "fetch"
      || includes message "timeout")%bool then network
  else if (includes message "storage" || includes message "asyncstorage")%bool then storage
  else if (includes message "invalid" || includes message "validation")%bool then validation
  else unknown.

(** [handleError(error, context)]; the context is only logged. *)
Definition handleError (error : JsThrown) (context : string) : AppError :=
  match error with
  | JsError _ (Some a) => a
  | JsError msg None => createAppError msg (classify msg) None true
  | ThrownString s => createAppError s unknown None true
  | _ => createAppError "Unknown error occurred" unknown None true
  end.

(** [isRecoverableError(error)]: exported next to [handleError], and called
    by neither [handleError] nor the retry loop. *)
Definition isRecoverableError (error : JsThrown) : bool :=
  match error with
  | JsError msg _ =>
      let message := toLowerCase msg in
      negb (includes message "unauthorized"
            || includes message "forbidden"
            || includes message "not found"
            || (includes message "invalid" && includes message "permanent"))%bool
  | _ => true
  end.

End ErrorUtils.

(* ================================================================= *)
(** ** The data of the services *)

(** [CircuitBreaker] of [utils/gracefulDegradation.ts]: its three private
    fields and its three constructor parameters. *)
Inductive CircuitState : Type := closed | open | half_open.

Record CircuitBreaker : Type := mkCircuitBreaker {
  failures : Z;
  lastFailureTime : Z;
  state : CircuitState;
  maxFailures : Z;
  resetTimeout : Z;
  breakerContext : string
}.

(** [Product] of [types/Product.ts], after normalisation. *)
Record Rating : Type := mkRating { rate : Qc; count : Qc }.

Record Product : Type := mkProduct {
  id : Qc;
  title : string;
  price : Qc;
  description : string;
  category : string;
  image : string;
  rating : Rating
}.

(** The static fields of [ApiService]. *)
Record ApiStatics : Type := mkApiStatics {
  circuitBreaker : CircuitBreaker;
  cachedProducts : option (list Product);
  cacheTimestamp : Z
}.

(** A string held by [AsyncStorage], as far as the service can tell strings
    apart: it tests a stored string for emptiness, compares it with ['light']
    and ['dark'], or hands it to [JSON.parse].  [Json v] stands for a text that
    [JSON.parse] reads as [v] (the text [JSON.stringify(v)] among them), and
    [Text s] for the string [s] when [JSON.parse] rejects it. *)
Inductive Stored : Type :=
| Text (s : string)
| Json (v : JsValue).

(** What one [fetch] call meets: the time it takes, and either a rejection
    (no connectivity, or the abort fired by the timeout) or a response with
    its status line and what [response.json()] gives. *)
Inductive FetchOutcome : Type :=
| NetworkFailure (e : JsThrown)
| Response (status : Z) (statusText : string) (body : JsThrown + JsValue).

Record NetStep : Type := mkNetStep { took : Z; outcome : FetchOutcome }.

(** The call log. *)
Inductive Event : Type :=
| EvFetch (url : string)
| EvSleep (ms : Z)
| EvGetItem (key : string)
| EvSetItem (key : string) (value : Stored)
| EvAddFavorite (productId : JsNumber)
| EvRemoveFavorite (productId : JsNumber).

Record World : Type := mkWorld {
  clock : Z;                          (* the value of Date.now() *)
  net : list NetStep;                 (* what the coming fetch calls meet *)
  disk : string -> option Stored;     (* the contents of AsyncStorage *)
  faults : list (option JsThrown);    (* per coming AsyncStorage call: the fault it throws, if any *)
  api : ApiStatics;                   (* the static fields of ApiService *)
  trace : list Event                  (* the call log, latest call first *)
}.

Definition set_clock (t : Z) (w : World) : World :=
  mkWorld t (net w) (disk w) (faults w) (api w) (trace w).
Definition set_net (n : list NetStep) (w : World) : World :=
  mkWorld (clock w) n (disk w) (faults w) (api w) (trace w).
Definition set_disk (d : string -> option Stored) (w : World) : World :=
  mkWorld (clock w) (net w) d (faults w) (api w) (trace w).
Definition set_faults (f : list (option JsThrown)) (w : World) : World :=
  mkWorld (clock w) (net w) (disk w) f (api w) (trace w).
Definition set_api (a : ApiStatics) (w : World) : World :=
  mkWorld (clock w) (net w) (disk w) (faults w) a (trace w).
Definition log (e : Event) (w : World) : World :=
  mkWorld (clock w) (net w) (disk w) (faults w) (api w) (e :: trace w).

(* ================================================================= *)
(** ** Asynchronous computations *)

Definition M (A : Type) : Type := World -> (JsThrown + A) * World.

Definition ret {A} (a : A) : M A := fun w => (inr a, w).

Definition throw {A} (e : JsThrown) : M A := fun w => (inl e, w).

Definition bind {A B} (m : M A) (k : A -> M B) : M B :=
  fun w => match m w with
           | (inr a, w') => k a w'
           | (inl e, w') => (inl e, w')
           end.

(** [try { m } catch (error) { handler }] *)
Definition try_catch {A} (m : M A) (handler : JsThrown -> M A) : M A :=
  fun w => match m w with
           | (inr a, w') => (inr a, w')
           | (inl e, w') => handler e w'
           end.

Definition modify (f : World -> World) : M unit := fun w => (inr tt, f w).

Notation "x <- m ;; k" := (bind m (fun x => k))
  (at level 61, m at next level, right associativity).
Notation "m ;;; k" := (bind m (fun _ => k))
  (at level 61, right associativity).

(** [for (const x of xs) { await body(x) }] *)
Fixpoint for_of {A} (xs : list A) (body : A -> M unit) : M unit :=
  match xs with
  | [] => ret tt
  | x :: rest => body x ;;; for_of rest body
  end.

(* ================================================================= *)
(** ** The platform *)

Module Platform.

(** [Date.now()] *)
Definition Date_now : M Z := fun w => (inr (clock w), w).

(** [await new Promise(resolve => setTimeout(resolve, ms))] *)
Definition sleep (ms : Z) : M unit :=
  modify (fun w => log (EvSleep ms) (set_clock (clock w + ms) w)).

(** [fetch(url, ...)] up to the point where the response is in: the next
    scripted step is consumed; with nothing scripted the device is offline. *)
Definition offline : JsThrown := JsError "Network request failed" None.

Definition fetch (url : string) : M FetchOutcome := fun w =>
  match net w with
  | [] => (inr (NetworkFailure offline), log (EvFetch url) w)
  | step :: later =>
      (inr (outcome step),
       log (EvFetch url) (set_net later (set_clock (clock w + took step) w)))
  end.

Definition next_fault (w : World) : option JsThrown * World :=
  match faults w with
  | [] => (None, w)
  | f :: later => (f, set_faults later w)
  end.

(** [AsyncStorage.getItem(key)]: [None] is [null]. *)
Definition AsyncStorage_getItem (key : string) : M (option Stored) := fun w =>
  match next_fault (log (EvGetItem key) w) with
  | (Some e, w') => (inl e, w')
  | (None, w') => (inr (disk w' key), w')
  end.

Definition update (d : string -> option Stored) (key : string) (value : Stored)
  : string -> option Stored :=
  fun k => if String.eqb k key then Some value else d k.

(** [AsyncStorage.setItem(key, value)] *)
Definition AsyncStorage_setItem (key : string) (value : Stored) : M unit := fun w =>
  match next_fault (log (EvSetItem key value) w) with
  | (Some e, w') => (inl e, w')
  | (None, w') => (inr tt, set_disk (update (disk w') key value) w')
  end.

(** [JSON.parse(text)]; the message of the [SyntaxError] varies with the
    engine and is not observed by any result. *)
Definition JSON_parse (text : Stored) : M JsValue :=
  match text with
  | Json v => ret v
  | Text _ => throw (JsError "JSON Parse error: Unexpected token" None)
  end.

(** [JSON.stringify(ids)] for an array of numbers: a number that is not
    finite is written as [null]. *)
Definition JSON_stringify (ids : list JsNumber) : Stored :=
  Json (JArr (map (fun x => match x with Fin q => JNum q | _ => JNull end) ids)).

End Platform.

(* ================================================================= *)
(** ** [utils/gracefulDegradation.ts] *)

(** [GracefulResult<T>]: the three object literals that
    [withGracefulDegradation] returns.  [F] is the type of the fallback
    value, which TypeScript leaves as [any]. *)
Inductive GracefulResult (T F : Type) : Type :=
| Succeeded (data : T) (retryCount : nat)
    (* { success: true, data, fallbackUsed: false, retryCount } *)
| FellBack (data : F) (error : option AppError) (retryCount : nat)
    (* { success: false, data: fallbackValue, error, fallbackUsed: true, retryCount } *)
| Failed (error : option AppError) (retryCount : nat).
    (* { success: false, error, fallbackUsed: false, retryCount } *)
Arguments Succeeded {T F}.
Arguments FellBack {T F}.
Arguments Failed {T F}.

Module GracefulDegradation.
Import ErrorUtils Platform.

Definition success {T F} (r : GracefulResult T F) : bool :=
  match r with Succeeded _ _ => true | _ => false end.

Definition fallbackUsed {T F} (r : GracefulResult T F) : bool :=
  match r with FellBack _ _ _ => true | _ => false end.

Definition error {T F} (r : GracefulResult T F) : option AppError :=
  match r with
  | Succeeded _ _ => None
  | FellBack _ e _ | Failed e _ => e
  end.

Definition retryCount {T F} (r : GracefulResult T F) : nat :=
  match r with
  | Succeeded _ n | FellBack _ _ n | Failed _ n => n
  end.

(** How the [for] loop of [withGracefulDegradation] is left. *)
Inductive LoopExit (T : Type) : Type :=
| Returned (result : T) (attempt : nat)
| Broken (lastError : option AppError) (retryCount : nat).
Arguments Returned {T}.
Arguments Broken {T}.

Section WithGracefulDegradation.
Context {T F : Type}.
Variable operation : M T.
Variable maxRetries : nat.
Variable retryDelay : Z.
Variable fallbackValue : option F.   (* [None] is [undefined] *)
Variable context : string.

(** [for (let attempt = 0; attempt <= maxRetries; attempt++) { ... }]
    from the iteration [attempt] on; [fuel] is [maxRetries + 1 - attempt],
    the number of iterations that the loop condition still allows. *)
Fixpoint attempts (fuel attempt : nat) (lastError : option AppError)
    (retryCount : nat) : M (LoopExit T) :=
  match fuel with
  | O => ret (Broken lastError retryCount)
  | S fuel' => fun w =>
      match operation w with
      | (inr result, w1) => (inr (Returned result attempt), w1)
      | (inl error, w1) =>
          let lastError := handleError error context in
          if (negb (recoverable lastError) || Nat.eqb attempt maxRetries)%bool
          then (inr (Broken (Some lastError) attempt), w1)
          else
            ((if Nat.ltb attempt maxRetries
              then sleep (retryDelay * 2 ^ Z.of_nat attempt)
              else ret tt) ;;;
             attempts fuel' (S attempt) (Some lastError) attempt) w1
      end
  end.

Definition withGracefulDegradation : M (GracefulResult T F) :=
  exit <- attempts (S maxRetries) 0 None 0 ;;
  match exit with
  | Returned result attempt => ret (Succeeded result attempt)
  | Broken lastError retryCount =>
      match fallbackValue with
      | Some v => ret (FellBack v lastError retryCount)
      | None => ret (Failed lastError retryCount)
      end
  end.

End WithGracefulDegradation.

(** [response.ok] *)
Definition response_ok (status : Z) : bool := (200 <=? status) && (status <=? 299).

(** The abort that the timer of [safeFetch] fires. *)
Definition aborted : JsThrown := JsError "Aborted" None.

(** The operation that [safeFetch] hands to [withGracefulDegradation]: one
    request under the abort timer.  A step that takes [timeout] or longer
    is cut at [timeout] and rejects with the abort. *)
Definition fetchOnce (url : string) (timeout : Z)
    (validateResponse : option (JsValue -> bool)) : M JsValue :=
  started <- Date_now ;;
  outcome <- fetch url ;;
  finished <- Date_now ;;
  if timeout <=? finished - started then
    modify (fun w => set_clock (started + timeout) w) ;;; throw aborted
  else
    match outcome with
    | NetworkFailure e => throw e
    | Response status statusText body =>
        if negb (response_ok status) then
          throw (JsError ("HTTP " ++ JsString.of_Z status ++ ": " ++ statusText) None)
        else
          match body with
          | inl e => throw e
          | inr data =>
              match validateResponse with
              | Some valid =>
                  if negb (valid data)
                  then throw (JsError "Response validation failed" None)
                  else ret data
              | None => ret data
              end
          end
    end.

Definition safeFetch {F} (url : string) (timeout : Z)
    (validateResponse : option (JsValue -> bool))
    (maxRetries : nat) (retryDelay : Z) (fallbackValue : option F)
    (context : string) : M (GracefulResult JsValue F) :=
  withGracefulDegradation (fetchOnce url timeout validateResponse)
    maxRetries retryDelay fallbackValue context.

(** [safeStorageOperation(operation, fallbackValue, context)] returns
    [result.data!]; [None] is [undefined], as an argument and as a result. *)
Definition safeStorageOperation {T} (operation : M T) (fallbackValue : option T)
    (context : string) : M (option T) :=
  result <- withGracefulDegradation operation 1 1000 fallbackValue context ;;
  match result with
  | Succeeded data _ => ret (Some data)
  | FellBack data _ _ => ret (Some data)
  | Failed _ _ => ret None
  end.

(** *** [class CircuitBreaker] *)

Definition new_CircuitBreaker (maxFailures resetTimeout : Z) (context : string)
  : CircuitBreaker :=
  {| failures := 0; lastFailureTime := 0; state := closed;
     maxFailures := maxFailures; resetTimeout := resetTimeout;
     breakerContext := context |}.

Definition set_state (s : CircuitState) (b : CircuitBreaker) : CircuitBreaker :=
  mkCircuitBreaker (failures b) (lastFailureTime b) s
    (maxFailures b) (resetTimeout b) (breakerContext b).

(** [recordFailure()], with the value that [Date.now()] has when it runs. *)
Definition recordFailure (now : Z) (b : CircuitBreaker) : CircuitBreaker :=
  let b1 := mkCircuitBreaker (failures b + 1) now (state b)
              (maxFailures b) (resetTimeout b) (breakerContext b) in
  if maxFailures b1 <=? failures b1 then set_state open b1 else b1.

(** [reset()] *)
Definition reset (b : CircuitBreaker) : CircuitBreaker :=
  mkCircuitBreaker 0 (lastFailureTime b) closed
    (maxFailures b) (resetTimeout b) (breakerContext b).

Definition circuit_open_error (b : CircuitBreaker) : JsThrown :=
  JsError (breakerContext b ++ ": Circuit breaker is open") None.

(** The first statement of [execute]: an open breaker lets the call
    through as a probe, in state [half_open], or refuses it. *)
Definition guard (now : Z) (b : CircuitBreaker) : JsThrown + CircuitBreaker :=
  match state b with
  | open =>
      if resetTimeout b <? now - lastFailureTime b
      then inr (set_state half_open b)
      else inl (circuit_open_error b)
  | _ => inr b
  end.

(** [execute(operation)] on the breaker [b]: the outcome of the call, the
    breaker after it and the world after it. *)
Definition execute {T} (b : CircuitBreaker) (operation : M T)
  : World -> (JsThrown + T) * CircuitBreaker * World :=
  fun w =>
    match guard (clock w) b with
    | inl e => (inl e, b, w)
    | inr b1 =>
        match operation w with
        | (inr result, w1) =>
            (inr result,
             match state b1 with half_open => reset b1 | _ => b1 end,
             w1)
        | (inl error, w1) => (inl error, recordFailure (clock w1) b1, w1)
        end
    end.

End GracefulDegradation.

(* ================================================================= *)
(** ** [services/ApiService.ts] *)

Module ApiService.
Import ErrorUtils Platform GracefulDegradation.

Definition BASE_URL : string := "https://fakestoreapi.com".
Definition TIMEOUT_MS : Z := 10000.
Definition MAX_RETRIES : nat := 3.
Definition RETRY_DELAY_MS : Z := 1000.
Definition CACHE_DURATION : Z := 5 * 60 * 1000.

(** The static fields as the class initialisers leave them. *)
Definition initial : ApiStatics :=
  {| circuitBreaker := new_CircuitBreaker 5 60000 "API Service";
     cachedProducts := None;
     cacheTimestamp := 0 |}.

Definition createApiError (message : string) (status : option Z)
    (code : option string) : ApiError :=
  {| apiMessage := message; apiStatus := status; apiCode := code |}.

(** [getCachedProducts()]; [this.cachedProducts] is [null] or an array, and
    an array is truthy. *)
Definition getCachedProducts : M (list Product) := fun w =>
  match cachedProducts (api w) with
  | Some products =>
      if clock w - cacheTimestamp (api w) <? CACHE_DURATION
      then (inr products, w)
      else (inr [], w)
  | None => (inr [], w)
  end.

Definition setCachedProducts (products : list Product) : M unit :=
  modify (fun w =>
    set_api (mkApiStatics (circuitBreaker (api w)) (Some products) (clock w)) w).

Definition clearCache : M unit :=
  modify (fun w => set_api (mkApiStatics (circuitBreaker (api w)) None 0) w).

(** A synchronous function that may throw returns [JsThrown + _]. *)
Definition require (ok : bool) (msg : string) : JsThrown + unit :=
  if ok then inr tt else inl (JsError msg None).

Notation "x <-? e ; k" :=
  (match e with inl err => inl err | inr x => k end)
  (at level 61, e at next level, right associativity, only parsing).

(** [typeof v === 'number'] and [typeof v === 'string'] on a property that
    may be [undefined], with the value when the test holds. *)
Definition as_number (v : option JsValue) : option Qc :=
  match v with Some (JNum q) => Some q | _ => None end.

Definition as_string (v : option JsValue) : option string :=
  match v with Some (JStr s) => Some s | _ => None end.

Definition number_or (v : option JsValue) (msg : string) : JsThrown + Qc :=
  match as_number v with Some q => inr q | None => inl (JsError msg None) end.

Definition string_or (v : option JsValue) (msg : string) : JsThrown + string :=
  match as_string v with Some s => inr s | None => inl (JsError msg None) end.

(** [!v || typeof v !== 'object'] fails, with the value. *)
Definition object_or (v : option JsValue) (msg : string) : JsThrown + JsValue :=
  match v with
  | Some o => if (Json.truthy o && Json.is_object o)%bool then inr o
              else inl (JsError msg None)
  | None => inl (JsError msg None)
  end.

Definition zero : Qc := Q2Qc 0.
Definition five : Qc := Q2Qc (inject_Z 5).
Definition ten : Qc := Q2Qc (inject_Z 10).
Definition hundred : Qc := Q2Qc (inject_Z 100).

Section Normalisation.
(** [isValidUrl(url)]: whether [new URL(url)] accepts the string; the
    parser is the platform's. *)
Variable isValidUrl : string -> bool.

Definition validateAndTransformProduct (item : JsValue) : JsThrown + Product :=
  product <-? object_or (Some item) "Product must be an object" ;
  id <-? number_or (Json.prop product "id") "Product id must be a number" ;
  title <-? string_or (Json.prop product "title")
              "Product title must be a non-empty string" ;
  _ <-? require (JsString.truthy (JsString.trim title))
              "Product title must be a non-empty string" ;
  price <-? number_or (Json.prop product "price")
              "Product price must be a non-negative number" ;
  _ <-? require (negb (JsNum.Qc_ltb price zero))
              "Product price must be a non-negative number" ;
  description <-? string_or (Json.prop product "description")
              "Product description must be a string" ;
  category <-? string_or (Json.prop product "category")
              "Product category must be a string" ;
  image <-? string_or (Json.prop product "image")
              "Product image must be a valid URL string" ;
  _ <-? require (isValidUrl image) "Product image must be a valid URL string" ;
  rating <-? object_or (Json.prop product "rating")
              "Product rating must be an object" ;
  rate <-? number_or (Json.prop rating "rate")
              "Product rating.rate must be a number between 0 and 5" ;
  _ <-? require (negb (JsNum.Qc_ltb rate zero || JsNum.Qc_ltb five rate))
              "Product rating.rate must be a number between 0 and 5" ;
  count <-? number_or (Json.prop rating "count")
              "Product rating.count must be a non-negative number" ;
  _ <-? require (negb (JsNum.Qc_ltb count zero))
              "Product rating.count must be a non-negative number" ;
  inr {| id := id;
         title := JsString.trim title;
         price := (JsNum.round (price * hundred) / hundred)%Qc;
         description := JsString.trim description;
         category := JsString.trim category;
         image := image;
         rating := {| rate := (JsNum.round (rate * ten) / ten)%Qc;
                      count := JsNum.floor count |} |}.

(** The callback of [data.map]: the product, or [null] for a record
    that does not validate. *)
Definition validated (item : JsValue) : option Product :=
  match validateAndTransformProduct item with
  | inr product => Some product
  | inl _ => None
  end.

(** [.filter(product => product !== null)] *)
Fixpoint non_null {A} (xs : list (option A)) : list A :=
  match xs with
  | [] => []
  | Some x :: rest => x :: non_null rest
  | None :: rest => non_null rest
  end.

Definition transformProductData (data : JsValue) : JsThrown + list Product :=
  match data with
  | JArr items => inr (non_null (map validated items))
  | _ => inl (ThrownApiError
                (createApiError "Invalid API response: expected array of products"
                   (Some 0) (Some "INVALID_RESPONSE")))
  end.

(** [(data) => Array.isArray(data) && data.length > 0] *)
Definition validateResponse (data : JsValue) : bool :=
  match data with
  | JArr items => Nat.ltb 0 (List.length items)
  | _ => false
  end.

(** The operation that [fetchProducts] runs through the circuit breaker. *)
Definition fetchThroughBreaker : M (list Product) :=
  fallbackValue <- getCachedProducts ;;
  result <- safeFetch (BASE_URL ++ "/products") TIMEOUT_MS (Some validateResponse)
              MAX_RETRIES RETRY_DELAY_MS (Some fallbackValue) "Fetch products" ;;
  match result with
  | Succeeded data _ =>
      match transformProductData data with
      | inl e => throw e
      | inr transformedProducts =>
          setCachedProducts transformedProducts ;;; ret transformedProducts
      end
  | FellBack data err _ =>
      (* [result.fallbackUsed && result.data]: the data is the array
         that was passed as fallback value *)
      if Json.truthy_array data then ret data
      else throw (match err with
                  | Some e => ThrownAppError e
                  | None => JsError "Failed to fetch products" None
                  end)
  | Failed err _ =>
      throw (match err with
             | Some e => ThrownAppError e
             | None => JsError "Failed to fetch products" None
             end)
  end.

(** [a || b] on an optional string: [undefined] and the empty string are
    falsy. *)
Definition or_else (a : option string) (b : string) : string :=
  match a with
  | Some s => if JsString.truthy s then s else b
  | None => b
  end.

Definition fetchProducts : M (list Product) := fun w =>
  match execute (circuitBreaker (api w)) fetchThroughBreaker w with
  | (inr products, b, w1) =>
      (inr products,
       set_api (mkApiStatics b (cachedProducts (api w1)) (cacheTimestamp (api w1))) w1)
  | (inl error, b, w1) =>
      (cachedProducts <- getCachedProducts ;;
       if Nat.ltb 0 (List.length cachedProducts) then ret cachedProducts
       else
         let appError := handleError error "API Service" in
         throw (ThrownApiError
                  (createApiError (userMessage appError) (Some 0)
                     (Some (or_else (code appError) "API_UNAVAILABLE")))))
        (set_api (mkApiStatics b (cachedProducts (api w1)) (cacheTimestamp (api w1))) w1)
  end.

End Normalisation.

End ApiService.

(* ================================================================= *)
(** ** [services/StorageService.ts] *)

Module StorageService.
Import ErrorUtils Platform GracefulDegradation.

Definition FAVORITES_KEY : string := "@ProductCatalog:favorites".
Definition THEME_KEY : string := "@ProductCatalog:theme".

(** [!value] is false: the value is neither [null] nor the empty string. *)
Definition present (value : option Stored) : bool :=
  match value with
  | None => false
  | Some (Text s) => JsString.truthy s
  | Some (Json _) => true
  end.

(** [value === s] for an [s] that is not a JSON text. *)
Definition is_text (value : Stored) (s : string) : bool :=
  match value with
  | Text t => String.eqb t s
  | Json _ => false
  end.

(** [typeof id === 'number' && !isNaN(id) && id > 0] *)
Definition valid_entry (v : JsValue) : bool :=
  match v with
  | JNum q => (negb (JsNum.isNaN (Fin q)) && JsNum.gt (Fin q) (JsNum.of_Z 0))%bool
  | _ => false
  end.

(** The numbers of a list of values that are all numbers. *)
Definition numbers (vs : list JsValue) : list JsNumber :=
  flat_map (fun v => match v with JNum q => [Fin q] | _ => [] end) vs.

(** The operation inside [getFavorites]. *)
Definition readFavorites : M (list JsNumber) :=
  favoritesJson <- AsyncStorage_getItem FAVORITES_KEY ;;
  match favoritesJson with
  | Some text =>
      if negb (present favoritesJson) then ret []
      else
        favorites <- JSON_parse text ;;
        match favorites with
        | JArr items => ret (numbers (filter valid_entry items))
        | _ => throw (JsError "Invalid favorites data format in storage" None)
        end
  | None => ret []
  end.

(** [getFavorites()].  The fallback value is defined, so [result.data!] is;
    the last branch is never taken. *)
Definition getFavorites : M (list JsNumber) :=
  data <- safeStorageOperation readFavorites (Some []) "Get favorites" ;;
  match data with
  | Some favorites => ret favorites
  | None => ret []
  end.

(** [typeof productId !== 'number' || isNaN(productId) || productId <= 0],
    on an argument that is a number. *)
Definition invalid_id (productId : JsNumber) : bool :=
  (JsNum.isNaN productId || JsNum.le productId (JsNum.of_Z 0))%bool.

(** The error that the validation of an argument throws. *)
Definition rejection (msg context : string) : JsThrown :=
  let appError := handleError (JsError msg None) context in
  JsError (userMessage appError) None.

Definition addFavorite (productId : JsNumber) : M unit :=
  modify (log (EvAddFavorite productId)) ;;;
  if invalid_id productId then
    throw (rejection "Invalid product ID provided" "Add favorite")
  else
    safeStorageOperation
      (currentFavorites <- getFavorites ;;
       if JsNum.includes currentFavorites productId then ret tt
       else
         let updatedFavorites := (currentFavorites ++ [productId])%list in
         AsyncStorage_setItem FAVORITES_KEY (JSON_stringify updatedFavorites))
      None "Add favorite" ;;;
    ret tt.

Definition removeFavorite (productId : JsNumber) : M unit :=
  modify (log (EvRemoveFavorite productId)) ;;;
  if invalid_id productId then
    throw (rejection "Invalid product ID provided" "Remove favorite")
  else
    safeStorageOperation
      (currentFavorites <- getFavorites ;;
       let updatedFavorites :=
         filter (fun id => negb (JsNum.strict_eq id productId)) currentFavorites in
       AsyncStorage_setItem FAVORITES_KEY (JSON_stringify updatedFavorites))
      None "Remove favorite" ;;;
    ret tt.

(** [getTheme()]; a theme is the string ['light'] or ['dark']. *)
Definition readTheme : M string :=
  themeValue <- AsyncStorage_getItem THEME_KEY ;;
  match themeValue with
  | Some text =>
      if negb (present themeValue) then ret "light"
      else if is_text text "light" then ret "light"
      else if is_text text "dark" then ret "dark"
      else throw (JsError "Invalid theme value in storage" None)
  | None => ret "light"
  end.

Definition getTheme : M string :=
  data <- safeStorageOperation readTheme (Some "light") "Get theme" ;;
  match data with
  | Some theme => ret theme
  | None => ret "light"
  end.

(** [theme !== 'light' && theme !== 'dark'], on whatever string the caller
    passes. *)
Definition invalid_theme (theme : string) : bool :=
  (negb (String.eqb theme "light") && negb (String.eqb theme "dark"))%bool.

Definition setTheme (theme : string) : M unit :=
  if invalid_theme theme then
    throw (rejection "Invalid theme mode provided" "Set theme")
  else
    safeStorageOperation (AsyncStorage_setItem THEME_KEY (Text theme))
      None "Set theme" ;;;
    ret tt.

End StorageService.

(* ================================================================= *)
(** ** [contexts/AppContext.tsx] *)

Module AppContext.
Import Platform StorageService.

(** [state.favorites.filter(id => !currentStoredFavorites.includes(id))] *)
Definition favoritesToAdd (favorites currentStoredFavorites : list JsNumber)
  : list JsNumber :=
  filter (fun id => negb (JsNum.includes currentStoredFavorites id)) favorites.

(** [currentStoredFavorites.filter(id => !state.favorites.includes(id))] *)
Definition favoritesToRemove (favorites currentStoredFavorites : list JsNumber)
  : list JsNumber :=
  filter (fun id => negb (JsNum.includes favorites id)) currentStoredFavorites.

(** [saveFavorites], the body of the effect that runs when
    [state.favorites] or [state.products.length] changes. *)
Definition saveFavorites (favorites : list JsNumber) (productsLength : nat) : M unit :=
  try_catch
    (if (Nat.ltb 0 (List.length favorites) || Nat.ltb 0 productsLength)%bool then
       currentStoredFavorites <- getFavorites ;;
       for_of (favoritesToAdd favorites currentStoredFavorites) addFavorite ;;;
       for_of (favoritesToRemove favorites currentStoredFavorites) removeFavorite
     else ret tt)
    (fun error => ret tt).

End AppContext.

(* ================================================================= *)
(** ** Vocabulary of the properties *)

Module Vocabulary.
Import Platform GracefulDegradation.

(** The breakers that a program can hold: a new one, or one that went
    through calls of [execute], whatever the operations and the worlds. *)
Inductive reachable : CircuitBreaker -> Prop :=
| reachable_new (maxFailures resetTimeout : Z) (context : string) :
    reachable (new_CircuitBreaker maxFailures resetTimeout context)
| reachable_execute (b : CircuitBreaker) (T : Type) (operation : M T)
    (w : World) (r : JsThrown + T) (b' : CircuitBreaker) (w' : World) :
    reachable b ->
    execute b operation w = (r, b', w') ->
    reachable b'.

(** [failing_calls n b b']: [n] calls of [execute] in a row, each of which
    rejects, take the breaker from [b] to [b'].  The operations and the
    worlds (so the times) of the calls are arbitrary.  A call rejects when
    its operation is run and throws, or when the open breaker refuses it. *)
Inductive failing_calls : nat -> CircuitBreaker -> CircuitBreaker -> Prop :=
| failing_none (b : CircuitBreaker) : failing_calls 0 b b
| failing_next (n : nat) (b b1 b2 : CircuitBreaker) (T : Type)
    (operation : M T) (w w1 : World) (e : JsThrown) :
    execute b operation w = (inl e, b1, w1) ->
    failing_calls n b1 b2 ->
    failing_calls (S n) b b2.

(** What holds of a breaker between two calls. *)
Definition breaker_inv (b : CircuitBreaker) : Prop :=
  0 <= failures b /\
  state b <> half_open /\
  (state b = open -> maxFailures b <= failures b).

(** The world after the wait between the attempt [attempt] and the next
    one of [withGracefulDegradation]. *)
Definition pause (maxRetries : nat) (retryDelay : Z) (attempt : nat) (w : World)
  : World :=
  if Nat.ltb attempt maxRetries
  then log (EvSleep (retryDelay * 2 ^ Z.of_nat attempt))
         (set_clock (clock w + retryDelay * 2 ^ Z.of_nat attempt) w)
  else w.

(** The number of [fetch] calls in a call log. *)
Fixpoint fetches (log : list Event) : nat :=
  match log with
  | [] => 0
  | EvFetch _ :: rest => S (fetches rest)
  | _ :: rest => fetches rest
  end.

(** The writes in a call log: calls of [addFavorite], [removeFavorite] and
    [AsyncStorage.setItem]. *)
Definition is_write (e : Event) : bool :=
  match e with
  | EvSetItem _ _ | EvAddFavorite _ | EvRemoveFavorite _ => true
  | _ => false
  end.


(** The records of a payload that [validateAndTransformProduct] refuses. *)
Definition refused (isValidUrl : string -> bool) (item : JsValue) : bool :=
  match ApiService.validateAndTransformProduct isValidUrl item with
  | inl _ => true
  | inr _ => false
  end.

(** A finite number above zero. *)
Definition positive_finite (x : JsNumber) : bool :=
  match x with
  | Fin q => JsNum.Qc_ltb (Q2Qc 0) q
  | _ => false
  end.

(** A whole number above zero. *)
Definition positive_integer (x : JsNumber) : bool :=
  match x with
  | Fin q => (JsNum.Qc_ltb (Q2Qc 0) q && Qc_eq_bool q (JsNum.floor q))%bool
  | _ => false
  end.

(** What [readFavorites] makes of the value under the favourites key, when
    the read itself does not fault. *)
Definition stored_favorites (value : option Stored) : JsThrown + list JsNumber :=
  match value with
  | None => inr []
  | Some (Text s) =>
      if JsString.truthy s
      then inl (JsError "JSON Parse error: Unexpected token" None)
      else inr []
  | Some (Json (JArr items)) =>
      inr (StorageService.numbers (filter StorageService.valid_entry items))
  | Some (Json _) => inl (JsError "Invalid favorites data format in storage" None)
  end.

(** The favourites that a store holds, as [getFavorites] reads them when
    the store does not fault. *)
Definition favorites_of (value : option Stored) : list JsNumber :=
  match stored_favorites value with
  | inr ids => ids
  | inl _ => []
  end.

(** [w'] comes after [w] by calls that did not write: the store, the
    network script and the statics are the same, the call log has grown by
    reads and waits, and no fault is left to come when none was. *)
Definition reads_only (w w' : World) : Prop :=
  disk w' = disk w /\
  (faults w = [] -> faults w' = []) /\
  exists evs : list Event,
    trace w' = (evs ++ trace w)%list /\ filter is_write evs = [].

(** The stored favourites after the calls [addFavorite a] for the [a] of
    [adds], from the stored favourites [cur], when the store does not
    fault. *)
Definition add_all (adds cur : list JsNumber) : list JsNumber :=
  fold_left (fun cur a => if JsNum.includes cur a then cur else (cur ++ [a])%list)
    adds cur.

(** The same for [removeFavorite]. *)
Definition remove_all (rems cur : list JsNumber) : list JsNumber :=
  fold_left (fun cur r => filter (fun id => negb (JsNum.strict_eq id r)) cur)
    rems cur.

(** The condition under which [saveFavorites] does anything. *)
Definition has_loaded (favorites : list JsNumber) (productsLength : nat) : bool :=
  (Nat.ltb 0 (List.length favorites) || Nat.ltb 0 productsLength)%bool.

End Vocabulary.

(* ================================================================= *)
(** ** Sample data *)

Module Samples.
Import Platform GracefulDegradation.

(** A device that has just started: nothing stored, nothing cached, the
    network down, no storage fault ahead. *)
Definition fresh : World :=
  {| clock := 0; net := []; disk := fun _ => None; faults := [];
     api := ApiService.initial; trace := [] |}.

Definition at_time (t : Z) : World := set_clock t fresh.

(** An operation that leaves a mark in the call log and throws. *)
Definition failing_probe : M unit :=
  modify (log (EvFetch "probe")) ;;; throw (JsError "Network request failed" None).

(** An operation that leaves a mark in the call log and returns. *)
Definition passing_probe : M unit := modify (log (EvFetch "probe")).

(** The breaker of [ApiService] after [n] calls of [execute] on
    [failing_probe], all at the time [t]. *)
Fixpoint after_failures (n : nat) (t : Z) : CircuitBreaker :=
  match n with
  | O => new_CircuitBreaker 5 60000 "API Service"
  | S n' => snd (fst (execute (after_failures n' t) failing_probe (at_time t)))
  end.

(** A stand-in for the URL parser of the platform: it agrees with
    [new URL(_)] on the sample addresses. *)
Definition https_only (url : string) : bool := String.prefix "https://" url.

Definition sample_record (id : Qc) : JsValue :=
  JObj [("id", JNum id);
        ("title", JStr " Mens Casual Slim Fit ");
        ("price", JNum (Q2Qc (15999 # 1000)));
        ("description", JStr "The color could be slightly different.");
        ("category", JStr "men's clothing");
        ("image", JStr "https://fakestoreapi.com/img/71YXzeOuslL.jpg");
        ("rating", JObj [("rate", JNum (Q2Qc (21 # 10)));
                         ("count", JNum (Q2Qc (430 # 1)))])].

(** A server that answers 404 to each of the next four requests. *)
Definition not_found : NetStep :=
  {| took := 120; outcome := Response 404 "Not Found" (inr (JObj [])) |}.

Definition four_not_found : World :=
  set_net [not_found; not_found; not_found; not_found] fresh.

(** The store holding [value] under the favourites key, nothing else. *)
Definition with_favorites (value : Stored) : World :=
  set_disk (update (disk fresh) StorageService.FAVORITES_KEY value) fresh.

Definition three_halves : Qc := Q2Qc (3 # 2).

(** A store whose every access throws. *)
Definition disk_full : JsThrown := JsError "Storage quota exceeded" None.

Definition faulty : World :=
  set_faults [Some disk_full; Some disk_full; Some disk_full; Some disk_full;
              Some disk_full; Some disk_full; Some disk_full; Some disk_full] fresh.

(** A store that holds the favourites 2 and 3. *)
Definition stored_two_three : World :=
  with_favorites (Json (JArr [JNum (Q2Qc 2); JNum (Q2Qc 3)])).

End Samples.

(* ================================================================= *)
(** ** More of [utils/errorUtils.ts] *)

Module ErrorUtilsRetry.
Import ErrorUtils Platform.

(** [error instanceof Error ? error : new Error(String(error))].  A plain
    object is printed as [[object Object]]; [other_text] is what [String]
    makes of the value that [ThrownOther] stands for. *)
Definition as_Error (other_text : string) (error : JsThrown) : JsThrown :=
  match error with
  | JsError _ _ => error
  | ThrownString s => JsError s None
  | ThrownAppError _ | ThrownApiError _ => JsError "[object Object]" None
  | ThrownOther => JsError other_text None
  end.

(** [lastError.message], on an [Error]. *)
Definition message_of (e : JsThrown) : string :=
  match e with
  | JsError msg _ => msg
  | _ => ""
  end.

(** The test of [retryWithBackoff] for the errors it does not retry; the
    message is taken as it is, capitals included. *)
Definition permanent (msg : string) : bool :=
  (JsString.includes msg "unauthorized"
   || JsString.includes msg "forbidden"
   || JsString.includes msg "not found")%bool.

Section RetryWithBackoff.
Context {T : Type}.
Variable other_text : string.
Variable operation : M T.
Variable maxRetries : nat.
Variable baseDelay : Z.

(** The loop of [retryWithBackoff] from the iteration [attempt] on, with
    [fuel] iterations left to the loop condition; [throw lastError!] behind
    the loop throws [undefined] when the loop has not run. *)
Fixpoint backoff (fuel attempt : nat) (lastError : option JsThrown) : M T :=
  match fuel with
  | O => throw (match lastError with Some e => e | None => ThrownOther end)
  | S fuel' => fun w =>
      match operation w with
      | (inr result, w1) => (inr result, w1)
      | (inl error, w1) =>
          let lastError := as_Error other_text error in
          if Nat.eqb attempt maxRetries then (inl lastError, w1)
          else if permanent (message_of lastError) then (inl lastError, w1)
          else (sleep (baseDelay * 2 ^ Z.of_nat attempt) ;;;
                backoff fuel' (S attempt) (Some lastError)) w1
      end
  end.

Definition retryWithBackoff : M T := backoff (S maxRetries) 0 None.

End RetryWithBackoff.

End ErrorUtilsRetry.

(* ================================================================= *)
(** ** More of [utils/gracefulDegradation.ts] and [services/ApiService.ts] *)

Module ServiceStatus.
Import Platform GracefulDegradation.

(** The field [state] of a breaker as the string that the class holds. *)
Definition state_name (s : CircuitState) : string :=
  match s with
  | closed => "closed"
  | open => "open"
  | half_open => "half-open"
  end.

Record BreakerState : Type := mkBreakerState {
  stateName : string;
  stateFailures : Z;
  stateLastFailureTime : Z
}.

(** [CircuitBreaker.getState()] *)
Definition getState (b : CircuitBreaker) : BreakerState :=
  {| stateName := state_name (state b);
     stateFailures := failures b;
     stateLastFailureTime := lastFailureTime b |}.

Record Status : Type := mkStatus {
  circuitBreakerState : string;
  hasCachedData : bool;
  cacheAge : Z
}.

(** [ApiService.getServiceStatus()] *)
Definition getServiceStatus : M Status := fun w =>
  let cbState := getState (circuitBreaker (api w)) in
  (inr {| circuitBreakerState := stateName cbState;
          hasCachedData := match cachedProducts (api w) with
                           | Some _ => true
                           | None => false
                           end;
          cacheAge := clock w - cacheTimestamp (api w) |},
   w).

End ServiceStatus.

(* ================================================================= *)
(** ** More of [services/StorageService.ts] *)

Module StorageQueries.
Import Platform GracefulDegradation StorageService.

Definition remove (d : string -> option Stored) (key : string)
  : string -> option Stored :=
  fun k => if String.eqb k key then None else d k.

(** [AsyncStorage.multiRemove(keys)]: one call, which faults or removes
    every key.  The call log has no entry for it. *)
Definition AsyncStorage_multiRemove (keys : list string) : M unit := fun w =>
  match next_fault w with
  | (Some e, w') => (inl e, w')
  | (None, w') => (inr tt, set_disk (fold_left remove keys (disk w')) w')
  end.

Definition toggleFavorite (productId : JsNumber) : M bool :=
  try_catch
    (currentFavorites <- getFavorites ;;
     let isFavorite := JsNum.includes currentFavorites productId in
     if isFavorite then removeFavorite productId ;;; ret false
     else addFavorite productId ;;; ret true)
    (fun error => throw (JsError "Failed to toggle favorite" None)).

Definition isFavorite (productId : JsNumber) : M bool :=
  try_catch
    (favorites <- getFavorites ;;
     ret (JsNum.includes favorites productId))
    (fun error => ret false).

Definition clearAll : M unit :=
  try_catch
    (AsyncStorage_multiRemove [FAVORITES_KEY; THEME_KEY])
    (fun error => throw (JsError "Failed to clear storage" None)).

Record StorageInfo : Type := mkStorageInfo {
  infoFavorites : nat;
  hasTheme : bool
}.

Definition getStorageInfo : M StorageInfo :=
  try_catch
    (favorites <- getFavorites ;;
     theme <- AsyncStorage_getItem THEME_KEY ;;
     ret {| infoFavorites := List.length favorites;
            hasTheme := match theme with Some _ => true | None => false end |})
    (fun error => ret {| infoFavorites := 0; hasTheme := false |}).

End StorageQueries.

(* ================================================================= *)
(** ** The reducer and the hooks of [contexts/AppContext.tsx] *)

Module AppReducer.

(** [AppState] and [AppAction] of [types/AppState.ts]. *)
Record AppState : Type := mkAppState {
  products : list Product;
  favorites : list JsNumber;
  loading : bool;
  error : option string;
  searchQuery : string
}.

Inductive AppAction : Type :=
| FETCH_PRODUCTS_START
| FETCH_PRODUCTS_SUCCESS (payload : list Product)
| FETCH_PRODUCTS_ERROR (payload : string)
| SET_SEARCH_QUERY (payload : string)
| TOGGLE_FAVORITE (payload : JsNumber)
| SET_FAVORITES (payload : list JsNumber)
| CLEAR_ERROR.

Definition appReducer (state : AppState) (action : AppAction) : AppState :=
  match action with
  | FETCH_PRODUCTS_START =>
      mkAppState (products state) (favorites state) true None (searchQuery state)
  | FETCH_PRODUCTS_SUCCESS payload =>
      mkAppState payload (favorites state) false None (searchQuery state)
  | FETCH_PRODUCTS_ERROR payload =>
      mkAppState (products state) (favorites state) false (Some payload)
        (searchQuery state)
  | SET_SEARCH_QUERY payload =>
      mkAppState (products state) (favorites state) (loading state) (error state)
        payload
  | TOGGLE_FAVORITE productId =>
      let isFavorite := JsNum.includes (favorites state) productId in
      mkAppState (products state)
        (if isFavorite
         then filter (fun id => negb (JsNum.strict_eq id productId)) (favorites state)
         else (favorites state ++ [productId])%list)
        (loading state) (error state) (searchQuery state)
  | SET_FAVORITES payload =>
      mkAppState (products state) payload (loading state) (error state)
        (searchQuery state)
  | CLEAR_ERROR =>
      mkAppState (products state) (favorites state) (loading state) None
        (searchQuery state)
  end.

(** What [useFilteredProducts] computes from the state. *)
Definition useFilteredProducts (state : AppState) : list Product :=
  if negb (JsString.truthy (JsString.trim (searchQuery state))) then products state
  else
    let lowercaseQuery := JsString.toLowerCase (searchQuery state) in
    filter (fun product =>
              JsString.includes (JsString.toLowerCase (title product)) lowercaseQuery)
      (products state).

(** What [useIsFavorite(productId)] computes from the state. *)
Definition useIsFavorite (state : AppState) (productId : JsNumber) : bool :=
  JsNum.includes (favorites state) productId.

End AppReducer.

(* ================================================================= *)
(** ** [utils/dataTransform.ts] and [utils/contextDemo.ts] *)

Module DataTransform.

(** [truncateText(text, maxLength)], for a whole [maxLength];
    [substring(0, n)] with a negative [n] is the empty string. *)
Definition truncateText (text : string) (maxLength : Z) : string :=
  if Z.of_nat (String.length text) <=? maxLength then text
  else String.substring 0 (Z.to_nat (maxLength - 3)) text ++ "...".

Definition filterProductsByQuery (products : list Product) (query : string)
  : list Product :=
  if negb (JsString.truthy (JsString.trim query)) then products
  else
    let lowercaseQuery := JsString.trim (JsString.toLowerCase query) in
    filter (fun product =>
              (JsString.includes (JsString.toLowerCase (title product)) lowercaseQuery
               || JsString.includes (JsString.toLowerCase (category product)) lowercaseQuery
               || JsString.includes (JsString.toLowerCase (description product))
                    lowercaseQuery)%bool)
      products.

Definition is_number (v : option JsValue) : bool :=
  match v with Some (JNum _) => true | _ => false end.

Definition is_string (v : option JsValue) : bool :=
  match v with Some (JStr _) => true | _ => false end.


End DataTransform.

Module ContextDemo.

Definition filterProductsByQuery (products : list Product) (query : string)
  : list Product :=
  if negb (JsString.truthy (JsString.trim query)) then products
  else
    let lowercaseQuery := JsString.toLowerCase query in
    filter (fun product =>
              (JsString.includes (JsString.toLowerCase (title product)) lowercaseQuery
               || JsString.includes (JsString.toLowerCase (description product))
                    lowercaseQuery
               || JsString.includes (JsString.toLowerCase (category product))
                    lowercaseQuery)%bool)
      products.

End ContextDemo.

(* ================================================================= *)
(** ** The validation utilities ([AppValidator]) *)

Module AppValidator.


Definition validateThemeMode (mode : string) : bool :=
  (String.eqb mode "light" || String.eqb mode "dark")%bool.

End AppValidator.

(* ================================================================= *)
(** ** More vocabulary *)

Module MoreVocabulary.
Import Platform GracefulDegradation Vocabulary.

(** [reached_by operation maxRetries retryDelay attempt n w w']: [n] runs of
    the operation lead from [w] to [w'], the first as the attempt number
    [attempt]; every run but the last throws and is followed by the wait
    of [withGracefulDegradation]. *)
Inductive reached_by {T : Type} (operation : M T) (maxRetries : nat)
    (retryDelay : Z) : nat -> nat -> World -> World -> Prop :=
| reached_last (attempt : nat) (w w' : World) (r : JsThrown + T) :
    operation w = (r, w') ->
    reached_by operation maxRetries retryDelay attempt 1 w w'
| reached_next (attempt n : nat) (w w1 w' : World) (e : JsThrown) :
    operation w = (inl e, w1) ->
    reached_by operation maxRetries retryDelay (S attempt) n
      (pause maxRetries retryDelay attempt w1) w' ->
    reached_by operation maxRetries retryDelay attempt (S n) w w'.

(** The number of the last attempt that a loop exit reports. *)
Definition exit_index {T : Type} (exit : LoopExit T) : nat :=
  match exit with
  | Returned _ attempt => attempt
  | Broken _ retryCount => retryCount
  end.

(** The theme that a store holds, as [getTheme] reads it when the store
    does not fault. *)
Definition theme_of (value : option Stored) : string :=
  match value with
  | Some v => if StorageService.is_text v "dark" then "dark" else "light"
  | None => "light"
  end.

(** An operation that throws the same [Error] whatever the world, and
    touches nothing. *)
Definition always_throws {T : Type} (msg : string) : M T :=
  throw (JsError msg None).

End MoreVocabulary.

(* ================================================================= *)
(** ** More sample data *)

Module MoreSamples.
Import Platform GracefulDegradation Samples.

(** A server that answers the next request with one product, in 80 ms. *)
Definition one_product : NetStep :=
  {| took := 80;
     outcome := Response 200 "OK" (inr (JArr [sample_record (Q2Qc 1)])) |}.

Definition serving : World := set_net [one_product] fresh.

(** The world in which the cache holds [products] since the time 0, and
    the clock shows [now]. *)
Definition cached_at (products : list Product) (now : Z) : World :=
  set_clock now
    (set_api (mkApiStatics (circuitBreaker (api fresh)) (Some products) 0) fresh).

Definition mug : Product :=
  {| id := Q2Qc 1; title := "Mug"; price := Q2Qc 5; description := "";
     category := "kitchen"; image := "https://fakestoreapi.com/img/mug.jpg";
     rating := {| rate := Q2Qc 4; count := Q2Qc 12 |} |}.

End MoreSamples.

(* ================================================================= *)
(** ** The numbers of the platform *)

(** A JavaScript number is an IEEE 754 double.  A finite double is held as
    the rational it stands for, so that [Fin q] with [q] a double is that
    double; what follows is the rounding that takes a real number to the
    double that stands for it, and the arithmetic of the platform, which
    computes on the reals that its arguments stand for and rounds the
    result.  The sign of zero is not held. *)
Module Binary64.

(** [2 ^ e], for an integer [e] of either sign. *)
Definition pow2 (e : Z) : Qc :=
  if 0 <=? e then Q2Qc (inject_Z (2 ^ e)) else (/ Q2Qc (inject_Z (2 ^ (- e))))%Qc.

(** The exponent of a positive rational [a]: the [e] with
    [2 ^ e <= a < 2 ^ (e + 1)].  The binary logarithms of the numerator
    and of the denominator give it to within one. *)
Definition exponent (a : Qc) : Z :=
  let e0 := Z.log2 (Qnum a) - Z.log2 (Zpos (Qden a)) in
  if JsNum.Qc_ltb a (pow2 e0) then e0 - 1 else e0.

(** The integer nearest to a rational that is not negative; of two that
    are equally near, the even one. *)
Definition nearest_even (a : Qc) : Z :=
  let f := Qfloor a in
  match (a - Q2Qc (inject_Z f) ?= Q2Qc (1 # 2))%Qc with
  | Lt => f
  | Gt => f + 1
  | Eq => if Z.even f then f else f + 1
  end.

(** The spacing of the doubles around a positive rational is [2 ^ t] for
    this [t]: 52 binary places below the exponent, and never finer than
    [2 ^ -1074]. *)
Definition quantum (a : Qc) : Z := Z.max (exponent a - 52) (-1074).

(** The double nearest to a positive rational, or [None] when that would
    be [2 ^ 1024] or more. *)
Definition nearest_positive (a : Qc) : option Qc :=
  let t := quantum a in
  let r := (Q2Qc (inject_Z (nearest_even (a / pow2 t))) * pow2 t)%Qc in
  if JsNum.Qc_ltb r (pow2 1024) then Some r else None.

(** The double that stands for a real number: the nearest one, ties to
    even, and an infinity beyond the range. *)
Definition nearest (q : Qc) : JsNumber :=
  match (q ?= Q2Qc 0)%Qc with
  | Eq => Fin (Q2Qc 0)
  | Gt => match nearest_positive q with
          | Some r => Fin r
          | None => Inf false
          end
  | Lt => match nearest_positive (- q) with
          | Some r => Fin (- r)
          | None => Inf true
          end
  end.

Definition negative (q : Qc) : bool := JsNum.Qc_ltb q (Q2Qc 0).

(** [x * y] *)
Definition mul (x y : JsNumber) : JsNumber :=
  match x, y with
  | NaN, _ | _, NaN => NaN
  | Fin a, Fin b => nearest (a * b)
  | Inf s, Inf t => Inf (xorb s t)
  | Inf s, Fin b | Fin b, Inf s =>
      if Qc_eq_bool b (Q2Qc 0) then NaN else Inf (xorb s (negative b))
  end.

(** [x / y] *)
Definition div (x y : JsNumber) : JsNumber :=
  match x, y with
  | NaN, _ | _, NaN => NaN
  | Inf _, Inf _ => NaN
  | Inf s, Fin b => Inf (xorb s (negative b))
  | Fin _, Inf _ => Fin (Q2Qc 0)
  | Fin a, Fin b =>
      if Qc_eq_bool b (Q2Qc 0)
      then if Qc_eq_bool a (Q2Qc 0) then NaN else Inf (negative a)
      else nearest (a / b)
  end.

(** [Math.round(x)]: the nearest integer, halves upwards.  It is a double
    whenever [x] is. *)
Definition Math_round (x : JsNumber) : JsNumber :=
  match x with
  | Fin q => Fin (JsNum.round q)
  | _ => x
  end.

(** [Math.floor(x)] *)
Definition Math_floor (x : JsNumber) : JsNumber :=
  match x with
  | Fin q => Fin (JsNum.floor q)
  | _ => x
  end.

End Binary64.

(* ================================================================= *)
(** ** The normalisation on the numbers of the platform *)

(** [validateAndTransformProduct] and [transformProductData] of
    [services/ApiService.ts] once more, for the properties of the numbers
    of a normalised product.  Here a payload is the JSON text that the
    server sent: [JNum q] is a numeral of the text, of value [q], and the
    number that [response.json()] hands to the code is the double nearest
    to it, an infinity for a numeral beyond the range; products hold
    JavaScript numbers, and [*] and [/] round as the platform does.
    [String.prototype.trim] and the URL parser are the platform's. *)
Module Normaliser.
Import ApiService.

Record Rating : Type := mkRating { rate : JsNumber; count : JsNumber }.

Record Product : Type := mkProduct {
  id : JsNumber;
  title : string;
  price : JsNumber;
  description : string;
  category : string;
  image : string;
  rating : Rating
}.

(** The number behind a property whose [typeof] is ['number']. *)
Definition as_number (v : option JsValue) : option JsNumber :=
  match v with Some (JNum q) => Some (Binary64.nearest q) | _ => None end.

Definition number_or (v : option JsValue) (msg : string) : JsThrown + JsNumber :=
  match as_number v with Some x => inr x | None => inl (JsError msg None) end.

Section WithPlatform.

Variable trim : string -> string.
Variable isValidUrl : string -> bool.

Definition validateAndTransformProduct (item : JsValue) : JsThrown + Product :=
  product <-? object_or (Some item) "Product must be an object" ;
  id <-? number_or (Json.prop product "id") "Product id must be a number" ;
  title <-? string_or (Json.prop product "title")
              "Product title must be a non-empty string" ;
  _ <-? require (JsString.truthy (trim title))
              "Product title must be a non-empty string" ;
  price <-? number_or (Json.prop product "price")
              "Product price must be a non-negative number" ;
  _ <-? require (negb (JsNum.lt price (JsNum.of_Z 0)))
              "Product price must be a non-negative number" ;
  description <-? string_or (Json.prop product "description")
              "Product description must be a string" ;
  category <-? string_or (Json.prop product "category")
              "Product category must be a string" ;
  image <-? string_or (Json.prop product "image")
              "Product image must be a valid URL string" ;
  _ <-? require (isValidUrl image) "Product image must be a valid URL string" ;
  rating <-? object_or (Json.prop product "rating")
              "Product rating must be an object" ;
  rate <-? number_or (Json.prop rating "rate")
              "Product rating.rate must be a number between 0 and 5" ;
  _ <-? require (negb (JsNum.lt rate (JsNum.of_Z 0) || JsNum.gt rate (JsNum.of_Z 5)))
              "Product rating.rate must be a number between 0 and 5" ;
  count <-? number_or (Json.prop rating "count")
              "Product rating.count must be a non-negative number" ;
  _ <-? require (negb (JsNum.lt count (JsNum.of_Z 0)))
              "Product rating.count must be a non-negative number" ;
  inr {| id := id;
         title := trim title;
         price := Binary64.div
                    (Binary64.Math_round (Binary64.mul price (JsNum.of_Z 100)))
                    (JsNum.of_Z 100);
         description := trim description;
         category := trim category;
         image := image;
         rating := {| rate := Binary64.div
                                (Binary64.Math_round (Binary64.mul rate (JsNum.of_Z 10)))
                                (JsNum.of_Z 10);
                      count := Binary64.Math_floor count |} |}.

(** The callback of [data.map]: the product, or [null] for a record
    that does not validate. *)
Definition validated (item : JsValue) : option Product :=
  match validateAndTransformProduct item with
  | inr product => Some product
  | inl _ => None
  end.

(** [transformProductData(data)] *)
Definition transformProductData (data : JsValue) : JsThrown + list Product :=
  match data with
  | JArr items => inr (non_null (map validated items))
  | _ => inl (ThrownApiError
                (createApiError "Invalid API response: expected array of products"
                   (Some 0) (Some "INVALID_RESPONSE")))
  end.

End WithPlatform.

End Normaliser.

(* ================================================================= *)
(** ** The data model of a product *)

Module DataModel.
Import Normaliser.

(** The string and the number that a property of a record holds; the
    empty string and [NaN] stand for a property that holds none. *)
Definition text (v : option JsValue) : string :=
  match v with Some (JStr s) => s | _ => "" end.

Definition number (v : option JsValue) : JsNumber :=
  match v with Some (JNum q) => Binary64.nearest q | _ => NaN end.

(** A whole number that is not negative, or the positive infinity. *)
Definition whole_or_infinite (x : JsNumber) : Prop :=
  x = Inf false \/ exists k : Z, 0 <= k /\ x = JsNum.of_Z k.

Section WithPlatform.

Variable trim : string -> string.
Variable isValidUrl : string -> bool.

(** The records that fit the data model before any rounding: an object
    with a number as identifier, a title with something in it besides
    white space, a price that is not negative, a description and a
    category that are strings, an image that is the text of a URL, and a
    rating with a rate from 0 to 5 and a count that is not negative.
    This is written from the data model, not from the code. *)
Definition fits (item : JsValue) : bool :=
  match item with
  | JObj _ =>
      (DataTransform.is_number (Json.prop item "id")
       && DataTransform.is_string (Json.prop item "title")
       && negb (String.eqb (trim (text (Json.prop item "title"))) "")
       && JsNum.le (JsNum.of_Z 0) (number (Json.prop item "price"))
       && DataTransform.is_string (Json.prop item "description")
       && DataTransform.is_string (Json.prop item "category")
       && DataTransform.is_string (Json.prop item "image")
       && isValidUrl (text (Json.prop item "image"))
       && match Json.prop item "rating" with
          | Some (JObj rating) =>
              JsNum.le (JsNum.of_Z 0) (number (Json.lookup "rate" rating))
              && JsNum.le (number (Json.lookup "rate" rating)) (JsNum.of_Z 5)
              && JsNum.le (JsNum.of_Z 0) (number (Json.lookup "count" rating))
          | _ => false
          end)%bool
  | _ => false
  end.

(** What the data model asks of a normalised product, the identifier
    apart, of which it is only asked that it is a number: a title that is
    not empty; a price that is not negative and is the double nearest to
    a whole number of hundredths, or the positive infinity; an image that
    the URL parser accepts; a rate from 0 to 5 that is the double nearest
    to a whole number of tenths; a count that is whole and not negative,
    or the positive infinity. *)
Definition invariants (p : Product) : Prop :=
  id p <> NaN /\
  title p <> "" /\
  JsNum.le (JsNum.of_Z 0) (price p) = true /\
  (price p = Inf false \/
   exists k : Z,
     0 <= k /\ price p = Binary64.nearest (Q2Qc (inject_Z k) / Q2Qc (inject_Z 100))) /\
  isValidUrl (image p) = true /\
  JsNum.le (JsNum.of_Z 0) (rate (rating p)) = true /\
  JsNum.le (rate (rating p)) (JsNum.of_Z 5) = true /\
  (exists k : Z,
      0 <= k <= 50 /\
      rate (rating p) = Binary64.nearest (Q2Qc (inject_Z k) / Q2Qc (inject_Z 10))) /\
  whole_or_infinite (count (rating p)).

End WithPlatform.

(** Records of a payload: the sample record with another identifier,
    price and count. *)
Definition record (id price count : Qc) : JsValue :=
  JObj [("id", JNum id);
        ("title", JStr " Mens Casual Slim Fit ");
        ("price", JNum price);
        ("description", JStr "The color could be slightly different.");
        ("category", JStr "men's clothing");
        ("image", JStr "https://fakestoreapi.com/img/71YXzeOuslL.jpg");
        ("rating", JObj [("rate", JNum (Q2Qc (21 # 10)));
                         ("count", JNum count)])].

End DataModel.

(* ================================================================= *)
(** * Properties *)

Import ErrorUtils Platform GracefulDegradation Vocabulary Samples.

(** ** The circuit breaker *)

Lemma recordFailure_fields (now : Z) (b : CircuitBreaker) :
  failures (recordFailure now b) = failures b + 1 /\
  lastFailureTime (recordFailure now b) = now /\
  maxFailures (recordFailure now b) = maxFailures b /\
  resetTimeout (recordFailure now b) = resetTimeout b /\
  breakerContext (recordFailure now b) = breakerContext b.
Proof.
  unfold recordFailure; cbn.
  destruct (maxFailures b <=? failures b + 1); cbn; repeat split.
Qed.

Lemma recordFailure_state (now : Z) (b : CircuitBreaker) :
  state (recordFailure now b) =
  if maxFailures b <=? failures b + 1 then open else state b.
Proof.
  unfold recordFailure; cbn.
  destruct (maxFailures b <=? failures b + 1); reflexivity.
Qed.

(** The guard lets a breaker through unchanged, but for the state of an
    open one. *)
Lemma guard_inr (now : Z) (b b1 : CircuitBreaker) :
  guard now b = inr b1 ->
  failures b1 = failures b /\ maxFailures b1 = maxFailures b /\
  resetTimeout b1 = resetTimeout b /\ lastFailureTime b1 = lastFailureTime b /\
  breakerContext b1 = breakerContext b /\
  ((state b = open /\ state b1 = half_open /\ resetTimeout b < now - lastFailureTime b)
   \/ (state b <> open /\ b1 = b)).
Proof.
  unfold guard. destruct (state b) eqn:Hs.
  - intros [= <-]. repeat split; auto. right; split; [discriminate | reflexivity].
  - destruct (resetTimeout b <? now - lastFailureTime b) eqn:Ht; [|discriminate].
    intros [= <-]. cbn. repeat split; auto. left. repeat split; auto.
    now apply Z.ltb_lt.
  - intros [= <-]. repeat split; auto. right; split; [discriminate | reflexivity].
Qed.

Lemma guard_inl (now : Z) (b : CircuitBreaker) (e : JsThrown) :
  guard now b = inl e ->
  state b = open /\ now - lastFailureTime b <= resetTimeout b /\
  e = circuit_open_error b.
Proof.
  unfold guard. destruct (state b); try discriminate.
  destruct (resetTimeout b <? now - lastFailureTime b) eqn:Ht; [discriminate|].
  intros [= <-]. apply Z.ltb_ge in Ht. auto.
Qed.

Lemma execute_maxFailures {T} (b : CircuitBreaker) (op : M T) (w : World) r b' w' :
  execute b op w = (r, b', w') -> maxFailures b' = maxFailures b.
Proof.
  unfold execute. destruct (guard (clock w) b) as [e|b1] eqn:Hg.
  - intros [= _ <- _]; reflexivity.
  - apply guard_inr in Hg as (_ & Hm & _).
    destruct (op w) as [[e|v] w1]; intros [= _ <- _].
    + destruct (recordFailure_fields (clock w1) b1) as (_ & _ & -> & _); exact Hm.
    + destruct (state b1); cbn; exact Hm.
Qed.

Lemma execute_inv {T} (b : CircuitBreaker) (op : M T) (w : World) r b' w' :
  breaker_inv b -> execute b op w = (r, b', w') -> breaker_inv b'.
Proof.
  intros (Hf & Hh & Ho). unfold execute.
  destruct (guard (clock w) b) as [e|b1] eqn:Hg.
  - intros [= _ <- _]. repeat split; assumption.
  - apply guard_inr in Hg as (Hf1 & Hm1 & _ & _ & _ & Hcase).
    destruct (op w) as [[e|v] w1]; intros [= _ <- _].
    + destruct (recordFailure_fields (clock w1) b1) as (Ff & _ & Fm & _).
      pose proof (recordFailure_state (clock w1) b1) as Fs.
      unfold breaker_inv. rewrite Ff, Fm, Fs.
      destruct (maxFailures b1 <=? failures b1 + 1) eqn:Hle.
      * apply Z.leb_le in Hle. repeat split; [lia | discriminate | intros _; lia].
      * apply Z.leb_gt in Hle.
        destruct Hcase as [(Hopen & _ & _) | (Hnopen & ->)].
        -- specialize (Ho Hopen). lia.
        -- repeat split; [lia | assumption | intros H; contradiction].
    + destruct Hcase as [(_ & Hhalf & _) | (Hnopen & ->)].
      * rewrite Hhalf. unfold breaker_inv, reset; cbn.
        repeat split; [lia | discriminate | discriminate].
      * destruct (state b) eqn:Hs; try contradiction;
          repeat split; try assumption; try congruence.
Qed.

Lemma reachable_inv (b : CircuitBreaker) : reachable b -> breaker_inv b.
Proof.
  induction 1 as [m t c | b T op w r b' w' _ IH Hex].
  - unfold breaker_inv; cbn. repeat split; [lia | discriminate | discriminate].
  - eapply execute_inv; eassumption.
Qed.

(** One rejected call: the breaker is open after it, or it was closed, is
    still closed, and counts one failure more, below the threshold. *)
Lemma failing_call_step {T} (b : CircuitBreaker) (op : M T) (w : World) e b1 w1 :
  breaker_inv b ->
  execute b op w = (inl e, b1, w1) ->
  state b1 = open \/
  (state b = closed /\ state b1 = closed /\
   failures b1 = failures b + 1 /\ failures b1 < maxFailures b).
Proof.
  intros (Hf & Hh & Ho). unfold execute.
  destruct (guard (clock w) b) as [e0|b0] eqn:Hg.
  - intros [= _ <- _]. apply guard_inl in Hg as (Hs & _). now left.
  - apply guard_inr in Hg as (Hf1 & Hm1 & _ & _ & _ & Hcase).
    destruct (op w) as [[e1|v] w2]; [|discriminate].
    intros [= _ <- _].
    destruct (recordFailure_fields (clock w2) b0) as (Ff & _ & Fm & _).
    pose proof (recordFailure_state (clock w2) b0) as Fs.
    destruct (maxFailures b0 <=? failures b0 + 1) eqn:Hle.
    + now left.
    + apply Z.leb_gt in Hle.
      destruct Hcase as [(Hopen & _ & _) | (Hnopen & ->)].
      * specialize (Ho Hopen). lia.
      * right. destruct (state b) eqn:Hs; try contradiction.
        repeat split; try assumption; lia.
Qed.

Lemma failing_calls_count (n : nat) (b b' : CircuitBreaker) :
  failing_calls n b b' ->
  breaker_inv b ->
  maxFailures b' = maxFailures b /\
  breaker_inv b' /\
  (n = 0%nat \/ state b' = open \/
   (state b' = closed /\ failures b + Z.of_nat n < maxFailures b)).
Proof.
  induction 1 as [b | n b b1 b2 T op w w1 e Hex Hrest IH]; intros Hinv.
  - repeat split; try apply Hinv. now left.
  - pose proof (execute_inv _ _ _ _ _ _ Hinv Hex) as Hinv1.
    pose proof (execute_maxFailures _ _ _ _ _ _ Hex) as Hm1.
    destruct (IH Hinv1) as (Hm2 & Hinv2 & Hcase).
    split; [congruence|]. split; [assumption|]. right.
    destruct (failing_call_step _ _ _ _ _ _ Hinv Hex)
      as [Hopen | (Hc & Hc1 & Hf1 & Hlt)].
    + (* open after the first call: it stays open *)
      destruct Hcase as [-> | [Ho | (Hc2 & Hlt2)]].
      * inversion Hrest; subst. now left.
      * now left.
      * destruct Hinv1 as (_ & _ & Hio). specialize (Hio Hopen). lia.
    + destruct Hcase as [-> | [Ho | (Hc2 & Hlt2)]].
      * inversion Hrest; subst. right. split; [assumption|]. lia.
      * now left.
      * right. split; [assumption|]. lia.
Qed.

Lemma after_failures_reachable (n : nat) (t : Z) :
  reachable (after_failures n t).
Proof.
  induction n as [|n IH]; cbn [after_failures].
  - apply reachable_new.
  - destruct (execute (after_failures n t) failing_probe (at_time t))
      as [[r b'] w'] eqn:Hex.
    cbn. eapply reachable_execute; eassumption.
Qed.


(** C3.  After a run of rejected calls on one breaker that is at least as
    long as the failure threshold (and not empty), the breaker is open; and
    a call made while less than the reset timeout has passed since the last
    failure rejects with the circuit-open error, changes neither the
    breaker nor the world, and so does not run its operation. *)
Theorem breaker_opens_after_threshold_failures
    (b b' : CircuitBreaker) (n : nat) :
  reachable b ->
  failing_calls n b b' ->
  (1 <= n)%nat ->
  maxFailures b <= Z.of_nat n ->
  state b' = open /\
  forall (T : Type) (operation : M T) (w : World),
    clock w - lastFailureTime b' < resetTimeout b' ->
    execute b' operation w = (inl (circuit_open_error b'), b', w).
Proof.
  intros Hreach Hcalls Hn Hmax.
  pose proof (reachable_inv b Hreach) as Hinv.
  destruct (failing_calls_count n b b' Hcalls Hinv) as (_ & _ & Hcase).
  assert (Hopen : state b' = open).
  { destruct Hcase as [-> | [Ho | (_ & Hlt)]]; [lia | assumption |].
    destruct Hinv as (Hf & _). lia. }
  split; [assumption|].
  intros T operation w Hfresh.
  unfold execute, guard. rewrite Hopen.
  destruct (resetTimeout b' <? clock w - lastFailureTime b') eqn:Ht.
  - apply Z.ltb_lt in Ht. lia.
  - reflexivity.
Qed.

Lemma five_failing_calls :
  failing_calls 5 (new_CircuitBreaker 5 60000 "API Service") (after_failures 5 1000).
Proof.
  repeat (eapply failing_next with (operation := failing_probe) (w := at_time 1000);
          [reflexivity|]).
  apply failing_none.
Defined.

Lemma breaker_opens_after_threshold_failures_witness :
  state (after_failures 5 1000) = open /\
  forall (T : Type) (operation : M T) (w : World),
    clock w - lastFailureTime (after_failures 5 1000)
      < resetTimeout (after_failures 5 1000) ->
    execute (after_failures 5 1000) operation w
    = (inl (circuit_open_error (after_failures 5 1000)), after_failures 5 1000, w).
Proof.
  apply (breaker_opens_after_threshold_failures
           (new_CircuitBreaker 5 60000 "API Service") (after_failures 5 1000) 5).
  - apply reachable_new.
  - exact five_failing_calls.
  - lia.
  - cbn. lia.
Defined.

(** The sixth call, 59999 ms after the fifth failure, does not reach its
    operation: the call log is as it was. *)
Example sixth_call_is_refused :
  execute (after_failures 5 1000) failing_probe (at_time 60999)
  = (inl (JsError "API Service: Circuit breaker is open" None),
     after_failures 5 1000, at_time 60999).
Proof. reflexivity. Qed.

(** C4, as stated, fails when the elapsed time equals the reset timeout: the
    breaker that five failures at time 1000 have opened refuses the call made
    at time 61000, stays open, and the operation is not run. *)
Lemma probe_refused_at_exact_timeout :
  state (after_failures 5 1000) = open /\
  clock (at_time 61000) - lastFailureTime (after_failures 5 1000)
    = resetTimeout (after_failures 5 1000) /\
  execute (after_failures 5 1000) passing_probe (at_time 61000)
  = (inl (JsError "API Service: Circuit breaker is open" None),
     after_failures 5 1000, at_time 61000) /\
  guard (clock (at_time 61000)) (after_failures 5 1000)
  <> inr (set_state half_open (after_failures 5 1000)).
Proof.
  repeat split; try reflexivity. discriminate.
Qed.

(** C4, amended.  On an open breaker, a call made when strictly more than
    the reset timeout has passed since the last failure moves the breaker
    to half-open and runs the operation once, on the world of the call; the
    outcome and the world after the call are those of the operation.  When
    the operation returns, the breaker is closed with no failure counted;
    when it throws, the breaker is open again, counts one failure more and
    dates the last failure at the end of the operation.  A call made when
    the time passed equals the reset timeout, or is less, is refused with
    the circuit-open error: the operation is not run, and the breaker and
    the world are as they were. *)
Theorem open_breaker_probes_after_timeout
    (b : CircuitBreaker) (T : Type) (operation : M T) (w : World) :
  reachable b ->
  state b = open ->
  (resetTimeout b < clock w - lastFailureTime b ->
   guard (clock w) b = inr (set_state half_open b) /\
   exists b' : CircuitBreaker,
     execute b operation w = (fst (operation w), b', snd (operation w)) /\
     match fst (operation w) with
     | inr _ => state b' = closed /\ failures b' = 0
     | inl _ => state b' = open /\ failures b' = failures b + 1 /\
                lastFailureTime b' = clock (snd (operation w))
     end) /\
  (clock w - lastFailureTime b <= resetTimeout b ->
   guard (clock w) b = inl (circuit_open_error b) /\
   execute b operation w = (inl (circuit_open_error b), b, w)).
Proof.
  intros Hreach Hopen.
  destruct (reachable_inv b Hreach) as (Hf & _ & Hthr). specialize (Hthr Hopen).
  split.
  - intros Helapsed.
    assert (Hguard : guard (clock w) b = inr (set_state half_open b)).
    { unfold guard. rewrite Hopen.
      destruct (resetTimeout b <? clock w - lastFailureTime b) eqn:Ht; [reflexivity|].
      apply Z.ltb_ge in Ht. lia. }
    split; [assumption|].
    unfold execute. rewrite Hguard.
    destruct (operation w) as [[e|v] w1]; cbn.
    + eexists. split; [reflexivity|].
      rewrite recordFailure_state.
      destruct (recordFailure_fields (clock w1) (set_state half_open b))
        as (Ff & Fl & _).
      cbn in *. rewrite Ff, Fl.
      destruct (maxFailures b <=? failures b + 1) eqn:Hle.
      * repeat split.
      * apply Z.leb_gt in Hle. lia.
    + eexists. split; [reflexivity|]. split; reflexivity.
  - intros Helapsed.
    assert (Hguard : guard (clock w) b = inl (circuit_open_error b)).
    { unfold guard. rewrite Hopen.
      destruct (resetTimeout b <? clock w - lastFailureTime b) eqn:Ht; [|reflexivity].
      apply Z.ltb_lt in Ht. lia. }
    split; [assumption|].
    unfold execute. now rewrite Hguard.
Qed.

Lemma open_breaker_probes_after_timeout_witness :
  (guard (clock (at_time 61001)) (after_failures 5 1000)
   = inr (set_state half_open (after_failures 5 1000)) /\
   exists b' : CircuitBreaker,
     execute (after_failures 5 1000) passing_probe (at_time 61001)
     = (fst (passing_probe (at_time 61001)), b', snd (passing_probe (at_time 61001))) /\
     match fst (passing_probe (at_time 61001)) with
     | inr _ => state b' = closed /\ failures b' = 0
     | inl _ => state b' = open /\
                failures b' = failures (after_failures 5 1000) + 1 /\
                lastFailureTime b' = clock (snd (passing_probe (at_time 61001)))
     end) /\
  (guard (clock (at_time 61000)) (after_failures 5 1000)
   = inl (circuit_open_error (after_failures 5 1000)) /\
   execute (after_failures 5 1000) passing_probe (at_time 61000)
   = (inl (circuit_open_error (after_failures 5 1000)),
      after_failures 5 1000, at_time 61000)).
Proof.
  split.
  - apply (open_breaker_probes_after_timeout (after_failures 5 1000) unit
             passing_probe (at_time 61001)).
    + apply after_failures_reachable.
    + reflexivity.
    + cbn. lia.
  - apply (open_breaker_probes_after_timeout (after_failures 5 1000) unit
             passing_probe (at_time 61000)).
    + apply after_failures_reachable.
    + reflexivity.
    + cbn. lia.
Defined.

(** ** Numbers *)

Section NumberFacts.


Lemma this_plus (a b : Qc) : (this (a + b)%Qc == this a + this b)%Q.
Proof. apply Qred_correct. Qed.

Lemma Qc_ltb_false_le (a b : Qc) : JsNum.Qc_ltb a b = false -> (b <= a)%Qc.
Proof.
  unfold JsNum.Qc_ltb. intros H. apply negb_false_iff in H.
  apply Qle_bool_iff in H. exact H.
Qed.

Lemma Qc_ltb_true_lt (a b : Qc) : JsNum.Qc_ltb a b = true -> (a < b)%Qc.
Proof.
  unfold JsNum.Qc_ltb. intros H. apply negb_true_iff in H.
  apply Qnot_le_lt. intros Hle. apply Qle_bool_iff in Hle. congruence.
Qed.





(** Scaling by a positive whole number [k] and back. *)
Variable k : Z.
Hypothesis k_pos : 0 < k.










End NumberFacts.

(** ** The normalisation of a payload *)

Import ApiService.

Section NormalisationFacts.
Variable isValidUrl : string -> bool.

Lemma object_or_inr (v : option JsValue) (msg : string) (o : JsValue) :
  object_or v msg = inr o ->
  v = Some o /\ Json.truthy o = true /\ Json.is_object o = true.
Proof.
  unfold object_or. destruct v as [o'|]; [|discriminate].
  destruct (Json.truthy o' && Json.is_object o')%bool eqn:H; [|discriminate].
  intros [= ->]. apply andb_true_iff in H. tauto.
Qed.


Lemma string_or_inr (v : option JsValue) (msg s : string) :
  string_or v msg = inr s -> v = Some (JStr s).
Proof.
  unfold string_or, as_string.
  destruct v as [[]|]; try discriminate. now intros [= ->].
Qed.

Lemma require_inr (ok : bool) (msg : string) (u : unit) :
  require ok msg = inr u -> ok = true.
Proof. unfold require. destruct ok; [reflexivity | discriminate]. Qed.



Lemma In_non_null {A} (xs : list (option A)) (x : A) :
  In x (non_null xs) <-> In (Some x) xs.
Proof.
  induction xs as [|[y|] xs IH]; cbn.
  - tauto.
  - rewrite IH. split; intros [H|H]; auto; left; congruence.
  - rewrite IH. split; [auto | intros [H|H]; [discriminate|auto]].
Qed.

Lemma In_normalised (items : list JsValue) (p : Product) :
  In p (non_null (map (validated isValidUrl) items)) <->
  exists item, In item items /\ validateAndTransformProduct isValidUrl item = inr p.
Proof.
  rewrite In_non_null, in_map_iff. unfold validated.
  split; intros (item & H1 & H2); exists item.
  - split; [assumption|].
    destruct (validateAndTransformProduct isValidUrl item); congruence.
  - rewrite H2. auto.
Qed.

Lemma length_normalised (items : list JsValue) :
  (List.length (non_null (map (validated isValidUrl) items))
   + List.length (filter (refused isValidUrl) items)
   = List.length items)%nat.
Proof.
  induction items as [|item items IH]; [reflexivity|].
  cbn [map non_null filter].
  unfold validated at 1, refused at 1.
  destruct (validateAndTransformProduct isValidUrl item); cbn [List.length]; lia.
Qed.

End NormalisationFacts.

(** ** The numbers of a normalised product *)

(** [nearest] at values of which the double is well known: a tenth; the
    integers just above [2 ^ 53], where the doubles are two apart and a
    tie goes to the even one; the largest double and the first real that
    is read as [Infinity]; the smallest double and the reals around half
    of it. *)
Example nearest_samples :
  JsNum.strict_eq (Binary64.nearest (Q2Qc (1 # 10)))
    (Fin (Q2Qc (3602879701896397 # 36028797018963968))) = true /\
  JsNum.strict_eq (Binary64.nearest (Q2Qc (inject_Z (2 ^ 53 + 1))))
    (JsNum.of_Z (2 ^ 53)) = true /\
  JsNum.strict_eq (Binary64.nearest (Q2Qc (inject_Z (2 ^ 53 + 3))))
    (JsNum.of_Z (2 ^ 53 + 4)) = true /\
  JsNum.strict_eq (Binary64.nearest (Q2Qc (inject_Z (2 ^ 1024 - 2 ^ 970 - 1))))
    (JsNum.of_Z (2 ^ 1024 - 2 ^ 971)) = true /\
  Binary64.nearest (Q2Qc (inject_Z (2 ^ 1024 - 2 ^ 970))) = Inf false /\
  Binary64.nearest (Q2Qc (inject_Z (- 10 ^ 400))) = Inf true /\
  JsNum.strict_eq (Binary64.nearest (Q2Qc (1 # 2 ^ 1075))) (JsNum.of_Z 0) = true /\
  JsNum.strict_eq (Binary64.nearest (Q2Qc (3 # 2 ^ 1076)))
    (Fin (Q2Qc (1 # 2 ^ 1074))) = true.
Proof. vm_compute. repeat split; reflexivity. Qed.

Lemma this_inject (z : Z) : (this (Q2Qc (inject_Z z)) == inject_Z z)%Q.
Proof. apply Qred_correct. Qed.

Lemma this_opp (a : Qc) : (this (- a)%Qc == - this a)%Q.
Proof. apply Qred_correct. Qed.

Lemma this_mult (a b : Qc) : (this (a * b)%Qc == this a * this b)%Q.
Proof. apply Qred_correct. Qed.

Lemma this_inv (a : Qc) : (this (/ a)%Qc == / this a)%Q.
Proof. apply Qred_correct. Qed.

Lemma this_div (a b : Qc) : (this (a / b)%Qc == this a / this b)%Q.
Proof. unfold Qcdiv. rewrite this_mult, this_inv. reflexivity. Qed.

Lemma this_minus (a b : Qc) : (this (a - b)%Qc == this a - this b)%Q.
Proof.
  unfold Qcminus. rewrite this_plus, this_opp. reflexivity.
Qed.

Lemma pow2_pos (e : Z) : (0 < this (Binary64.pow2 e))%Q.
Proof.
  unfold Binary64.pow2. assert (H : forall n, 0 <= n -> (0 < inject_Z (2 ^ n))%Q).
  { intros n Hn. change 0%Q with (inject_Z 0). rewrite <- Zlt_Qlt.
    apply Z.pow_pos_nonneg; lia. }
  destruct (0 <=? e) eqn:E.
  - rewrite this_inject. apply H. now apply Z.leb_le.
  - rewrite this_inv, this_inject. apply Qinv_lt_0_compat. apply H.
    apply Z.leb_gt in E. lia.
Qed.

(** For an exponent that is not positive, [2 ^ t] is one over a whole
    power of two. *)
Lemma pow2_nonpos (t : Z) :
  t <= 0 -> (this (Binary64.pow2 t) == / inject_Z (2 ^ (- t)))%Q.
Proof.
  intros Ht. unfold Binary64.pow2. destruct (0 <=? t) eqn:E.
  - apply Z.leb_le in E. assert (t = 0) by lia. subst.
    rewrite this_inject. reflexivity.
  - rewrite this_inv, this_inject. reflexivity.
Qed.

Lemma Qfloor_nonneg (q : Q) : (0 <= q)%Q -> 0 <= Qfloor q.
Proof.
  intros H. change 0 with (Qfloor 0). now apply Qfloor_resp_le.
Qed.

Lemma nearest_even_nonneg (a : Qc) :
  (0 <= this a)%Q -> 0 <= Binary64.nearest_even a.
Proof.
  intros H. unfold Binary64.nearest_even.
  pose proof (Qfloor_nonneg _ H) as Hf.
  destruct (_ ?= _)%Qc; [destruct (Z.even _)| |]; lia.
Qed.

(** Rounding to the nearest integer does not pass an integer. *)
Lemma nearest_even_below (a : Qc) (n : Z) :
  (this a <= inject_Z n)%Q -> Binary64.nearest_even a <= n.
Proof.
  intros H. unfold Binary64.nearest_even.
  pose proof (Qfloor_le (this a)) as Hf.
  assert (Hfn : Qfloor (this a) <= n).
  { rewrite Zle_Qle. lra. }
  destruct (Z.eq_dec (Qfloor (this a)) n) as [E | E].
  - assert (Hlt : ((a - Q2Qc (inject_Z (Qfloor a)))%Qc ?= Q2Qc (1 # 2))%Qc = Lt).
    { unfold Qccompare. rewrite <- Qlt_alt, this_minus, this_inject.
      change (this (Q2Qc (1 # 2))) with (1 # 2)%Q.
      rewrite E in *. lra. }
    rewrite Hlt. lia.
  - destruct (_ ?= _)%Qc; [destruct (Z.even _)| |]; lia.
Qed.

Lemma nearest_not_NaN (q : Qc) : Binary64.nearest q <> NaN.
Proof.
  unfold Binary64.nearest.
  destruct (q ?= Q2Qc 0)%Qc; [discriminate | |];
    destruct (Binary64.nearest_positive _); discriminate.
Qed.

Lemma nearest_positive_nonneg (a r : Qc) :
  (0 < this a)%Q -> Binary64.nearest_positive a = Some r -> (0 <= this r)%Q.
Proof.
  intros Ha. unfold Binary64.nearest_positive.
  destruct (JsNum.Qc_ltb _ _); [|discriminate]. intros [= <-].
  rewrite this_mult, this_inject.
  pose proof (pow2_pos (Binary64.quantum a)) as Hp.
  apply Qmult_le_0_compat; [|lra].
  change 0%Q with (inject_Z 0). rewrite <- Zle_Qle.
  apply nearest_even_nonneg. rewrite this_div.
  apply Qle_shift_div_l; lra.
Qed.

(** The double nearest to a real that is not negative is not negative. *)
Lemma nearest_nonneg (q : Qc) :
  (0 <= this q)%Q ->
  Binary64.nearest q = Inf false \/
  exists r : Qc, (0 <= this r)%Q /\ Binary64.nearest q = Fin r.
Proof.
  intros Hq. unfold Binary64.nearest.
  destruct (q ?= Q2Qc 0)%Qc eqn:E.
  - right. exists (Q2Qc 0). split; [cbn; lra | reflexivity].
  - unfold Qccompare in E. rewrite <- Qlt_alt in E.
    change (this (Q2Qc 0)) with 0%Q in E. lra.
  - unfold Qccompare in E. rewrite <- Qgt_alt in E.
    change (this (Q2Qc 0)) with 0%Q in E.
    destruct (Binary64.nearest_positive q) as [r|] eqn:Hr; [|now left].
    right. exists r. split; [|reflexivity].
    eapply nearest_positive_nonneg; eassumption.
Qed.


(** A positive rational below [2 ^ 52] has a quantum that is not
    positive: the doubles around it are at most one apart. *)
Lemma quantum_nonpos (y : Qc) (m : Z) :
  (0 < this y)%Q -> (this y <= inject_Z m)%Q -> Z.log2 m <= 50 ->
  Binary64.quantum y <= 0.
Proof.
  intros Hy Hm Hlog. unfold Binary64.quantum, Binary64.exponent.
  destruct y as [[n d] Hc]. cbn [this Qnum Qden] in *.
  assert (Hn : 0 < n) by (unfold Qlt in Hy; cbn [Qnum Qden] in Hy; lia).
  assert (Hnm : n <= m * Zpos d)
    by (unfold Qle in Hm; cbn [Qnum Qden inject_Z] in Hm; lia).
  assert (Hm0 : 0 < m) by nia.
  pose proof (Z.log2_le_mono _ _ Hnm) as H1.
  pose proof (Z.log2_mul_above m (Zpos d) ltac:(lia) ltac:(lia)) as H2.
  destruct (JsNum.Qc_ltb _ _); lia.
Qed.

(** The double nearest to a real between zero and a small integer lies
    between zero and that integer. *)
Lemma nearest_below (y : Qc) (m : Z) :
  (0 <= this y)%Q -> (this y <= inject_Z m)%Q -> Z.log2 m <= 50 ->
  exists r : Qc,
    Binary64.nearest y = Fin r /\ (0 <= this r)%Q /\ (this r <= inject_Z m)%Q.
Proof.
  intros Hy Hm Hlog. unfold Binary64.nearest.
  destruct (y ?= Q2Qc 0)%Qc eqn:E.
  - exists (Q2Qc 0). split; [reflexivity|].
    change (this (Q2Qc 0)) with 0%Q. split; lra.
  - unfold Qccompare in E. rewrite <- Qlt_alt in E.
    change (this (Q2Qc 0)) with 0%Q in E. lra.
  - unfold Qccompare in E. rewrite <- Qgt_alt in E.
    change (this (Q2Qc 0)) with 0%Q in E.
    pose proof (quantum_nonpos y m E Hm Hlog) as Ht.
    unfold Binary64.nearest_positive.
    set (t := Binary64.quantum y) in *.
    set (z := (y / Binary64.pow2 t)%Qc).
    pose proof (pow2_pos t) as Hp.
    pose proof (pow2_nonpos t Ht) as Hpt.
    assert (Hs : (0 < inject_Z (2 ^ (- t)))%Q).
    { change 0%Q with (inject_Z 0). rewrite <- Zlt_Qlt.
      apply Z.pow_pos_nonneg; lia. }
    assert (Hz0 : (0 <= this z)%Q).
    { unfold z. rewrite this_div. apply Qle_shift_div_l; lra. }
    assert (Hz : (this z <= inject_Z (m * 2 ^ (- t)))%Q).
    { unfold z. rewrite this_div, Hpt, inject_Z_mult.
      unfold Qdiv. rewrite Qinv_involutive.
      apply Qmult_le_compat_r; lra. }
    pose proof (nearest_even_nonneg z Hz0) as Hk0.
    pose proof (nearest_even_below z _ Hz) as Hk.
    set (k := Binary64.nearest_even z) in *.
    assert (Hr0 : (0 <= this (Q2Qc (inject_Z k) * Binary64.pow2 t)%Qc)%Q).
    { rewrite this_mult, this_inject. apply Qmult_le_0_compat; [|lra].
      change 0%Q with (inject_Z 0). now rewrite <- Zle_Qle. }
    assert (Hrm : (this (Q2Qc (inject_Z k) * Binary64.pow2 t)%Qc <= inject_Z m)%Q).
    { rewrite this_mult, this_inject, Hpt.
      apply Qle_shift_div_r; [assumption|].
      rewrite <- inject_Z_mult, <- Zle_Qle. exact Hk. }
    assert (Hfit : JsNum.Qc_ltb (Q2Qc (inject_Z k) * Binary64.pow2 t)%Qc
                     (Binary64.pow2 1024) = true).
    { unfold JsNum.Qc_ltb. apply negb_true_iff.
      destruct (Qle_bool _ _) eqn:Hle; [|reflexivity].
      apply Qle_bool_iff in Hle.
      unfold Binary64.pow2 in Hle at 1. cbn [Z.leb Z.compare] in Hle.
      rewrite this_inject in Hle.
      assert (Hm0 : 0 < m).
      { rewrite Zlt_Qlt. change (inject_Z 0) with 0%Q. lra. }
      assert (Hbig : m < 2 ^ 1024).
      { apply Z.lt_le_trans with (2 ^ 51).
        - apply Z.log2_lt_pow2; lia.
        - apply Z.pow_le_mono_r; lia. }
      rewrite Zlt_Qlt in Hbig. lra. }
    rewrite Hfit. eexists. split; [reflexivity|]. split; assumption.
Qed.

(** *** The order of the numbers *)

Lemma le_Fin (a b : Qc) : JsNum.le (Fin a) (Fin b) = true <-> (this a <= this b)%Q.
Proof.
  unfold JsNum.le, JsNum.lt, JsNum.strict_eq, JsNum.Qc_ltb.
  rewrite orb_true_iff, negb_true_iff. split.
  - intros [H | H].
    + apply Qlt_le_weak, Qnot_le_lt. intros Hle.
      apply Qle_bool_iff in Hle. congruence.
    + apply Qc_eq_bool_correct in H. subst. apply Qle_refl.
  - intros H. destruct (Qle_bool (this b) (this a)) eqn:E; [|now left].
    right. apply Qle_bool_iff in E.
    assert (Heq : a = b) by (apply Qc_is_canon; lra).
    subst. unfold Qc_eq_bool. destruct (Qc_eq_dec b b); congruence.
Qed.

(** Between numbers none of which is [NaN], [x <= y] says the same as
    [!(y < x)]. *)
Lemma le_negb_lt (x y : JsNumber) :
  x <> NaN -> y <> NaN -> JsNum.le x y = negb (JsNum.lt y x).
Proof.
  intros Hx Hy. destruct x as [|s|a], y as [|t|b]; try congruence.
  - destruct s, t; reflexivity.
  - unfold JsNum.le. cbn. destruct s; reflexivity.
  - unfold JsNum.le. cbn. destruct t; reflexivity.
  - destruct (JsNum.le (Fin a) (Fin b)) eqn:E.
    + apply le_Fin in E. symmetry. apply negb_true_iff. cbn.
      unfold JsNum.Qc_ltb. apply negb_false_iff. now apply Qle_bool_iff.
    + symmetry. apply negb_false_iff. cbn. unfold JsNum.Qc_ltb.
      apply negb_true_iff. destruct (Qle_bool (this a) (this b)) eqn:E'; [|reflexivity].
      apply Qle_bool_iff in E'. apply le_Fin in E'. congruence.
Qed.

(** A number that is not below zero, and is not [NaN]. *)
Lemma not_below_zero (x : JsNumber) :
  x <> NaN -> JsNum.lt x (JsNum.of_Z 0) = false ->
  x = Inf false \/ exists a : Qc, (0 <= this a)%Q /\ x = Fin a.
Proof.
  intros Hx H. destruct x as [|[]|a]; try congruence.
  - discriminate.
  - now left.
  - right. exists a. split; [|reflexivity].
    cbn in H. apply Qc_ltb_false_le in H. unfold Qcle in H.
    rewrite this_inject in H. exact H.
Qed.

(** *** What the code makes of a price, a rate and a count *)

Lemma round_whole (b : Qc) :
  (0 <= this b)%Q ->
  exists k : Z, 0 <= k /\ JsNum.round b = Q2Qc (inject_Z k) /\
                (forall m : Z, (this b <= inject_Z m)%Q -> k <= m).
Proof.
  intros Hb. unfold JsNum.round.
  exists (Qfloor (b + Q2Qc (1 # 2))%Qc). split; [|split; [reflexivity|]].
  - apply Qfloor_nonneg. rewrite this_plus.
    change (this (Q2Qc (1 # 2))) with (1 # 2)%Q. lra.
  - intros m Hm.
    pose proof (Qfloor_le (this (b + Q2Qc (1 # 2))%Qc)) as Hf.
    set (f := Qfloor (this (b + Q2Qc (1 # 2))%Qc)) in *.
    rewrite this_plus in Hf. change (this (Q2Qc (1 # 2))) with (1 # 2)%Q in Hf.
    apply Z.lt_succ_r. rewrite Zlt_Qlt. unfold Z.succ.
    rewrite inject_Z_plus. change (inject_Z 1) with 1%Q. lra.
Qed.

Lemma whole_not_zero (k : Z) :
  0 < k -> Qc_eq_bool (Q2Qc (inject_Z k)) (Q2Qc 0) = false.
Proof.
  intros Hk. destruct (Qc_eq_bool _ _) eqn:E; [|reflexivity].
  apply Qc_eq_bool_correct in E.
  assert (H : (this (Q2Qc (inject_Z k)) == 0)%Q) by (rewrite E; reflexivity).
  rewrite this_inject in H. unfold Qeq in H. cbn [Qnum Qden inject_Z] in H. lia.
Qed.

Lemma whole_not_negative (k : Z) :
  0 < k -> Binary64.negative (Q2Qc (inject_Z k)) = false.
Proof.
  intros Hk. unfold Binary64.negative, JsNum.Qc_ltb. apply negb_false_iff.
  apply Qle_bool_iff. change (this (Q2Qc 0)) with 0%Q.
  rewrite this_inject. change 0%Q with (inject_Z 0). rewrite <- Zle_Qle. lia.
Qed.

(** [Math.round(x * scale) / scale], for an [x] that is not negative:
    the positive infinity, or the double nearest to a whole number of
    parts. *)
Lemma rescaled (x : JsNumber) (scale : Z) :
  0 < scale ->
  x <> NaN -> JsNum.lt x (JsNum.of_Z 0) = false ->
  Binary64.div (Binary64.Math_round (Binary64.mul x (JsNum.of_Z scale)))
    (JsNum.of_Z scale) = Inf false \/
  exists k : Z,
    0 <= k /\
    Binary64.div (Binary64.Math_round (Binary64.mul x (JsNum.of_Z scale)))
      (JsNum.of_Z scale)
    = Binary64.nearest (Q2Qc (inject_Z k) / Q2Qc (inject_Z scale)).
Proof.
  intros Hs Hx Hlt.
  pose proof (whole_not_zero scale Hs) as Hz.
  pose proof (whole_not_negative scale Hs) as Hn.
  destruct (not_below_zero x Hx Hlt) as [-> | (a & Ha & ->)].
  - left. unfold JsNum.of_Z. cbn [Binary64.mul]. rewrite Hz, Hn.
    cbn [xorb Binary64.Math_round Binary64.div]. now rewrite Hn.
  - unfold JsNum.of_Z. cbn [Binary64.mul].
    assert (Hprod : (0 <= this (a * Q2Qc (inject_Z scale))%Qc)%Q).
    { rewrite this_mult, this_inject. apply Qmult_le_0_compat; [assumption|].
      change 0%Q with (inject_Z 0). rewrite <- Zle_Qle. lia. }
    destruct (nearest_nonneg _ Hprod) as [E | (b & Hb & E)].
    + left. rewrite E. cbn [Binary64.Math_round Binary64.div]. now rewrite Hn.
    + right. destruct (round_whole b Hb) as (k & Hk & Hround & _).
      exists k. split; [assumption|].
      rewrite E. cbn [Binary64.Math_round Binary64.div]. rewrite Hround, Hz.
      reflexivity.
Qed.

(** The same for an [x] from zero to a small integer [m]: the double
    nearest to a whole number of parts, from none to [m * scale]. *)
Lemma rescaled_bounded (x : JsNumber) (scale m : Z) :
  0 < scale ->
  x <> NaN -> JsNum.lt x (JsNum.of_Z 0) = false ->
  JsNum.le x (JsNum.of_Z m) = true -> Z.log2 (m * scale) <= 50 ->
  exists k : Z,
    0 <= k <= m * scale /\
    Binary64.div (Binary64.Math_round (Binary64.mul x (JsNum.of_Z scale)))
      (JsNum.of_Z scale)
    = Binary64.nearest (Q2Qc (inject_Z k) / Q2Qc (inject_Z scale)).
Proof.
  intros Hs Hx Hlt Hm Hlog.
  pose proof (whole_not_zero scale Hs) as Hz.
  destruct (not_below_zero x Hx Hlt) as [-> | (a & Ha & ->)]; [discriminate|].
  apply le_Fin in Hm. rewrite this_inject in Hm.
  unfold JsNum.of_Z. cbn [Binary64.mul].
  assert (Hprod : (0 <= this (a * Q2Qc (inject_Z scale))%Qc)%Q).
  { rewrite this_mult, this_inject. apply Qmult_le_0_compat; [assumption|].
    change 0%Q with (inject_Z 0). rewrite <- Zle_Qle. lia. }
  assert (Hy : (this (a * Q2Qc (inject_Z scale))%Qc <= inject_Z (m * scale))%Q).
  { rewrite this_mult, this_inject, inject_Z_mult.
    apply Qmult_le_compat_r; [assumption|].
    change 0%Q with (inject_Z 0). rewrite <- Zle_Qle. lia. }
  destruct (nearest_below _ _ Hprod Hy Hlog) as (b & -> & Hb & Hbm).
  destruct (round_whole b Hb) as (k & Hk & Hround & Hbound).
  exists k. split; [split; [assumption | now apply Hbound]|].
  cbn [Binary64.Math_round Binary64.div]. rewrite Hround, Hz. reflexivity.
Qed.

(** The double nearest to [k] parts of [scale] lies between zero and
    [m] when [k] lies between zero and [m * scale]. *)
Lemma parts_below (k scale m : Z) :
  0 < scale -> 0 <= k <= m * scale -> Z.log2 m <= 50 ->
  JsNum.le (JsNum.of_Z 0)
    (Binary64.nearest (Q2Qc (inject_Z k) / Q2Qc (inject_Z scale))) = true /\
  JsNum.le (Binary64.nearest (Q2Qc (inject_Z k) / Q2Qc (inject_Z scale)))
    (JsNum.of_Z m) = true.
Proof.
  intros Hs Hk Hlog.
  assert (Hpos : (0 < inject_Z scale)%Q).
  { change 0%Q with (inject_Z 0). rewrite <- Zlt_Qlt. exact Hs. }
  assert (H0 : (0 <= this (Q2Qc (inject_Z k) / Q2Qc (inject_Z scale))%Qc)%Q).
  { rewrite this_div, !this_inject. apply Qle_shift_div_l; [assumption|].
    rewrite Qmult_0_l. change 0%Q with (inject_Z 0). rewrite <- Zle_Qle. lia. }
  assert (Hm : (this (Q2Qc (inject_Z k) / Q2Qc (inject_Z scale))%Qc
                <= inject_Z m)%Q).
  { rewrite this_div, !this_inject. apply Qle_shift_div_r; [assumption|].
    rewrite <- inject_Z_mult, <- Zle_Qle. lia. }
  destruct (nearest_below _ _ H0 Hm Hlog) as (r & -> & Hr0 & Hrm).
  unfold JsNum.of_Z. split; apply le_Fin; rewrite this_inject; assumption.
Qed.

Lemma nearest_not_below_zero (q : Qc) :
  (0 <= this q)%Q -> JsNum.le (JsNum.of_Z 0) (Binary64.nearest q) = true.
Proof.
  intros Hq. destruct (nearest_nonneg q Hq) as [-> | (r & Hr & ->)].
  - reflexivity.
  - apply le_Fin. unfold JsNum.of_Z. now rewrite this_inject.
Qed.

(** [Math.floor(x)], for an [x] that is not negative. *)
Lemma floored (x : JsNumber) :
  x <> NaN -> JsNum.lt x (JsNum.of_Z 0) = false ->
  DataModel.whole_or_infinite (Binary64.Math_floor x).
Proof.
  intros Hx Hlt. destruct (not_below_zero x Hx Hlt) as [-> | (a & Ha & ->)].
  - now left.
  - right. exists (Qfloor a). split; [now apply Qfloor_nonneg | reflexivity].
Qed.

(** *** The records that the normalisation accepts *)

Section NormaliserFacts.

Variable trim : string -> string.
Variable isValidUrl : string -> bool.

Lemma double_or_inr (v : option JsValue) (msg : string) (x : JsNumber) :
  Normaliser.number_or v msg = inr x ->
  exists q : Qc, v = Some (JNum q) /\ x = Binary64.nearest q.
Proof.
  unfold Normaliser.number_or, Normaliser.as_number.
  destruct v as [[]|]; try discriminate. intros [= <-]. eexists. now split.
Qed.

(** What an accepted record holds, and what is made of it. *)
Lemma accepted_record (item : JsValue) (p : Normaliser.Product) :
  Normaliser.validateAndTransformProduct trim isValidUrl item = inr p ->
  exists (fields rating : list (string * JsValue))
         (rawTitle rawDescription rawCategory rawImage : string)
         (rawId rawPrice rawRate rawCount : Qc),
    item = JObj fields /\
    Json.lookup "id" fields = Some (JNum rawId) /\
    Json.lookup "title" fields = Some (JStr rawTitle) /\
    Json.lookup "price" fields = Some (JNum rawPrice) /\
    Json.lookup "description" fields = Some (JStr rawDescription) /\
    Json.lookup "category" fields = Some (JStr rawCategory) /\
    Json.lookup "image" fields = Some (JStr rawImage) /\
    Json.lookup "rating" fields = Some (JObj rating) /\
    Json.lookup "rate" rating = Some (JNum rawRate) /\
    Json.lookup "count" rating = Some (JNum rawCount) /\
    JsString.truthy (trim rawTitle) = true /\
    JsNum.lt (Binary64.nearest rawPrice) (JsNum.of_Z 0) = false /\
    isValidUrl rawImage = true /\
    JsNum.lt (Binary64.nearest rawRate) (JsNum.of_Z 0) = false /\
    JsNum.gt (Binary64.nearest rawRate) (JsNum.of_Z 5) = false /\
    JsNum.lt (Binary64.nearest rawCount) (JsNum.of_Z 0) = false /\
    p = Normaliser.mkProduct
          (Binary64.nearest rawId)
          (trim rawTitle)
          (Binary64.div
             (Binary64.Math_round
                (Binary64.mul (Binary64.nearest rawPrice) (JsNum.of_Z 100)))
             (JsNum.of_Z 100))
          (trim rawDescription)
          (trim rawCategory)
          rawImage
          (Normaliser.mkRating
             (Binary64.div
                (Binary64.Math_round
                   (Binary64.mul (Binary64.nearest rawRate) (JsNum.of_Z 10)))
                (JsNum.of_Z 10))
             (Binary64.Math_floor (Binary64.nearest rawCount))).
Proof.
  unfold Normaliser.validateAndTransformProduct.
  destruct (object_or (Some item) _) as [|product] eqn:H0; [discriminate|].
  apply (object_or_inr isValidUrl) in H0 as ([= <-] & _ & _).
  destruct (Normaliser.number_or (Json.prop item "id") _) as [|i] eqn:H1;
    [discriminate|].
  destruct (string_or (Json.prop item "title") _) as [|t] eqn:H2; [discriminate|].
  destruct (require (JsString.truthy (trim t)) _) as [|u1] eqn:H3; [discriminate|].
  destruct (Normaliser.number_or (Json.prop item "price") _) as [|pr] eqn:H4;
    [discriminate|].
  destruct (require (negb (JsNum.lt pr (JsNum.of_Z 0))) _) as [|u2] eqn:H5;
    [discriminate|].
  destruct (string_or (Json.prop item "description") _) as [|d] eqn:H6; [discriminate|].
  destruct (string_or (Json.prop item "category") _) as [|c] eqn:H7; [discriminate|].
  destruct (string_or (Json.prop item "image") _) as [|im] eqn:H8; [discriminate|].
  destruct (require (isValidUrl im) _) as [|u3] eqn:H9; [discriminate|].
  destruct (object_or (Json.prop item "rating") _) as [|rt] eqn:H10; [discriminate|].
  destruct (Normaliser.number_or (Json.prop rt "rate") _) as [|ra] eqn:H11;
    [discriminate|].
  destruct (require (negb (JsNum.lt ra (JsNum.of_Z 0) || JsNum.gt ra (JsNum.of_Z 5))) _)
    as [|u4] eqn:H12; [discriminate|].
  destruct (Normaliser.number_or (Json.prop rt "count") _) as [|co] eqn:H13;
    [discriminate|].
  destruct (require (negb (JsNum.lt co (JsNum.of_Z 0))) _) as [|u5] eqn:H14;
    [discriminate|].
  intros [= <-].
  apply double_or_inr in H1 as (qi & H1 & ->), H4 as (qp & H4 & ->),
    H11 as (qr & H11 & ->), H13 as (qc & H13 & ->).
  apply string_or_inr in H2, H6, H7, H8.
  apply (object_or_inr isValidUrl) in H10 as (H10 & _).
  apply require_inr in H3, H5, H9, H12, H14.
  apply negb_true_iff in H5, H12, H14.
  apply orb_false_iff in H12 as (H12a & H12b).
  destruct item as [| | | | |fields]; cbn [Json.prop] in *; try discriminate.
  destruct rt as [| | | | |rating]; cbn [Json.prop] in *; try discriminate.
  exists fields, rating, t, d, c, im, qi, qp, qr, qc.
  split; [reflexivity|].
  repeat match goal with |- _ /\ _ => split; [assumption|] end.
  reflexivity.
Qed.

Lemma of_Z_not_NaN (z : Z) : JsNum.of_Z z <> NaN.
Proof. discriminate. Qed.

Lemma truthy_not_empty (s : string) :
  JsString.truthy s = negb (String.eqb s "").
Proof. now destruct s. Qed.

(** The code accepts the records that fit the data model, and no other. *)
Lemma accepted_iff_fits (item : JsValue) :
  DataModel.fits trim isValidUrl item = true <->
  exists p : Normaliser.Product,
    Normaliser.validateAndTransformProduct trim isValidUrl item = inr p.
Proof.
  split.
  - unfold DataModel.fits. destruct item as [| | | | |fields]; try discriminate.
    cbn [Json.prop]. rewrite !andb_true_iff.
    intros ((((((((Hid & Ht) & Ht') & Hp) & Hd) & Hc) & Him) & Hurl) & Hr).
    destruct (Json.lookup "id" fields) as [[| |qi| | |]|] eqn:Eid; try discriminate.
    destruct (Json.lookup "title" fields) as [[| | |t| |]|] eqn:Et; try discriminate.
    destruct (Json.lookup "price" fields) as [[| |qp| | |]|] eqn:Ep; try discriminate.
    destruct (Json.lookup "description" fields) as [[| | |d| |]|] eqn:Ed;
      try discriminate.
    destruct (Json.lookup "category" fields) as [[| | |c| |]|] eqn:Ec; try discriminate.
    destruct (Json.lookup "image" fields) as [[| | |im| |]|] eqn:Eim; try discriminate.
    destruct (Json.lookup "rating" fields) as [[| | | | |rating]|] eqn:Er;
      try discriminate.
    rewrite !andb_true_iff in Hr. destruct Hr as ((Hr0 & Hr5) & Hc0).
    destruct (Json.lookup "rate" rating) as [[| |qr| | |]|] eqn:Era; try discriminate.
    destruct (Json.lookup "count" rating) as [[| |qc| | |]|] eqn:Eco; try discriminate.
    cbn [DataModel.text DataModel.number] in *.
    rewrite (le_negb_lt _ _ (of_Z_not_NaN 0) (nearest_not_NaN qp)) in Hp.
    rewrite (le_negb_lt _ _ (of_Z_not_NaN 0) (nearest_not_NaN qr)) in Hr0.
    rewrite (le_negb_lt _ _ (of_Z_not_NaN 0) (nearest_not_NaN qc)) in Hc0.
    rewrite (le_negb_lt _ _ (nearest_not_NaN qr) (of_Z_not_NaN 5)) in Hr5.
    apply negb_true_iff in Hp, Hr0, Hc0, Hr5.
    unfold Normaliser.validateAndTransformProduct.
    cbn [object_or Json.truthy Json.is_object andb Json.prop].
    rewrite Eid, Et, Ep, Ed, Ec, Eim, Er.
    cbn [Normaliser.number_or Normaliser.as_number string_or as_string object_or
         Json.truthy Json.is_object andb Json.prop].
    rewrite Era, Eco.
    cbn [Normaliser.number_or Normaliser.as_number].
    rewrite truthy_not_empty, Ht', Hp, Hurl, Hc0.
    unfold JsNum.gt. rewrite Hr5, Hr0.
    cbn [require negb orb]. eexists. reflexivity.
  - intros (p & Hp).
    apply accepted_record in Hp
      as (fields & rating & t & d & c & im & qi & qp & qr & qc & -> & Eid & Et & Ep
          & Ed & Ec & Eim & Er & Era & Eco & Ht & Hp0 & Hurl & Hr0 & Hr5 & Hc0 & _).
    unfold DataModel.fits. cbn [Json.prop].
    rewrite Eid, Et, Ep, Ed, Ec, Eim, Er, Era, Eco.
    cbn [DataTransform.is_number DataTransform.is_string DataModel.text
         DataModel.number andb].
    rewrite (le_negb_lt _ _ (of_Z_not_NaN 0) (nearest_not_NaN qp)), Hp0.
    rewrite (le_negb_lt _ _ (of_Z_not_NaN 0) (nearest_not_NaN qr)), Hr0.
    rewrite (le_negb_lt _ _ (of_Z_not_NaN 0) (nearest_not_NaN qc)), Hc0.
    rewrite (le_negb_lt _ _ (nearest_not_NaN qr) (of_Z_not_NaN 5)).
    unfold JsNum.gt in Hr5. rewrite Hr5.
    rewrite <- truthy_not_empty, Ht, Hurl. reflexivity.
Qed.

(** What the normalisation makes of an accepted record keeps the
    invariants. *)
Lemma accepted_invariants (item : JsValue) (p : Normaliser.Product) :
  Normaliser.validateAndTransformProduct trim isValidUrl item = inr p ->
  DataModel.invariants isValidUrl p /\
  Normaliser.id p = DataModel.number (Json.prop item "id").
Proof.
  intros Hp.
  apply accepted_record in Hp
    as (fields & rating & t & d & c & im & qi & qp & qr & qc & -> & Eid & Et & Ep
        & Ed & Ec & Eim & Er & Era & Eco & Ht & Hp0 & Hurl & Hr0 & Hr5 & Hc0 & ->).
  split; [|cbn [Json.prop]; now rewrite Eid].
  unfold DataModel.invariants.
  cbn [Normaliser.id Normaliser.title Normaliser.price Normaliser.image
       Normaliser.rating Normaliser.rate Normaliser.count].
  split; [apply nearest_not_NaN|].
  split; [intros E; rewrite E in Ht; discriminate|].
  assert (Hratio : forall k scale : Z,
    0 <= k -> 0 < scale ->
    (0 <= this (Q2Qc (inject_Z k) / Q2Qc (inject_Z scale))%Qc)%Q).
  { intros k scale Hk Hs. rewrite this_div, !this_inject.
    apply Qle_shift_div_l.
    - change 0%Q with (inject_Z 0). now rewrite <- Zlt_Qlt.
    - rewrite Qmult_0_l. change 0%Q with (inject_Z 0). now rewrite <- Zle_Qle. }
  split; [|split].
  - destruct (rescaled _ 100 ltac:(lia) (nearest_not_NaN qp) Hp0)
      as [-> | (k & Hk & ->)]; [reflexivity|].
    apply nearest_not_below_zero, Hratio; lia.
  - destruct (rescaled _ 100 ltac:(lia) (nearest_not_NaN qp) Hp0)
      as [-> | (k & Hk & ->)]; [now left|].
    right. now exists k.
  - split; [assumption|].
    assert (Hr5' : JsNum.le (Binary64.nearest qr) (JsNum.of_Z 5) = true).
    { rewrite (le_negb_lt _ _ (nearest_not_NaN qr) (of_Z_not_NaN 5)).
      unfold JsNum.gt in Hr5. now rewrite Hr5. }
    destruct (rescaled_bounded _ 10 5 ltac:(lia) (nearest_not_NaN qr) Hr0 Hr5')
      as (k & Hk & ->); [vm_compute; discriminate|].
    destruct (parts_below k 10 5 ltac:(lia) Hk) as (Hlow & Hhigh);
      [vm_compute; discriminate|].
    split; [assumption|]. split; [assumption|].
    split; [now exists k|].
    apply floored; [apply nearest_not_NaN | assumption].
Qed.

(** The products of a normalised payload are what the code makes of the
    records it accepts. *)
Lemma In_normalised_doubles (items : list JsValue) (p : Normaliser.Product) :
  In p (non_null (map (Normaliser.validated trim isValidUrl) items)) <->
  exists item : JsValue,
    In item items /\
    Normaliser.validateAndTransformProduct trim isValidUrl item = inr p.
Proof.
  rewrite In_non_null, in_map_iff. unfold Normaliser.validated.
  split; intros (item & H1 & H2); exists item.
  - split; [assumption|].
    destruct (Normaliser.validateAndTransformProduct trim isValidUrl item);
      congruence.
  - rewrite H2. auto.
Qed.

(** A record that is dropped can as well be left out of the payload. *)
Lemma non_null_filter (items : list JsValue) :
  non_null (map (Normaliser.validated trim isValidUrl)
              (filter (DataModel.fits trim isValidUrl) items))
  = non_null (map (Normaliser.validated trim isValidUrl) items).
Proof.
  induction items as [|item items IH]; [reflexivity|].
  cbn [filter map non_null].
  destruct (DataModel.fits trim isValidUrl item) eqn:E.
  - cbn [map non_null]. now rewrite IH.
  - rewrite IH. unfold Normaliser.validated at 2.
    destruct (Normaliser.validateAndTransformProduct trim isValidUrl item)
      as [e|p] eqn:Hp; [reflexivity|].
    assert (H : DataModel.fits trim isValidUrl item = true)
      by (apply accepted_iff_fits; now exists p).
    congruence.
Qed.

Lemma length_kept (items : list JsValue) :
  length (non_null (map (Normaliser.validated trim isValidUrl)
                      (filter (DataModel.fits trim isValidUrl) items)))
  = length (filter (DataModel.fits trim isValidUrl) items).
Proof.
  induction items as [|item items IH]; [reflexivity|].
  cbn [filter]. destruct (DataModel.fits trim isValidUrl item) eqn:E; [|exact IH].
  apply accepted_iff_fits in E as (p & Hp).
  cbn [map non_null]. unfold Normaliser.validated at 1. rewrite Hp.
  cbn [length]. now rewrite IH.
Qed.

End NormaliserFacts.

(** C5, as stated, fails on the numbers.  Of four records that differ in
    their numbers only, none is dropped: the records whose [id] is [0] and
    [-3/2] are in the result with these identifiers, since the code tests
    the identifier for being a number and nothing more; the record whose
    count is the numeral [1e400], which the platform reads as [Infinity],
    is in the result with the count [Infinity], which is no integer; and
    the record whose price [1.005] is not rounded to cents is in the
    result, with the price [1]. *)
Lemma numbers_outside_the_data_model_are_kept :
  exists ps : list Normaliser.Product,
    Normaliser.transformProductData JsString.trim https_only
      (JArr [DataModel.record (Q2Qc 0) (Q2Qc (15999 # 1000)) (Q2Qc 430);
             DataModel.record (Q2Qc (-3 # 2)) (Q2Qc (15999 # 1000)) (Q2Qc 430);
             DataModel.record (Q2Qc 3) (Q2Qc (15999 # 1000))
               (Q2Qc (inject_Z (10 ^ 400)));
             DataModel.record (Q2Qc 4) (Q2Qc (1005 # 1000)) (Q2Qc 430)])
    = inr ps /\
    Forall2 (fun p x => JsNum.strict_eq (Normaliser.id p) x = true) ps
      [JsNum.of_Z 0; Fin (Q2Qc (-3 # 2)); JsNum.of_Z 3; JsNum.of_Z 4] /\
    map (fun p => positive_integer (Normaliser.id p)) ps
    = [false; false; true; true] /\
    Forall2 (fun p x => JsNum.strict_eq (Normaliser.count (Normaliser.rating p)) x
                        = true) ps
      [JsNum.of_Z 430; JsNum.of_Z 430; Inf false; JsNum.of_Z 430] /\
    Forall2 (fun p x => JsNum.strict_eq (Normaliser.price p) x = true) ps
      [JsNum.of_Z 16; JsNum.of_Z 16; JsNum.of_Z 16; JsNum.of_Z 1].
Proof.
  eexists. split; [vm_compute; reflexivity|].
  split; [repeat constructor|]. split; [reflexivity|].
  split; repeat constructor.
Qed.

(** C5, amended.  A payload that is an array is normalised without error.
    Every product of the result has the number that its record carries
    as identifier, whatever its sign and whether whole or not; a title
    that is not empty; a price that is not negative and is the double
    nearest to a whole number of hundredths, or [Infinity]; an image that
    the URL parser accepts; a rate from 0 to 5 that is the double nearest
    to a whole number of tenths; and a count that is whole and not
    negative, or [Infinity].  A record that does not fit the data model
    before rounding (it is no object, its identifier is no number, its
    title is no string or holds white space only, its price is no number
    or is negative, its description or category is no string, its image
    is no string or no URL, its rating is no object, its rate is no number
    or lies outside 0 to 5, its count is no number or is negative) is
    dropped: nothing is made of it, and the result is that of the payload
    without it.  Every other record is kept. *)
Theorem normalised_products_keep_invariants
    (trim : string -> string) (isValidUrl : string -> bool)
    (items : list JsValue) :
  exists products : list Normaliser.Product,
    Normaliser.transformProductData trim isValidUrl (JArr items) = inr products /\
    Forall (DataModel.invariants isValidUrl) products /\
    (forall p : Normaliser.Product,
        In p products ->
        exists item : JsValue,
          In item items /\
          DataModel.fits trim isValidUrl item = true /\
          Normaliser.validated trim isValidUrl item = Some p /\
          Normaliser.id p = DataModel.number (Json.prop item "id")) /\
    (forall item : JsValue,
        In item items ->
        if DataModel.fits trim isValidUrl item
        then exists p : Normaliser.Product,
               Normaliser.validated trim isValidUrl item = Some p /\
               In p products
        else Normaliser.validated trim isValidUrl item = None) /\
    Normaliser.transformProductData trim isValidUrl
      (JArr (filter (DataModel.fits trim isValidUrl) items)) = inr products /\
    length products
    = length (filter (DataModel.fits trim isValidUrl) items).
Proof.
  eexists. split; [reflexivity|]. split; [|split; [|split; [|split]]].
  - apply Forall_forall. intros p Hp.
    apply In_normalised_doubles in Hp as (item & _ & Hv).
    now apply (accepted_invariants trim isValidUrl item).
  - intros p Hp. apply In_normalised_doubles in Hp as (item & Hin & Hv).
    exists item. split; [assumption|].
    split; [apply accepted_iff_fits; now exists p|].
    split; [unfold Normaliser.validated; now rewrite Hv|].
    now apply (accepted_invariants trim isValidUrl item).
  - intros item Hin.
    destruct (DataModel.fits trim isValidUrl item) eqn:E.
    + apply accepted_iff_fits in E as (p & Hp). exists p.
      split; [unfold Normaliser.validated; now rewrite Hp|].
      apply In_normalised_doubles. now exists item.
    + unfold Normaliser.validated.
      destruct (Normaliser.validateAndTransformProduct trim isValidUrl item)
        as [e|p] eqn:Hp; [reflexivity|].
      assert (H : DataModel.fits trim isValidUrl item = true)
        by (apply accepted_iff_fits; now exists p).
      congruence.
  - cbn [Normaliser.transformProductData]. f_equal. apply non_null_filter.
  - rewrite <- (non_null_filter trim isValidUrl items). apply length_kept.
Qed.

(** C6.  A payload of [N] records of which [K] are refused by
    [validateAndTransformProduct] is normalised without error into exactly
    [N - K] products. *)
Theorem normalisation_drops_exactly_the_refused
    (isValidUrl : string -> bool) (items : list JsValue) :
  exists ps : list Product,
    transformProductData isValidUrl (JArr items) = inr ps /\
    List.length ps
    = (List.length items - List.length (filter (refused isValidUrl) items))%nat /\
    (List.length (filter (refused isValidUrl) items) <= List.length items)%nat.
Proof.
  eexists. split; [reflexivity|].
  pose proof (length_normalised isValidUrl items). lia.
Qed.

(** Three records, the second with a negative price and the third with a
    text for identifier: one product. *)
Example two_of_three_refused :
  option_map (@List.length Product)
    (match transformProductData https_only
             (JArr [sample_record (Q2Qc 7);
                    JObj [("id", JNum (Q2Qc 8)); ("title", JStr "Ring");
                          ("price", JNum (Q2Qc (-1)))];
                    JObj [("id", JStr "9")]]) with
     | inr ps => Some ps
     | inl _ => None
     end) = Some 1%nat.
Proof. reflexivity. Qed.

(** ** The product cache *)

(** C7.  Reading the cache changes nothing.  The read gives the cached
    products when there is an entry younger than five minutes, and the
    empty list (the absent value) when there is no entry or when the entry
    is five minutes old or older; so for an entry that is not itself empty,
    the read gives it exactly when it is younger than five minutes. *)
Theorem cache_read_respects_ttl (w : World) :
  snd (getCachedProducts w) = w /\
  CACHE_DURATION = 300000 /\
  (forall products : list Product,
      cachedProducts (api w) = Some products ->
      clock w - cacheTimestamp (api w) < CACHE_DURATION ->
      fst (getCachedProducts w) = inr products) /\
  (cachedProducts (api w) = None \/
   CACHE_DURATION <= clock w - cacheTimestamp (api w) ->
   fst (getCachedProducts w) = inr []) /\
  (forall products : list Product,
      cachedProducts (api w) = Some products ->
      products <> [] ->
      (fst (getCachedProducts w) = inr products <->
       clock w - cacheTimestamp (api w) < CACHE_DURATION)).
Proof.
  assert (Hrest :
    forall ttl : Z,
      let read :=
        match cachedProducts (api w) with
        | Some products =>
            if clock w - cacheTimestamp (api w) <? ttl
            then (inr products, w) else (@inr JsThrown _ [], w)
        | None => (inr [], w)
        end in
      snd read = w /\
      (forall products : list Product,
          cachedProducts (api w) = Some products ->
          clock w - cacheTimestamp (api w) < ttl -> fst read = inr products) /\
      (cachedProducts (api w) = None \/ ttl <= clock w - cacheTimestamp (api w) ->
       fst read = inr []) /\
      (forall products : list Product,
          cachedProducts (api w) = Some products ->
          products <> [] ->
          (fst read = inr products <-> clock w - cacheTimestamp (api w) < ttl))).
  { intros ttl.
    destruct (cachedProducts (api w)) as [cached|] eqn:Hc.
    - destruct (clock w - cacheTimestamp (api w) <? ttl) eqn:Hage; cbv zeta.
      + apply Z.ltb_lt in Hage. split; [reflexivity|]. split; [|split].
        * intros ps Hps _. cbn [fst]. congruence.
        * intros [H|H]; [discriminate | lia].
        * intros ps Hps _. cbn [fst]. split; [intros _; assumption | congruence].
      + apply Z.ltb_ge in Hage. split; [reflexivity|]. split; [|split].
        * intros ps _ H. lia.
        * intros _. reflexivity.
        * intros ps Hps Hne. cbn [fst]. split; [|lia].
          intros [= E]. exfalso. apply Hne. now symmetry.
    - split; [reflexivity|]. split; [|split].
      + intros ps Hps. discriminate.
      + intros _. reflexivity.
      + intros ps Hps. discriminate. }
  destruct (Hrest CACHE_DURATION) as (H1 & H2 & H3 & H4).
  repeat split; try assumption; try apply H4; try assumption.
Qed.

(** ** The retry loop *)

(** [handleError] marks every [Error] that carries a message only as
    recoverable, whatever the message says. *)
Lemma handleError_recoverable (msg context : string) :
  recoverable (handleError (JsError msg None) context) = true.
Proof. reflexivity. Qed.

(** The only thrown values that [handleError] can mark as not recoverable
    are [Error] instances that bring the mark with them. *)
Lemma handleError_not_recoverable (error : JsThrown) (context : string) :
  recoverable (handleError error context) = false ->
  exists (msg : string) (a : AppError),
    error = JsError msg (Some a) /\ recoverable a = false.
Proof.
  destruct error as [msg [a|] | s | a | a |]; cbn; try discriminate.
  intros H. now exists msg, a.
Qed.

Section RetryFacts.
Context {T F : Type}.
Variable operation : M T.
Variable maxRetries : nat.
Variable retryDelay : Z.
Variable fallbackValue : option F.
Variable context : string.

(** One turn of the loop. *)
Lemma attempts_step (fuel attempt : nat) (lastError : option AppError)
    (retryCount : nat) (w : World) :
  attempts operation maxRetries retryDelay context (S fuel) attempt lastError
    retryCount w =
  match operation w with
  | (inr result, w1) => (inr (Returned result attempt), w1)
  | (inl error, w1) =>
      if (negb (recoverable (handleError error context))
          || Nat.eqb attempt maxRetries)%bool
      then (inr (Broken (Some (handleError error context)) attempt), w1)
      else attempts operation maxRetries retryDelay context fuel (S attempt)
             (Some (handleError error context)) attempt
             (pause maxRetries retryDelay attempt w1)
  end.
Proof.
  cbn [attempts]. destruct (operation w) as [[e|v] w1]; [|reflexivity].
  destruct (negb (recoverable (handleError e context))
            || Nat.eqb attempt maxRetries)%bool; [reflexivity|].
  unfold bind, pause, sleep, modify, ret.
  destruct (Nat.ltb attempt maxRetries); reflexivity.
Qed.

(** An [Error] that carries a message only is retried while an attempt is
    left, whatever the message says. *)
Lemma error_with_message_is_retried (fuel attempt : nat)
    (lastError : option AppError) (retryCount : nat) (w w1 : World)
    (msg : string) :
  (attempt < maxRetries)%nat ->
  operation w = (inl (JsError msg None), w1) ->
  attempts operation maxRetries retryDelay context (S fuel) attempt lastError
    retryCount w
  = attempts operation maxRetries retryDelay context fuel (S attempt)
      (Some (handleError (JsError msg None) context)) attempt
      (pause maxRetries retryDelay attempt w1).
Proof.
  intros Hlt Hop. rewrite attempts_step, Hop, handleError_recoverable.
  cbn [negb orb]. destruct (Nat.eqb attempt maxRetries) eqn:E; [|reflexivity].
  apply Nat.eqb_eq in E. lia.
Qed.

(** An error that [handleError] marks as not recoverable ends the loop at
    once: the operation is not run again. *)
Lemma not_recoverable_is_not_retried (fuel attempt : nat)
    (lastError : option AppError) (retryCount : nat) (w w1 : World)
    (e : JsThrown) :
  operation w = (inl e, w1) ->
  recoverable (handleError e context) = false ->
  attempts operation maxRetries retryDelay context (S fuel) attempt lastError
    retryCount w
  = (inr (Broken (Some (handleError e context)) attempt), w1).
Proof.
  intros Hop Hrec. rewrite attempts_step, Hop, Hrec. reflexivity.
Qed.

(** The loop never throws, and what it returns was returned by a run of
    the operation. *)
Lemma attempts_total (fuel attempt : nat) (lastError : option AppError)
    (retryCount : nat) (w : World) :
  exists (exit : LoopExit T) (w' : World),
    attempts operation maxRetries retryDelay context fuel attempt lastError
      retryCount w = (inr exit, w') /\
    forall (result : T) (n : nat),
      exit = Returned result n ->
      exists w0 : World, operation w0 = (inr result, w').
Proof.
  revert attempt lastError retryCount w.
  induction fuel as [|fuel IH]; intros attempt lastError retryCount w.
  - eexists _, _. split; [reflexivity|]. discriminate.
  - rewrite attempts_step.
    destruct (operation w) as [[e|v] w1] eqn:Hop.
    + destruct (negb (recoverable (handleError e context))
                || Nat.eqb attempt maxRetries)%bool.
      * eexists _, _. split; [reflexivity|]. discriminate.
      * apply IH.
    + eexists _, _. split; [reflexivity|].
      intros result n [= <- _]. now exists w.
Qed.

Lemma withGracefulDegradation_total (w : World) :
  exists (r : GracefulResult T F) (w' : World),
    withGracefulDegradation operation maxRetries retryDelay fallbackValue
      context w = (inr r, w') /\
    (forall (data : T) (n : nat),
        r = Succeeded data n ->
        exists w0 : World, operation w0 = (inr data, w')) /\
    (forall (e : option AppError) (n : nat),
        r = Failed e n -> fallbackValue = None) /\
    (forall (data : F) (e : option AppError) (n : nat),
        r = FellBack data e n -> fallbackValue = Some data).
Proof.
  unfold withGracefulDegradation, bind.
  destruct (attempts_total (S maxRetries) 0 None 0 w) as (exit & w' & -> & Hret).
  destruct exit as [result n | lastError n].
  - eexists _, _. split; [reflexivity|]. repeat split; try discriminate.
    intros data m [= <- <-]. now apply (Hret result n).
  - destruct fallbackValue as [v|]; eexists _, _;
      (split; [reflexivity|]); repeat split; try discriminate.
    intros data e m [= <- _ _]. reflexivity.
Qed.

End RetryFacts.

(** ** The fetch path *)

Section FetchFacts.
Variable isValidUrl : string -> bool.

Lemma fetchOnce_validated (url : string) (timeout : Z) (valid : JsValue -> bool)
    (w w' : World) (data : JsValue) :
  fetchOnce url timeout (Some valid) w = (inr data, w') -> valid data = true.
Proof.
  unfold fetchOnce, bind, Date_now, fetch.
  destruct (net w) as [|step later]; cbn.
  - destruct (timeout <=? clock w - clock w); cbn; discriminate.
  - destruct (timeout <=? clock w + took step - clock w); cbn; [discriminate|].
    destruct (outcome step) as [e | status statusText [e|body]]; cbn;
      try discriminate.
    + destruct (response_ok status); cbn; discriminate.
    + destruct (response_ok status); cbn; [|discriminate].
      destruct (valid body) eqn:Hv; cbn; [|discriminate].
      intros [= <- _]. exact Hv.
Qed.

(** The operation that runs through the breaker never throws: when every
    attempt has failed, the fallback value is an array, the empty one when
    the cache has nothing fresh, and is returned. *)
Lemma fetchThroughBreaker_never_throws (w : World) :
  exists (products : list Product) (w' : World),
    fetchThroughBreaker isValidUrl w = (inr products, w').
Proof.
  unfold fetchThroughBreaker, bind.
  destruct (getCachedProducts w) as [[e|cached] w1] eqn:Hc.
  { unfold getCachedProducts in Hc.
    destruct (cachedProducts (api w));
      [destruct (clock w - cacheTimestamp (api w) <? CACHE_DURATION)|];
      discriminate. }
  unfold safeFetch.
  destruct (withGracefulDegradation_total
              (fetchOnce (BASE_URL ++ "/products") TIMEOUT_MS (Some validateResponse))
              MAX_RETRIES RETRY_DELAY_MS (Some cached) "Fetch products" w1)
    as (r & w2 & -> & Hsucc & Hfail & _).
  destruct r as [data n | data err n | err n].
  - destruct (Hsucc data n eq_refl) as (w0 & Hop).
    apply fetchOnce_validated in Hop.
    destruct data; try discriminate. cbn.
    eexists _, _. reflexivity.
  - cbn. eexists _, _. reflexivity.
  - specialize (Hfail err n eq_refl). discriminate.
Qed.

(** So a closed breaker stays closed, and [fetchProducts] resolves. *)
Lemma fetchProducts_never_rejects_while_closed (w : World) :
  state (circuitBreaker (api w)) = closed ->
  exists (products : list Product) (w' : World),
    fetchProducts isValidUrl w = (inr products, w') /\
    state (circuitBreaker (api w')) = closed.
Proof.
  intros Hclosed. unfold fetchProducts, execute, guard. rewrite Hclosed.
  destruct (fetchThroughBreaker_never_throws w) as (products & w1 & ->).
  rewrite Hclosed. eexists _, _. split; [reflexivity|]. cbn. exact Hclosed.
Qed.

(** With the breaker closed and nothing fresh in the cache, a call in which
    no attempt succeeds resolves with the empty list. *)
Lemma fetchProducts_resolves_empty_without_success (w : World) :
  state (circuitBreaker (api w)) = closed ->
  fst (getCachedProducts w) = inr [] ->
  (forall (data : JsValue) (n : nat),
      fst (safeFetch (BASE_URL ++ "/products") TIMEOUT_MS (Some validateResponse)
             MAX_RETRIES RETRY_DELAY_MS (Some (@nil Product)) "Fetch products" w)
      <> inr (Succeeded data n)) ->
  fst (fetchProducts isValidUrl w) = inr [].
Proof.
  intros Hclosed Hcache Hfail.
  assert (Hc : getCachedProducts w = (inr [], w)).
  { unfold getCachedProducts in *.
    destruct (cachedProducts (api w));
      [destruct (clock w - cacheTimestamp (api w) <? CACHE_DURATION)|];
      cbn in Hcache; congruence. }
  unfold fetchProducts, execute, guard. rewrite Hclosed.
  unfold fetchThroughBreaker, bind. rewrite Hc.
  unfold safeFetch in *.
  destruct (withGracefulDegradation_total
              (fetchOnce (BASE_URL ++ "/products") TIMEOUT_MS (Some validateResponse))
              MAX_RETRIES RETRY_DELAY_MS (Some (@nil Product)) "Fetch products" w)
    as (r & w2 & Hr & _ & Hnone & Hsome).
  rewrite Hr in *. cbn [fst] in Hfail.
  destruct r as [data n | data err n | err n].
  - exfalso. now apply (Hfail data n).
  - specialize (Hsome data err n eq_refl). injection Hsome as <-.
    rewrite Hclosed. reflexivity.
  - specialize (Hnone err n eq_refl). discriminate.
Qed.

End FetchFacts.

(** C1: the code at a failing input.  The device is offline, nothing is
    cached, the breaker is closed.  All four attempts of [fetchProducts]
    fail with an error that [handleError] classifies as a network error, and
    the call resolves with the empty list: the fallback value handed to
    [safeFetch] is the empty array that [getCachedProducts] gives for an
    absent entry, and [fetchThroughBreaker] takes it for cached data. *)
Theorem fetchProducts_resolves_empty_after_four_failures :
  fst (getCachedProducts fresh) = inr [] /\
  state (circuitBreaker (api fresh)) = closed /\
  type (handleError offline "Fetch products") = network /\
  fst (fetchProducts https_only fresh) = inr [] /\
  fetches (trace (snd (fetchProducts https_only fresh))) = 4%nat /\
  state (circuitBreaker (api (snd (fetchProducts https_only fresh)))) = closed.
Proof. repeat split; reflexivity. Qed.

(** C2: the code at a failing input.  The server answers 404 "Not Found".
    [isRecoverableError] calls the error permanent, but the retry loop asks
    [handleError], which calls it recoverable: the request is made four
    times, with the three back-off delays in between. *)
Theorem not_found_is_retried :
  isRecoverableError (JsError "HTTP 404: Not Found" None) = false /\
  recoverable (handleError (JsError "HTTP 404: Not Found" None) "Fetch products")
  = true /\
  fst (safeFetch (F := list Product) (BASE_URL ++ "/products") TIMEOUT_MS
         (Some validateResponse) MAX_RETRIES RETRY_DELAY_MS None "Fetch products"
         four_not_found)
  = inr (Failed
           (Some (createAppError "HTTP 404: Not Found" unknown None true)) 3) /\
  trace (snd (safeFetch (F := list Product) (BASE_URL ++ "/products") TIMEOUT_MS
                (Some validateResponse) MAX_RETRIES RETRY_DELAY_MS None
                "Fetch products" four_not_found))
  = [EvFetch "https://fakestoreapi.com/products"; EvSleep 4000;
     EvFetch "https://fakestoreapi.com/products"; EvSleep 2000;
     EvFetch "https://fakestoreapi.com/products"; EvSleep 1000;
     EvFetch "https://fakestoreapi.com/products"].
Proof. repeat split; reflexivity. Qed.

(** ** The store *)

Import StorageService AppContext.

Lemma reads_only_refl (w : World) : reads_only w w.
Proof. repeat split; auto. now exists []. Qed.

Lemma reads_only_trans (w1 w2 w3 : World) :
  reads_only w1 w2 -> reads_only w2 w3 -> reads_only w1 w3.
Proof.
  intros (Hd1 & Hf1 & evs1 & Ht1 & Hw1) (Hd2 & Hf2 & evs2 & Ht2 & Hw2).
  repeat split.
  - congruence.
  - auto.
  - exists (evs2 ++ evs1)%list. split.
    + rewrite Ht2, Ht1. now rewrite app_assoc.
    + rewrite filter_app, Hw1, Hw2. reflexivity.
Qed.

Lemma reads_only_pause (maxRetries : nat) (retryDelay : Z) (attempt : nat) (w : World) :
  reads_only w (pause maxRetries retryDelay attempt w).
Proof.
  unfold pause. destruct (Nat.ltb attempt maxRetries); [|apply reads_only_refl].
  repeat split; auto. eexists [_]. split; reflexivity.
Qed.

Lemma next_fault_getItem (key : string) (w : World) :
  exists (f : option JsThrown) (w' : World),
    next_fault (log (EvGetItem key) w) = (f, w') /\
    reads_only w w' /\
    (faults w = [] -> f = None).
Proof.
  unfold next_fault. cbn [faults log].
  destruct (faults w) as [|f later] eqn:Hf.
  - eexists _, _. split; [reflexivity|]. split; [|reflexivity].
    repeat split; auto. eexists [_]. split; reflexivity.
  - eexists _, _. split; [reflexivity|]. split; [|discriminate].
    repeat split; [congruence|]. eexists [_]. split; reflexivity.
Qed.

(** [safeStorageOperation]: the operation is run once, and once more when
    the first run throws an error that [handleError] calls recoverable; a
    second throw, or one that is not recoverable, gives the fallback
    value. *)
Lemma safeStorageOperation_cases {T} (operation : M T) (fallbackValue : option T)
    (context : string) (w : World) :
  safeStorageOperation operation fallbackValue context w =
  match operation w with
  | (inr v, w1) => (inr (Some v), w1)
  | (inl e, w1) =>
      if recoverable (handleError e context) then
        match operation (pause 1 1000 0 w1) with
        | (inr v, w2) => (inr (Some v), w2)
        | (inl _, w2) => (inr fallbackValue, w2)
        end
      else (inr fallbackValue, w1)
  end.
Proof.
  unfold safeStorageOperation, withGracefulDegradation, bind.
  rewrite attempts_step.
  destruct (operation w) as [[e|v] w1]; [|reflexivity].
  destruct (recoverable (handleError e context)); cbn [negb orb Nat.eqb].
  - rewrite attempts_step.
    destruct (operation (pause 1 1000 0 w1)) as [[e2|v2] w2]; [|reflexivity].
    rewrite orb_true_r. destruct fallbackValue; reflexivity.
  - destruct fallbackValue; reflexivity.
Qed.

Lemma readFavorites_spec (w : World) :
  readFavorites w =
  match next_fault (log (EvGetItem FAVORITES_KEY) w) with
  | (Some e, w') => (inl e, w')
  | (None, w') => (stored_favorites (disk w FAVORITES_KEY), w')
  end.
Proof.
  unfold readFavorites, bind, AsyncStorage_getItem.
  destruct (next_fault_getItem FAVORITES_KEY w) as (f & w' & -> & (Hd & _) & _).
  destruct f as [e|]; [reflexivity|].
  rewrite Hd. unfold stored_favorites.
  destruct (disk w FAVORITES_KEY) as [[s|v]|]; cbn.
  - destruct (JsString.truthy s); reflexivity.
  - destruct v; reflexivity.
  - reflexivity.
Qed.

(** [getFavorites] never throws and never writes; it gives the favourites
    that the store holds, or the empty list; and the favourites that the
    store holds when the store does not fault. *)
Lemma getFavorites_spec (w : World) :
  exists (ids : list JsNumber) (w' : World),
    getFavorites w = (inr ids, w') /\
    reads_only w w' /\
    (ids = favorites_of (disk w FAVORITES_KEY) \/ ids = []) /\
    (faults w = [] -> ids = favorites_of (disk w FAVORITES_KEY)).
Proof.
  unfold getFavorites, bind. rewrite safeStorageOperation_cases.
  rewrite readFavorites_spec.
  destruct (next_fault_getItem FAVORITES_KEY w) as (f & w1 & -> & Hr1 & Hf1).
  pose proof (reads_only_pause 1 1000 0 w1) as Hp.
  pose proof (reads_only_trans _ _ _ Hr1 Hp) as Hr2.
  assert (Hsecond :
    exists (ids : list JsNumber) (w' : World),
      (let (r, w2) := readFavorites (pause 1 1000 0 w1) in
       match r with
       | inr v => (@inr JsThrown _ (Some v), w2)
       | inl _ => (inr (Some []), w2)
       end) = (inr (Some ids), w') /\
      reads_only w w' /\
      (ids = favorites_of (disk w FAVORITES_KEY) \/ ids = [])).
  { rewrite readFavorites_spec.
    destruct (next_fault_getItem FAVORITES_KEY (pause 1 1000 0 w1))
      as (f2 & w2 & -> & Hr3 & _).
    pose proof (reads_only_trans _ _ _ Hr2 Hr3) as Hr4.
    destruct Hr2 as (Hd2 & _). rewrite Hd2.
    destruct f2 as [e2|].
    - eexists _, _. split; [reflexivity|]. split; [assumption|]. now right.
    - unfold favorites_of.
      destruct (stored_favorites (disk w FAVORITES_KEY)) as [e3|ids];
        eexists _, _; (split; [reflexivity|]); (split; [assumption|]); now left. }
  destruct f as [e|].
  - (* the first read faults *)
    destruct (recoverable (handleError e "Get favorites")).
    + destruct Hsecond as (ids & w' & Heq & Hr & Hids).
      destruct (readFavorites (pause 1 1000 0 w1)) as [[e2|v2] w2];
        injection Heq as <- <-;
        eexists _, _; (split; [reflexivity|]); (split; [assumption|]);
        (split; [assumption|]); intros Hnf; specialize (Hf1 Hnf); discriminate.
    + eexists _, _. split; [reflexivity|]. split; [assumption|].
      split; [now right|]. intros Hnf; specialize (Hf1 Hnf); discriminate.
  - unfold favorites_of.
    destruct (stored_favorites (disk w FAVORITES_KEY)) as [e3|ids] eqn:Hs.
    + (* the stored value is refused: once more, with the same end *)
      assert (Hrec : recoverable (handleError e3 "Get favorites") = true).
      { unfold stored_favorites in Hs.
        destruct (disk w FAVORITES_KEY) as [[s|v]|]; try discriminate.
        - destruct (JsString.truthy s); [|discriminate]. now injection Hs as <-.
        - destruct v; try discriminate; now injection Hs as <-. }
      rewrite Hrec.
      destruct Hsecond as (ids & w' & Heq & Hr & Hids).
      assert (Hids' : ids = []).
      { destruct Hids as [->| ->]; [|reflexivity].
        unfold favorites_of. now rewrite Hs. }
      destruct (readFavorites (pause 1 1000 0 w1)) as [[e2|v2] w2];
        injection Heq as <- <-;
        eexists _, _; (split; [reflexivity|]); (split; [assumption|]);
        (split; [now right|]); intros _; congruence.
    + eexists _, _. split; [reflexivity|]. split; [assumption|].
      split; [now left|]. reflexivity.
Qed.

(** *** Equality of numbers *)

Lemma Qc_eq_bool_refl (q : Qc) : Qc_eq_bool q q = true.
Proof. unfold Qc_eq_bool. destruct (Qc_eq_dec q q); congruence. Qed.

Lemma sameValueZero_eq (x y : JsNumber) : JsNum.sameValueZero x y = true <-> x = y.
Proof.
  destruct x as [|s|a], y as [|t|b]; cbn; split; try discriminate; try reflexivity.
  - intros H. apply Bool.eqb_prop in H. congruence.
  - intros [= ->]. apply Bool.eqb_reflx.
  - intros H. apply Qc_eq_bool_correct in H. congruence.
  - intros [= ->]. apply Qc_eq_bool_refl.
Qed.

Lemma includes_In (xs : list JsNumber) (x : JsNumber) :
  JsNum.includes xs x = true <-> In x xs.
Proof.
  unfold JsNum.includes. rewrite existsb_exists. split.
  - intros (y & Hin & Heq). apply sameValueZero_eq in Heq. now subst.
  - intros Hin. exists x. split; [assumption|]. now apply sameValueZero_eq.
Qed.

Lemma strict_eq_finite (x y : JsNumber) :
  positive_finite x = true -> (JsNum.strict_eq x y = true <-> x = y).
Proof.
  destruct x as [|s|a]; cbn; try discriminate. intros _.
  destruct y as [|t|b]; cbn; split; try discriminate.
  - intros H. apply Qc_eq_bool_correct in H. congruence.
  - intros [= ->]. apply Qc_eq_bool_refl.
Qed.

Lemma positive_finite_valid (x : JsNumber) :
  positive_finite x = true -> invalid_id x = false.
Proof.
  destruct x as [|s|q]; cbn; try discriminate.
  intros H. apply Qc_ltb_true_lt in H.
  unfold invalid_id, JsNum.le, JsNum.of_Z. cbn.
  change (Q2Qc (inject_Z 0)) with (Q2Qc 0).
  apply orb_false_iff. split.
  - unfold JsNum.Qc_ltb. apply negb_false_iff. apply Qle_bool_iff.
    apply Qlt_le_weak. exact H.
  - destruct (Qc_eq_bool q (Q2Qc 0)) eqn:E; [|reflexivity].
    apply Qc_eq_bool_correct in E. subst q.
    exfalso. exact (Qlt_irrefl _ H).
Qed.

Lemma positive_finite_entry (q : Qc) :
  valid_entry (JNum q) = positive_finite (Fin q).
Proof. reflexivity. Qed.

Lemma numbers_positive (items : list JsValue) :
  Forall (fun x => positive_finite x = true) (numbers (filter valid_entry items)).
Proof.
  induction items as [|item items IH]; [constructor|].
  cbn [filter]. destruct (valid_entry item) eqn:E; [|assumption].
  destruct item; try discriminate. cbn. constructor; assumption.
Qed.

Lemma favorites_of_positive (value : option Stored) :
  Forall (fun x => positive_finite x = true) (favorites_of value).
Proof.
  unfold favorites_of, stored_favorites.
  destruct value as [[s|v]|]; try constructor.
  - destruct (JsString.truthy s); constructor.
  - destruct v; try constructor. apply numbers_positive.
Qed.

Lemma numbers_stringified (ids : list JsNumber) :
  Forall (fun x => positive_finite x = true) ids ->
  numbers (filter valid_entry
             (map (fun x => match x with Fin q => JNum q | _ => JNull end) ids))
  = ids.
Proof.
  induction 1 as [|x ids Hx _ IH]; [reflexivity|].
  destruct x as [|s|q]; try discriminate.
  cbn [map filter]. rewrite positive_finite_entry, Hx.
  unfold numbers in *. cbn [flat_map app]. now rewrite IH.
Qed.

(** Writing a list of positive finite numbers and reading it back gives
    the list. *)
Lemma favorites_of_stringify (ids : list JsNumber) :
  Forall (fun x => positive_finite x = true) ids ->
  favorites_of (Some (JSON_stringify ids)) = ids.
Proof.
  intros H. unfold favorites_of, stored_favorites, JSON_stringify.
  now apply numbers_stringified.
Qed.

(** *** One call on a store that does not fault *)

Lemma setItem_calm (key : string) (value : Stored) (w : World) :
  faults w = [] ->
  AsyncStorage_setItem key value w
  = (inr tt, set_disk (update (disk w) key value) (log (EvSetItem key value) w)).
Proof.
  intros Hf. unfold AsyncStorage_setItem, next_fault. cbn [faults log].
  rewrite Hf. reflexivity.
Qed.

Lemma update_same (d : string -> option Stored) (key : string) (value : Stored) :
  update d key value key = Some value.
Proof. unfold update. now rewrite String.eqb_refl. Qed.

Lemma addFavorite_calm (a : JsNumber) (w : World) :
  faults w = [] ->
  positive_finite a = true ->
  exists w' : World,
    addFavorite a w = (inr tt, w') /\
    faults w' = [] /\
    favorites_of (disk w' FAVORITES_KEY)
    = if JsNum.includes (favorites_of (disk w FAVORITES_KEY)) a
      then favorites_of (disk w FAVORITES_KEY)
      else (favorites_of (disk w FAVORITES_KEY) ++ [a])%list.
Proof.
  intros Hf Ha. unfold addFavorite, bind, modify.
  rewrite (positive_finite_valid a Ha).
  rewrite safeStorageOperation_cases. unfold bind.
  destruct (getFavorites_spec (log (EvAddFavorite a) w))
    as (cur & w1 & -> & (Hd & Hf1 & _) & _ & Hcur).
  cbn [faults log disk] in *. specialize (Hf1 Hf). specialize (Hcur Hf).
  rewrite <- Hcur.
  destruct (JsNum.includes cur a) eqn:Hin.
  - eexists. split; [reflexivity|]. split; [assumption|].
    rewrite Hd. symmetry. exact Hcur.
  - rewrite (setItem_calm _ _ _ Hf1).
    eexists. split; [reflexivity|]. split; [exact Hf1|].
    cbn [disk set_disk]. rewrite update_same.
    apply favorites_of_stringify. apply Forall_app. split.
    + rewrite Hcur. apply favorites_of_positive.
    + constructor; [assumption | constructor].
Qed.

Lemma removeFavorite_calm (r : JsNumber) (w : World) :
  faults w = [] ->
  positive_finite r = true ->
  exists w' : World,
    removeFavorite r w = (inr tt, w') /\
    faults w' = [] /\
    favorites_of (disk w' FAVORITES_KEY)
    = filter (fun id => negb (JsNum.strict_eq id r))
        (favorites_of (disk w FAVORITES_KEY)).
Proof.
  intros Hf Hr. unfold removeFavorite, bind, modify.
  rewrite (positive_finite_valid r Hr).
  rewrite safeStorageOperation_cases. unfold bind.
  destruct (getFavorites_spec (log (EvRemoveFavorite r) w))
    as (cur & w1 & -> & (Hd & Hf1 & _) & _ & Hcur).
  cbn [faults log disk] in *. specialize (Hf1 Hf). specialize (Hcur Hf).
  rewrite <- Hcur.
  rewrite (setItem_calm _ _ _ Hf1).
  eexists. split; [reflexivity|]. split; [exact Hf1|].
  cbn [disk set_disk]. rewrite update_same.
  apply favorites_of_stringify.
  apply Forall_forall. intros x Hx. apply filter_In in Hx as (Hx & _).
  rewrite Hcur in Hx.
  pose proof (favorites_of_positive (disk w FAVORITES_KEY)) as Hp.
  rewrite Forall_forall in Hp. now apply Hp.
Qed.

(** *** The two loops of [saveFavorites] *)

Lemma add_loop_calm (adds : list JsNumber) (w : World) :
  faults w = [] ->
  Forall (fun x => positive_finite x = true) adds ->
  exists w' : World,
    for_of adds addFavorite w = (inr tt, w') /\
    faults w' = [] /\
    favorites_of (disk w' FAVORITES_KEY)
    = add_all adds (favorites_of (disk w FAVORITES_KEY)).
Proof.
  intros Hf Hadds. revert w Hf.
  induction Hadds as [|a adds Ha _ IH]; intros w Hf.
  - exists w. repeat split; assumption.
  - cbn [for_of]. unfold bind.
    destruct (addFavorite_calm a w Hf Ha) as (w1 & -> & Hf1 & Hcur1).
    destruct (IH w1 Hf1) as (w2 & -> & Hf2 & Hcur2).
    exists w2. repeat split; [assumption|].
    rewrite Hcur2, Hcur1. reflexivity.
Qed.

Lemma remove_loop_calm (rems : list JsNumber) (w : World) :
  faults w = [] ->
  Forall (fun x => positive_finite x = true) rems ->
  exists w' : World,
    for_of rems removeFavorite w = (inr tt, w') /\
    faults w' = [] /\
    favorites_of (disk w' FAVORITES_KEY)
    = remove_all rems (favorites_of (disk w FAVORITES_KEY)).
Proof.
  intros Hf Hrems. revert w Hf.
  induction Hrems as [|r rems Hr _ IH]; intros w Hf.
  - exists w. repeat split; assumption.
  - cbn [for_of]. unfold bind.
    destruct (removeFavorite_calm r w Hf Hr) as (w1 & -> & Hf1 & Hcur1).
    destruct (IH w1 Hf1) as (w2 & -> & Hf2 & Hcur2).
    exists w2. repeat split; [assumption|].
    rewrite Hcur2, Hcur1. reflexivity.
Qed.

(** *** What the loops leave in the store *)

Lemma In_add_all (adds cur : list JsNumber) (x : JsNumber) :
  In x (add_all adds cur) <-> In x cur \/ In x adds.
Proof.
  unfold add_all. revert cur.
  induction adds as [|a adds IH]; intros cur; cbn [fold_left].
  - cbn. tauto.
  - rewrite IH. destruct (JsNum.includes cur a) eqn:Hin.
    + apply includes_In in Hin. cbn. split; [tauto|].
      intros [H|[H|H]]; auto. subst. auto.
    + rewrite in_app_iff. cbn. tauto.
Qed.

Lemma In_remove_all (rems cur : list JsNumber) (x : JsNumber) :
  positive_finite x = true ->
  (In x (remove_all rems cur) <-> In x cur /\ ~ In x rems).
Proof.
  intros Hx. unfold remove_all. revert cur.
  induction rems as [|r rems IH]; intros cur; cbn [fold_left].
  - cbn. tauto.
  - rewrite IH, filter_In. cbn.
    pose proof (strict_eq_finite x r Hx) as Heq.
    destruct (JsNum.strict_eq x r) eqn:E; cbn.
    + assert (x = r) by now apply Heq. subst. split; [intros ((_ & H) & _); discriminate|].
      intros (_ & H). exfalso. apply H. now left.
    + assert (x <> r) by (intros ->; destruct Heq as (_ & Heq); specialize (Heq eq_refl); discriminate).
      split.
      * intros ((Hc & _) & Hn). split; [assumption|]. intros [H'|H']; [congruence|contradiction].
      * intros (Hc & Hn). repeat split; auto.
Qed.

Lemma remove_all_incl (rems cur : list JsNumber) (x : JsNumber) :
  In x (remove_all rems cur) -> In x cur.
Proof.
  unfold remove_all. revert cur.
  induction rems as [|r rems IH]; intros cur; cbn [fold_left]; [auto|].
  intros H. apply IH in H. now apply filter_In in H.
Qed.


(** After the two loops the store holds the favourites of the memory,
    as a set. *)
Lemma reconciled (favorites cur : list JsNumber) (x : JsNumber) :
  Forall (fun x => positive_finite x = true) favorites ->
  Forall (fun x => positive_finite x = true) cur ->
  (In x (remove_all (favoritesToRemove favorites cur)
           (add_all (favoritesToAdd favorites cur) cur))
   <-> In x favorites).
Proof.
  intros Hfav Hcur. rewrite Forall_forall in Hfav, Hcur.
  assert (Hadd : In x (favoritesToAdd favorites cur)
                 <-> In x favorites /\ ~ In x cur).
  { unfold favoritesToAdd. rewrite filter_In, negb_true_iff.
    rewrite <- (includes_In cur x).
    destruct (JsNum.includes cur x); intuition congruence. }
  assert (Hrem : In x (favoritesToRemove favorites cur)
                 <-> In x cur /\ ~ In x favorites).
  { unfold favoritesToRemove. rewrite filter_In, negb_true_iff.
    rewrite <- (includes_In favorites x).
    destruct (JsNum.includes favorites x); intuition congruence. }
  assert (Hdec : In x cur \/ ~ In x cur).
  { rewrite <- (includes_In cur x). destruct (JsNum.includes cur x); auto. }
  split.
  - intros H.
    assert (Hin : In x cur \/ In x favorites).
    { apply remove_all_incl in H. apply In_add_all in H.
      rewrite Hadd in H. tauto. }
    assert (Hx : positive_finite x = true) by (destruct Hin; auto).
    apply (In_remove_all _ _ _ Hx) in H as (H1 & H2).
    rewrite In_add_all, Hadd in H1. rewrite Hrem in H2.
    assert (Hdf : In x favorites \/ ~ In x favorites).
    { rewrite <- (includes_In favorites x).
      destruct (JsNum.includes favorites x); auto. }
    tauto.
  - intros H. apply In_remove_all; [auto|].
    rewrite In_add_all, Hadd, Hrem. tauto.
Qed.

(** *** A run of [saveFavorites] *)

Lemma saveFavorites_calm (favorites : list JsNumber) (productsLength : nat)
    (w : World) :
  faults w = [] ->
  Forall (fun x => positive_finite x = true) favorites ->
  exists w' : World,
    saveFavorites favorites productsLength w = (inr tt, w') /\
    faults w' = [] /\
    (has_loaded favorites productsLength = true ->
     forall x : JsNumber,
       In x (favorites_of (disk w' FAVORITES_KEY)) <-> In x favorites).
Proof.
  intros Hf Hfav. unfold saveFavorites, try_catch.
  fold (has_loaded favorites productsLength).
  destruct (has_loaded favorites productsLength).
  - unfold bind.
    destruct (getFavorites_spec w) as (cur & w1 & -> & (Hd & Hf1 & _) & _ & Hcur).
    specialize (Hf1 Hf). specialize (Hcur Hf).
    assert (Hcurp : Forall (fun x => positive_finite x = true) cur)
      by (rewrite Hcur; apply favorites_of_positive).
    assert (Hadds : Forall (fun x => positive_finite x = true)
                      (favoritesToAdd favorites cur)).
    { apply Forall_forall. intros x Hx. apply filter_In in Hx as (Hx & _).
      rewrite Forall_forall in Hfav. now apply Hfav. }
    assert (Hrems : Forall (fun x => positive_finite x = true)
                      (favoritesToRemove favorites cur)).
    { apply Forall_forall. intros x Hx. apply filter_In in Hx as (Hx & _).
      rewrite Forall_forall in Hcurp. now apply Hcurp. }
    destruct (add_loop_calm _ w1 Hf1 Hadds) as (w2 & -> & Hf2 & Hs2).
    destruct (remove_loop_calm _ w2 Hf2 Hrems) as (w3 & -> & Hf3 & Hs3).
    exists w3. split; [reflexivity|]. split; [assumption|].
    intros _ x. rewrite Hs3, Hs2, Hd, <- Hcur.
    now apply reconciled.
  - exists w. split; [reflexivity|]. split; [assumption|]. discriminate.
Qed.


(** ** Reading the favourites *)

Lemma In_numbers (items : list JsValue) (x : JsNumber) :
  In x (numbers (filter valid_entry items)) <->
  exists q : Qc, x = Fin q /\ In (JNum q) items /\ (Q2Qc 0 < q)%Qc.
Proof.
  induction items as [|item items IH].
  - cbn. split; [contradiction | intros (q & _ & [] & _)].
  - cbn [filter]. destruct (valid_entry item) eqn:E.
    + destruct item as [| b | q | s | l | o]; try discriminate.
      unfold numbers in *. cbn [flat_map app In]. rewrite IH.
      rewrite positive_finite_entry in E. cbn in E. apply Qc_ltb_true_lt in E.
      split.
      * intros [<- | (q' & -> & Hin & Hq)].
        -- exists q. auto.
        -- exists q'. auto.
      * intros (q' & -> & [[= ->] | Hin] & Hq); [now left|].
        right. exists q'. auto.
    + rewrite IH. split.
      * intros (q & -> & Hin & Hq). exists q. cbn. auto.
      * intros (q & -> & [-> | Hin] & Hq).
        -- rewrite positive_finite_entry in E. cbn in E.
           unfold JsNum.Qc_ltb in E. apply negb_false_iff, Qle_bool_iff in E.
           exfalso. exact (Qlt_not_le _ _ Hq E).
        -- exists q. auto.
Qed.

(** C8, as stated, fails on the numbers that are not whole: the stored text
    [[1.5, 2]] is read as the favourites 1.5 and 2. *)
Lemma fractional_favorite_is_kept :
  fst (getFavorites
         (with_favorites (Json (JArr [JNum three_halves; JNum (Q2Qc 2)]))))
  = inr [Fin three_halves; Fin (Q2Qc 2)] /\
  positive_integer (Fin three_halves) = false.
Proof. split; reflexivity. Qed.

(** C8, amended.  [getFavorites] never throws, whatever the store holds and
    whatever faults it throws.  When the stored value is absent, empty, not
    a JSON text or not an array, the result is the empty list.  When it is
    an array, the result is the list of its elements that are numbers above
    zero, whole or not, in their order (or the empty list, when the store
    faults); everything else is filtered out. *)
Theorem getFavorites_never_throws_and_filters (w : World) :
  exists (ids : list JsNumber) (w' : World),
    getFavorites w = (inr ids, w') /\
    match disk w FAVORITES_KEY with
    | Some (Json (JArr items)) =>
        (ids = numbers (filter valid_entry items) \/ ids = []) /\
        (faults w = [] -> ids = numbers (filter valid_entry items)) /\
        (forall x : JsNumber,
            In x (numbers (filter valid_entry items)) <->
            exists q : Qc, x = Fin q /\ In (JNum q) items /\ (Q2Qc 0 < q)%Qc)
    | _ => ids = []
    end.
Proof.
  destruct (getFavorites_spec w) as (ids & w' & Hget & _ & Hids & Hcalm).
  exists ids, w'. split; [assumption|].
  unfold favorites_of, stored_favorites in *.
  destruct (disk w FAVORITES_KEY) as [[s|v]|].
  - destruct (JsString.truthy s); tauto.
  - destruct v; try tauto.
    split; [assumption|]. split; [assumption|]. apply In_numbers.
  - tauto.
Qed.

(** The text [not-json], which [JSON.parse] rejects. *)
Example not_json_reads_as_empty :
  fst (getFavorites (with_favorites (Text "not-json"))) = inr [].
Proof. reflexivity. Qed.

(** ** Writing to the store *)

Lemma safeStorageOperation_total {T} (operation : M T) (fallbackValue : option T)
    (context : string) (w : World) :
  exists (data : option T) (w' : World),
    safeStorageOperation operation fallbackValue context w = (inr data, w').
Proof.
  rewrite safeStorageOperation_cases.
  destruct (operation w) as [[e|v] w1]; [|eexists _, _; reflexivity].
  destruct (recoverable (handleError e context)); [|eexists _, _; reflexivity].
  destruct (operation (pause 1 1000 0 w1)) as [[e2|v2] w2];
    eexists _, _; reflexivity.
Qed.

(** C10.  Whatever the store holds and whatever faults it throws:
    [addFavorite] and [removeFavorite] reject when the identifier is [NaN]
    or not above zero, before any access to the store, and resolve
    otherwise; [setTheme] rejects when the theme is neither ['light'] nor
    ['dark'], leaving the world as it was, and resolves otherwise.  Behind
    the three stands [safeStorageOperation] without a fallback value: when
    the operation throws an error and, run once more after the wait, throws
    again, the call resolves with [undefined]. *)
Theorem storage_mutations_reject_only_invalid_input (w : World) :
  (forall productId : JsNumber,
      if invalid_id productId
      then addFavorite productId w
           = (inl (JsError "Invalid data received. Please refresh and try again." None),
              log (EvAddFavorite productId) w)
      else exists w' : World, addFavorite productId w = (inr tt, w')) /\
  (forall productId : JsNumber,
      if invalid_id productId
      then removeFavorite productId w
           = (inl (JsError "Invalid data received. Please refresh and try again." None),
              log (EvRemoveFavorite productId) w)
      else exists w' : World, removeFavorite productId w = (inr tt, w')) /\
  (forall theme : string,
      if invalid_theme theme
      then setTheme theme w
           = (inl (JsError "Invalid data received. Please refresh and try again." None), w)
      else exists w' : World, setTheme theme w = (inr tt, w')) /\
  (forall (T : Type) (operation : M T) (context msg : string) (e2 : JsThrown)
          (w1 w2 : World),
      operation w = (inl (JsError msg None), w1) ->
      operation (pause 1 1000 0 w1) = (inl e2, w2) ->
      safeStorageOperation operation None context w = (inr None, w2)).
Proof.
  split; [|split; [|split]].
  - intros productId. unfold addFavorite, bind, modify.
    destruct (invalid_id productId); [reflexivity|].
    match goal with
    | |- context [safeStorageOperation ?op ?fb ?ctx ?w0] =>
        destruct (safeStorageOperation_total op fb ctx w0) as (d & w' & ->)
    end.
    now exists w'.
  - intros productId. unfold removeFavorite, bind, modify.
    destruct (invalid_id productId); [reflexivity|].
    match goal with
    | |- context [safeStorageOperation ?op ?fb ?ctx ?w0] =>
        destruct (safeStorageOperation_total op fb ctx w0) as (d & w' & ->)
    end.
    now exists w'.
  - intros theme. unfold setTheme.
    destruct (invalid_theme theme); [reflexivity|].
    unfold bind.
    match goal with
    | |- context [safeStorageOperation ?op ?fb ?ctx ?w0] =>
        destruct (safeStorageOperation_total op fb ctx w0) as (d & w' & ->)
    end.
    now exists w'.
  - intros T operation context msg e2 w1 w2 H1 H2.
    rewrite safeStorageOperation_cases, H1.
    rewrite handleError_recoverable, H2. reflexivity.
Qed.

(** A store that faults at every access: [addFavorite] and [setTheme]
    resolve, and the store is as it was. *)
Example mutations_resolve_on_faulty_store :
  fst (addFavorite (JsNum.of_Z 7) faulty) = inr tt /\
  disk (snd (addFavorite (JsNum.of_Z 7) faulty)) FAVORITES_KEY = None /\
  fst (setTheme "dark" faulty) = inr tt /\
  trace (snd (setTheme "dark" faulty))
  = [EvSetItem THEME_KEY (Text "dark"); EvSleep 1000;
     EvSetItem THEME_KEY (Text "dark")] /\
  disk (snd (setTheme "dark" faulty)) THEME_KEY = None.
Proof. repeat split; reflexivity. Qed.

(** ** The reconciliation of the favourites *)




(** The two runs on the store that holds [[2, 3]], for the favourites 1
    and 2: the first adds 1 and removes 3, the second only reads. *)
Example two_runs :
  map is_write
    (trace (snd (saveFavorites [JsNum.of_Z 1; JsNum.of_Z 2] 0 stored_two_three)))
  = [true; false; true; true; false; true; false] /\
  trace (snd (saveFavorites [JsNum.of_Z 1; JsNum.of_Z 2] 0
                (snd (saveFavorites [JsNum.of_Z 1; JsNum.of_Z 2] 0 stored_two_three))))
  = (EvGetItem FAVORITES_KEY
     :: trace (snd (saveFavorites [JsNum.of_Z 1; JsNum.of_Z 2] 0 stored_two_three)))%list.
Proof. split; reflexivity. Qed.

(* ================================================================= *)
(* ================================================================= *)
(** * Further properties *)

Import MoreVocabulary.

(** ** The retry loop of [withGracefulDegradation] *)

Section RetryBounds.
Context {T F : Type}.
Variable operation : M T.
Variable maxRetries : nat.
Variable retryDelay : Z.
Variable fallbackValue : option F.
Variable context : string.

Lemma attempts_runs (fuel attempt : nat) (lastError : option AppError)
    (retryCount : nat) (w : World) :
  (fuel + attempt = S maxRetries)%nat ->
  (1 <= fuel)%nat ->
  exists (exit : LoopExit T) (w' : World) (n : nat),
    attempts operation maxRetries retryDelay context fuel attempt lastError
      retryCount w = (inr exit, w') /\
    (1 <= n <= fuel)%nat /\
    reached_by operation maxRetries retryDelay attempt n w w' /\
    (exit_index exit + 1 = attempt + n)%nat /\
    match exit with
    | Returned result _ => exists w0 : World, operation w0 = (inr result, w')
    | Broken last _ => last <> None
    end.
Proof.
  revert attempt lastError retryCount w.
  induction fuel as [|fuel IH]; intros attempt lastError retryCount w Hsum Hpos;
    [lia|].
  rewrite attempts_step.
  destruct (operation w) as [[e|v] w1] eqn:Hop.
  - destruct (recoverable (handleError e context)) eqn:Hrec; cbn [negb orb].
    + destruct (Nat.eqb attempt maxRetries) eqn:Heq.
      * exists (Broken (Some (handleError e context)) attempt), w1, 1%nat.
        split; [reflexivity|]. split; [lia|].
        split; [eapply reached_last; eassumption|].
        split; [cbn; lia | discriminate].
      * apply Nat.eqb_neq in Heq.
        destruct (IH (S attempt) (Some (handleError e context)) attempt
                    (pause maxRetries retryDelay attempt w1))
          as (exit & w' & n & Hrun & Hn & Hreach & Hidx & Hexit); [lia | lia |].
        exists exit, w', (S n). split; [assumption|]. split; [lia|].
        split; [eapply reached_next; eassumption|].
        split; [lia | assumption].
    + exists (Broken (Some (handleError e context)) attempt), w1, 1%nat.
      split; [reflexivity|]. split; [lia|].
      split; [eapply reached_last; eassumption|].
      split; [cbn; lia | discriminate].
  - exists (Returned v attempt), w1, 1%nat.
    split; [reflexivity|]. split; [lia|].
    split; [eapply reached_last; eassumption|].
    split; [cbn; lia | now exists w].
Qed.

(** X1.  [withGracefulDegradation] runs the operation at least once and at
    most [maxRetries + 1] times: the world it ends in is reached by [n]
    runs with the waits in between, and the [retryCount] of the result is
    [n - 1]. *)
Theorem withGracefulDegradation_attempts_bounded (w : World) :
  exists (r : GracefulResult T F) (w' : World) (n : nat),
    withGracefulDegradation operation maxRetries retryDelay fallbackValue
      context w = (inr r, w') /\
    (1 <= n <= maxRetries + 1)%nat /\
    reached_by operation maxRetries retryDelay 0 n w w' /\
    (retryCount r + 1 = n)%nat.
Proof.
  unfold withGracefulDegradation, bind.
  destruct (attempts_runs (S maxRetries) 0 None 0 w)
    as (exit & w' & n & -> & Hn & Hreach & Hidx & _); [lia | lia |].
  destruct exit as [result k | lastError k]; cbn in Hidx.
  - eexists _, _, n. split; [reflexivity|]. repeat split; try lia; assumption.
  - destruct fallbackValue; eexists _, _, n;
      (split; [reflexivity|]); repeat split; try lia; assumption.
Qed.

(** X2.  [withGracefulDegradation] never rejects.  The data of a success
    was returned by a run of the operation; a failure carries the
    classified error, with the fallback value as data when one was given
    and without data only when none was. *)
Theorem withGracefulDegradation_never_rejects (w : World) :
  exists (r : GracefulResult T F) (w' : World),
    withGracefulDegradation operation maxRetries retryDelay fallbackValue
      context w = (inr r, w') /\
    match r with
    | Succeeded data _ => exists w0 : World, operation w0 = (inr data, w')
    | FellBack data lastError _ =>
        fallbackValue = Some data /\ lastError <> None
    | Failed lastError _ => fallbackValue = None /\ lastError <> None
    end.
Proof.
  unfold withGracefulDegradation, bind.
  destruct (attempts_runs (S maxRetries) 0 None 0 w)
    as (exit & w' & n & -> & _ & _ & _ & Hexit); [lia | lia |].
  destruct exit as [result k | lastError k].
  - eexists _, _. split; [reflexivity|]. exact Hexit.
  - destruct fallbackValue; eexists _, _; (split; [reflexivity|]); now split.
Qed.

(** X3.  An error that [handleError] marks as not recoverable is not
    retried: the operation is run once, the world is as that run left it,
    and the result reports the error with [retryCount] 0. *)
Theorem not_recoverable_error_runs_once (w w1 : World) (e : JsThrown) :
  operation w = (inl e, w1) ->
  recoverable (handleError e context) = false ->
  withGracefulDegradation operation maxRetries retryDelay fallbackValue context w
  = (inr match fallbackValue with
         | Some v => FellBack v (Some (handleError e context)) 0
         | None => Failed (Some (handleError e context)) 0
         end, w1).
Proof.
  intros Hop Hrec. unfold withGracefulDegradation, bind.
  rewrite (not_recoverable_is_not_retried operation maxRetries retryDelay context
             maxRetries 0 None 0 w w1 e Hop Hrec).
  destruct fallbackValue; reflexivity.
Qed.

(** When every run of the operation throws an [Error] that carries a
    message only and leaves the clock alone, the loop goes through all its
    iterations and waits between them. *)
Lemma attempts_all_fail (fuel attempt : nat) (lastError : option AppError)
    (retryCount : nat) (w : World) :
  (forall w0 : World, exists (msg : string) (w1 : World),
      operation w0 = (inl (JsError msg None), w1) /\ clock w1 = clock w0) ->
  (fuel + attempt = S maxRetries)%nat ->
  (1 <= fuel)%nat ->
  exists (last : option AppError) (w' : World),
    attempts operation maxRetries retryDelay context fuel attempt lastError
      retryCount w = (inr (Broken last maxRetries), w') /\
    clock w' = clock w
               + retryDelay * (2 ^ Z.of_nat maxRetries - 2 ^ Z.of_nat attempt).
Proof.
  intros Hfail. revert attempt lastError retryCount w.
  induction fuel as [|fuel IH]; intros attempt lastError retryCount w Hsum Hpos;
    [lia|].
  destruct (Hfail w) as (msg & w1 & Hop & Hclock).
  destruct (Nat.eq_dec attempt maxRetries) as [-> | Hne].
  - rewrite attempts_step, Hop, handleError_recoverable, Nat.eqb_refl.
    cbn [negb orb]. eexists _, _. split; [reflexivity|]. lia.
  - rewrite (error_with_message_is_retried operation maxRetries retryDelay context
               fuel attempt lastError retryCount w w1 msg); [|lia | assumption].
    destruct (IH (S attempt) (Some (handleError (JsError msg None) context)) attempt
                (pause maxRetries retryDelay attempt w1))
      as (last & w' & Hrun & Hc); [lia | lia |].
    exists last, w'. split; [assumption|].
    rewrite Hc. unfold pause.
    assert (Hlt : Nat.ltb attempt maxRetries = true) by (apply Nat.ltb_lt; lia).
    rewrite Hlt. cbn [clock log set_clock]. rewrite Hclock.
    rewrite Nat2Z.inj_succ, Z.pow_succ_r by lia. lia.
Qed.

(** X4.  When every run of the operation throws an [Error] that carries a
    message only, and leaves the clock alone, [withGracefulDegradation]
    makes all [maxRetries + 1] attempts and waits
    [retryDelay * (2 ^ maxRetries - 1)] in all. *)
Theorem all_attempts_fail_total_wait (w : World) :
  (forall w0 : World, exists (msg : string) (w1 : World),
      operation w0 = (inl (JsError msg None), w1) /\ clock w1 = clock w0) ->
  exists (r : GracefulResult T F) (w' : World),
    withGracefulDegradation operation maxRetries retryDelay fallbackValue
      context w = (inr r, w') /\
    success r = false /\
    retryCount r = maxRetries /\
    clock w' = clock w + retryDelay * (2 ^ Z.of_nat maxRetries - 1).
Proof.
  intros Hfail. unfold withGracefulDegradation, bind.
  destruct (attempts_all_fail (S maxRetries) 0 None 0 w Hfail)
    as (last & w' & -> & Hc); [lia | lia |].
  cbn in Hc.
  destruct fallbackValue; eexists _, _; (split; [reflexivity|]);
    repeat split; assumption.
Qed.

End RetryBounds.

Lemma not_recoverable_error_runs_once_witness :
  withGracefulDegradation (F := unit)
    (@throw unit (JsError "401" (Some (createAppError "401" unknown None false))))
    3 1000 None "Login" fresh
  = (inr (Failed (Some (handleError
                          (JsError "401" (Some (createAppError "401" unknown None false)))
                          "Login")) 0), fresh).
Proof.
  apply (not_recoverable_error_runs_once
           (@throw unit
              (JsError "401" (Some (createAppError "401" unknown None false))))
           3 1000 (@None unit) "Login" fresh fresh
           (JsError "401" (Some (createAppError "401" unknown None false)))).
  - reflexivity.
  - reflexivity.
Defined.

Lemma all_attempts_fail_total_wait_witness :
  exists (r : GracefulResult unit unit) (w' : World),
    withGracefulDegradation (always_throws "Network request failed") 3 1000
      (Some tt) "Fetch" fresh = (inr r, w') /\
    success r = false /\
    retryCount r = 3%nat /\
    clock w' = clock fresh + 1000 * (2 ^ Z.of_nat 3 - 1).
Proof.
  apply (all_attempts_fail_total_wait
           (always_throws (T := unit) "Network request failed") 3 1000 (Some tt)
           "Fetch" fresh).
  intros w0. exists "Network request failed", w0. split; reflexivity.
Defined.

Import MoreSamples ServiceStatus.

(** ** One request of [safeFetch] *)

(** X5.  An attempt of [safeFetch] returns data only when the request was
    answered before the timeout with a status from 200 to 299 and a body
    that parses and passes the validation; the data is that body. *)
Theorem fetchOnce_returns_validated_body (url : string) (timeout : Z)
    (validate : option (JsValue -> bool)) (w w' : World) (data : JsValue) :
  fetchOnce url timeout validate w = (inr data, w') ->
  exists (step : NetStep) (later : list NetStep) (status : Z) (statusText : string),
    net w = step :: later /\
    outcome step = Response status statusText (inr data) /\
    200 <= status <= 299 /\
    took step < timeout /\
    (forall valid : JsValue -> bool, validate = Some valid -> valid data = true) /\
    w' = log (EvFetch url) (set_net later (set_clock (clock w + took step) w)).
Proof.
  unfold fetchOnce, bind, Date_now, fetch.
  destruct (net w) as [|step later]; cbn.
  - destruct (timeout <=? clock w - clock w); cbn; discriminate.
  - destruct (timeout <=? clock w + took step - clock w) eqn:Ht; cbn;
      [discriminate|].
    apply Z.leb_gt in Ht.
    destruct (outcome step) as [e | status statusText [e|body]] eqn:Ho; cbn;
      try discriminate.
    + destruct (response_ok status); cbn; discriminate.
    + destruct (response_ok status) eqn:Hok; cbn; [|discriminate].
      unfold response_ok in Hok. apply andb_true_iff in Hok as (H1 & H2).
      apply Z.leb_le in H1, H2.
      destruct validate as [valid|].
      * destruct (valid body) eqn:Hv; cbn; [|discriminate].
        intros [= <- <-]. exists step, later, status, statusText.
        repeat split; try assumption; try lia.
        intros valid' [= <-]. exact Hv.
      * cbn. intros [= <- <-]. exists step, later, status, statusText.
        repeat split; try assumption; try lia. discriminate.
Qed.

Lemma fetchOnce_returns_validated_body_witness :
  exists (step : NetStep) (later : list NetStep) (status : Z) (statusText : string),
    net serving = step :: later /\
    outcome step = Response status statusText (inr (JArr [sample_record (Q2Qc 1)])) /\
    200 <= status <= 299 /\
    took step < 10000 /\
    (forall valid : JsValue -> bool,
        Some validateResponse = Some valid ->
        valid (JArr [sample_record (Q2Qc 1)]) = true) /\
    snd (fetchOnce "https://fakestoreapi.com/products" 10000 (Some validateResponse)
           serving)
    = log (EvFetch "https://fakestoreapi.com/products")
        (set_net later (set_clock (clock serving + took step) serving)).
Proof.
  apply (fetchOnce_returns_validated_body "https://fakestoreapi.com/products" 10000
           (Some validateResponse) serving).
  reflexivity.
Defined.

(** ** The cache of [ApiService] *)

(** X6.  What [setCachedProducts] stores is read back by
    [getCachedProducts] in every later world in which the statics are
    untouched and less than five minutes have passed since the write. *)
Theorem cache_write_then_read (products : list Product) (w w2 : World) :
  api w2 = api (snd (setCachedProducts products w)) ->
  clock w2 - clock w < CACHE_DURATION ->
  fst (getCachedProducts w2) = inr products.
Proof.
  intros Hapi Hage. unfold getCachedProducts. rewrite Hapi.
  cbn [snd setCachedProducts modify api set_api cachedProducts cacheTimestamp].
  apply Z.ltb_lt in Hage. rewrite Hage. reflexivity.
Qed.

Lemma cache_write_then_read_witness :
  fst (getCachedProducts
         (set_clock 299999 (snd (setCachedProducts [mug] fresh))))
  = inr [mug].
Proof.
  apply (cache_write_then_read [mug] fresh
           (set_clock 299999 (snd (setCachedProducts [mug] fresh)))).
  - reflexivity.
  - reflexivity.
Defined.

(** X7.  After [clearCache], [getCachedProducts] gives the empty list in
    every later world in which the statics are untouched, whatever the
    clock shows, and the status reports no cached data. *)
Theorem cache_clear_then_read (w w2 : World) :
  api w2 = api (snd (clearCache w)) ->
  fst (getCachedProducts w2) = inr [] /\
  exists st : Status,
    getServiceStatus w2 = (inr st, w2) /\ hasCachedData st = false.
Proof.
  intros Hapi. unfold getCachedProducts, getServiceStatus. rewrite Hapi. cbn.
  split; [reflexivity|]. eexists. split; reflexivity.
Qed.

Lemma cache_clear_then_read_witness :
  fst (getCachedProducts (snd (clearCache (cached_at [mug] 10)))) = inr [] /\
  exists st : Status,
    getServiceStatus (snd (clearCache (cached_at [mug] 10)))
    = (inr st, snd (clearCache (cached_at [mug] 10))) /\
    hasCachedData st = false.
Proof.
  apply (cache_clear_then_read (cached_at [mug] 10)
           (snd (clearCache (cached_at [mug] 10)))).
  reflexivity.
Defined.

(** X8.  [getServiceStatus] changes nothing and never throws.  When it
    reports no cached data, or a cache age of five minutes or more,
    [getCachedProducts] gives the empty list; when it reports cached data
    younger than five minutes, [getCachedProducts] gives the cached
    products.  It reports a stale entry as cached data all the same. *)
Theorem status_predicts_cache_read (w : World) :
  exists st : Status,
    getServiceStatus w = (inr st, w) /\
    cacheAge st = clock w - cacheTimestamp (api w) /\
    (hasCachedData st = true <-> cachedProducts (api w) <> None) /\
    (hasCachedData st = false \/ CACHE_DURATION <= cacheAge st ->
     fst (getCachedProducts w) = inr []) /\
    (hasCachedData st = true -> cacheAge st < CACHE_DURATION ->
     exists products : list Product,
       cachedProducts (api w) = Some products /\
       fst (getCachedProducts w) = inr products).
Proof.
  unfold getServiceStatus, getCachedProducts. eexists. split; [reflexivity|].
  cbn [cacheAge hasCachedData]. split; [reflexivity|].
  destruct (cachedProducts (api w)) as [products|].
  - split; [split; [discriminate | reflexivity]|].
    destruct (clock w - cacheTimestamp (api w) <? CACHE_DURATION) eqn:E.
    + apply Z.ltb_lt in E. split.
      * intros [H|H]; [discriminate | lia].
      * intros _ _. now exists products.
    + apply Z.ltb_ge in E. split; [reflexivity|]. intros _ H. lia.
  - split; [split; [discriminate | intros H; now elim H]|].
    split; [reflexivity | discriminate].
Qed.

(** ** [fetchProducts] and the cache *)

Section FetchAndCache.
Variable isValidUrl : string -> bool.

Lemma getCachedProducts_pure (w : World) :
  exists cached : list Product, getCachedProducts w = (inr cached, w).
Proof.
  unfold getCachedProducts.
  destruct (cachedProducts (api w));
    [destruct (clock w - cacheTimestamp (api w) <? CACHE_DURATION)|];
    eexists; reflexivity.
Qed.

(** Nothing that [safeFetch] does touches the statics of [ApiService]. *)
Lemma fetchOnce_api (url : string) (timeout : Z)
    (validate : option (JsValue -> bool)) (w : World) :
  api (snd (fetchOnce url timeout validate w)) = api w.
Proof.
  unfold fetchOnce, bind, Date_now, fetch, modify, throw, ret.
  destruct (net w) as [|step later]; cbn.
  - destruct (timeout <=? clock w - clock w); reflexivity.
  - destruct (timeout <=? clock w + took step - clock w); [reflexivity|].
    destruct (outcome step) as [e | status statusText [e|body]]; cbn;
      try reflexivity;
      destruct (response_ok status); cbn; try reflexivity.
    destruct validate as [valid|]; [destruct (valid body)|]; reflexivity.
Qed.

Lemma attempts_api {T} (operation : M T) (maxRetries : nat) (retryDelay : Z)
    (context : string) (fuel attempt : nat) (lastError : option AppError)
    (retryCount : nat) (w : World) :
  (forall w0 : World, api (snd (operation w0)) = api w0) ->
  api (snd (attempts operation maxRetries retryDelay context fuel attempt
              lastError retryCount w)) = api w.
Proof.
  intros Hop. revert attempt lastError retryCount w.
  induction fuel as [|fuel IH]; intros attempt lastError retryCount w;
    [reflexivity|].
  rewrite attempts_step. specialize (Hop w).
  destruct (operation w) as [[e|v] w1]; cbn [snd] in *; [|assumption].
  destruct (negb (recoverable (handleError e context))
            || Nat.eqb attempt maxRetries)%bool; [assumption|].
  rewrite IH. unfold pause.
  destruct (Nat.ltb attempt maxRetries); assumption.
Qed.

Lemma safeFetch_api {F} (url : string) (timeout : Z)
    (validate : option (JsValue -> bool)) (maxRetries : nat) (retryDelay : Z)
    (fallbackValue : option F) (context : string) (w : World) :
  api (snd (safeFetch url timeout validate maxRetries retryDelay fallbackValue
              context w)) = api w.
Proof.
  unfold safeFetch, withGracefulDegradation, bind.
  pose proof (attempts_api (fetchOnce url timeout validate) maxRetries retryDelay
                context (S maxRetries) 0 None 0 w
                (fetchOnce_api url timeout validate)) as H.
  destruct (attempts _ _ _ _ _ _ _ _ w) as [[e|exit] w1]; cbn [snd] in *;
    [assumption|].
  destruct exit; [assumption|]. destruct fallbackValue; assumption.
Qed.

(** X9.  With the breaker closed, a call of [fetchProducts] in which an
    attempt succeeds resolves with the normalised payload, stores it in the
    cache with the time at which the call ends, and leaves the breaker as
    it was; a read of the cache right after the call gives the same
    products. *)
Theorem successful_fetch_overwrites_cache
    (w w1 : World) (cached : list Product) (data : JsValue) (n : nat) :
  state (circuitBreaker (api w)) = closed ->
  fst (getCachedProducts w) = inr cached ->
  safeFetch (BASE_URL ++ "/products") TIMEOUT_MS (Some validateResponse)
    MAX_RETRIES RETRY_DELAY_MS (Some cached) "Fetch products" w
  = (inr (Succeeded data n), w1) ->
  exists (items : list JsValue) (w' : World),
    data = JArr items /\
    fetchProducts isValidUrl w
    = (inr (non_null (map (validated isValidUrl) items)), w') /\
    cachedProducts (api w') = Some (non_null (map (validated isValidUrl) items)) /\
    cacheTimestamp (api w') = clock w' /\
    clock w' = clock w1 /\
    circuitBreaker (api w') = circuitBreaker (api w) /\
    fst (getCachedProducts w')
    = inr (non_null (map (validated isValidUrl) items)).
Proof.
  intros Hclosed Hcache Hfetch.
  destruct (getCachedProducts_pure w) as (cached' & Hc).
  rewrite Hc in Hcache. cbn in Hcache. injection Hcache as ->.
  assert (Hvalid : validateResponse data = true).
  { unfold safeFetch in Hfetch.
    destruct (withGracefulDegradation_total
                (fetchOnce (BASE_URL ++ "/products") TIMEOUT_MS
                   (Some validateResponse))
                MAX_RETRIES RETRY_DELAY_MS (Some cached) "Fetch products" w)
      as (r & w2 & Hr & Hsucc & _).
    rewrite Hfetch in Hr. injection Hr as <- <-.
    destruct (Hsucc data n eq_refl) as (w0 & Hop).
    eapply fetchOnce_validated; eassumption. }
  destruct data as [| | | | items |]; try discriminate.
  pose proof (safeFetch_api (BASE_URL ++ "/products") TIMEOUT_MS
                (Some validateResponse) MAX_RETRIES RETRY_DELAY_MS (Some cached)
                "Fetch products" w) as Hapi.
  rewrite Hfetch in Hapi. cbn [snd] in Hapi.
  exists items. eexists. split; [reflexivity|].
  unfold fetchProducts, execute, guard. rewrite Hclosed.
  unfold fetchThroughBreaker, bind. rewrite Hc, Hfetch. cbn [transformProductData].
  unfold setCachedProducts, modify, ret. rewrite Hclosed.
  split; [reflexivity|].
  cbn [api set_api cachedProducts cacheTimestamp circuitBreaker clock].
  split; [reflexivity|]. split; [reflexivity|]. split; [reflexivity|].
  split.
  - reflexivity.
  - unfold getCachedProducts.
    cbn [api set_api cachedProducts cacheTimestamp clock fst].
    rewrite Z.sub_diag. reflexivity.
Qed.

(** X10.  With the breaker closed, a call of [fetchProducts] in which no
    attempt succeeds resolves with what [getCachedProducts] gave at the
    start of the call: the cached products when the entry is fresh.  The
    breaker and the cache are as they were. *)
Theorem failed_fetch_serves_cache (w : World) (cached : list Product) :
  state (circuitBreaker (api w)) = closed ->
  fst (getCachedProducts w) = inr cached ->
  (forall (data : JsValue) (n : nat),
      fst (safeFetch (BASE_URL ++ "/products") TIMEOUT_MS (Some validateResponse)
             MAX_RETRIES RETRY_DELAY_MS (Some cached) "Fetch products" w)
      <> inr (Succeeded data n)) ->
  fst (fetchProducts isValidUrl w) = inr cached /\
  api (snd (fetchProducts isValidUrl w)) = api w.
Proof.
  intros Hclosed Hcache Hfail.
  destruct (getCachedProducts_pure w) as (cached' & Hc).
  rewrite Hc in Hcache. cbn in Hcache. injection Hcache as ->.
  pose proof (safeFetch_api (BASE_URL ++ "/products") TIMEOUT_MS
                (Some validateResponse) MAX_RETRIES RETRY_DELAY_MS (Some cached)
                "Fetch products" w) as Hapi.
  unfold fetchProducts, execute, guard. rewrite Hclosed.
  unfold fetchThroughBreaker, bind. rewrite Hc.
  unfold safeFetch in *.
  destruct (withGracefulDegradation_total
              (fetchOnce (BASE_URL ++ "/products") TIMEOUT_MS (Some validateResponse))
              MAX_RETRIES RETRY_DELAY_MS (Some cached) "Fetch products" w)
    as (r & w2 & Hr & _ & Hnone & Hsome).
  rewrite Hr in *. cbn [fst snd] in *.
  destruct r as [data n | data err n | err n].
  - exfalso. now apply (Hfail data n).
  - specialize (Hsome data err n eq_refl). injection Hsome as <-.
    rewrite Hclosed. cbn. rewrite Hapi. split; [reflexivity|].
    destruct (api w) as [b c t]; cbn. destruct b; reflexivity.
  - specialize (Hnone err n eq_refl). discriminate.
Qed.

End FetchAndCache.

Lemma successful_fetch_overwrites_cache_witness :
  exists (items : list JsValue) (w' : World),
    JArr [sample_record (Q2Qc 1)] = JArr items /\
    fetchProducts https_only serving
    = (inr (non_null (map (validated https_only) items)), w') /\
    cachedProducts (api w') = Some (non_null (map (validated https_only) items)) /\
    cacheTimestamp (api w') = clock w' /\
    clock w' = clock (snd (safeFetch (BASE_URL ++ "/products") TIMEOUT_MS
                             (Some validateResponse) MAX_RETRIES RETRY_DELAY_MS
                             (Some (@nil Product)) "Fetch products" serving)) /\
    circuitBreaker (api w') = circuitBreaker (api serving) /\
    fst (getCachedProducts w')
    = inr (non_null (map (validated https_only) items)).
Proof.
  apply (successful_fetch_overwrites_cache https_only serving
           (snd (safeFetch (BASE_URL ++ "/products") TIMEOUT_MS
                   (Some validateResponse) MAX_RETRIES RETRY_DELAY_MS
                   (Some (@nil Product)) "Fetch products" serving))
           [] (JArr [sample_record (Q2Qc 1)]) 0).
  - reflexivity.
  - reflexivity.
  - reflexivity.
Defined.

Lemma failed_fetch_serves_cache_witness :
  fst (fetchProducts https_only (cached_at [mug] 299999)) = inr [mug] /\
  api (snd (fetchProducts https_only (cached_at [mug] 299999)))
  = api (cached_at [mug] 299999).
Proof.
  apply (failed_fetch_serves_cache https_only (cached_at [mug] 299999) [mug]).
  - reflexivity.
  - reflexivity.
  - intros data n. vm_compute. discriminate.
Defined.

(** ** The states of a circuit breaker *)

Lemma breaker_states_step {T} (b : CircuitBreaker) (operation : M T) (w : World)
    (r : JsThrown + T) (b' : CircuitBreaker) (w' : World) :
  0 < maxFailures b ->
  (state b = open /\ maxFailures b <= failures b) \/
  (state b = closed /\ 0 <= failures b < maxFailures b) ->
  execute b operation w = (r, b', w') ->
  (state b' = open /\ maxFailures b' <= failures b') \/
  (state b' = closed /\ 0 <= failures b' < maxFailures b').
Proof.
  intros Hmax Hinv. unfold execute.
  destruct (guard (clock w) b) as [e|b1] eqn:Hg.
  - intros [= _ <- _]. assumption.
  - apply guard_inr in Hg as (Hf1 & Hm1 & _ & _ & _ & Hcase).
    destruct (operation w) as [[e|v] w1]; intros [= _ <- _].
    + destruct (recordFailure_fields (clock w1) b1) as (Ff & _ & Fm & _).
      rewrite recordFailure_state, Ff, Fm.
      destruct (maxFailures b1 <=? failures b1 + 1) eqn:Hle.
      * apply Z.leb_le in Hle. left. split; [reflexivity | lia].
      * apply Z.leb_gt in Hle.
        destruct Hcase as [(Hopen & _ & _) | (Hnopen & ->)].
        -- destruct Hinv as [(_ & H) | (H & _)]; [lia | congruence].
        -- destruct Hinv as [(H & _) | (Hc & H)]; [contradiction|].
           right. split; [assumption | lia].
    + destruct Hcase as [(_ & Hhalf & _) | (Hnopen & ->)].
      * rewrite Hhalf. right. cbn. split; [reflexivity | lia].
      * destruct Hinv as [(H & _) | (Hc & H)]; [contradiction|].
        rewrite Hc. right. split; [assumption | lia].
Qed.

(** X11.  A breaker with a positive threshold, between two calls, is either
    open with at least [maxFailures] failures counted, or closed with fewer:
    it is never seen half-open, and [getState] names the state that the
    counter determines. *)
Theorem breaker_state_follows_counter (b : CircuitBreaker) :
  reachable b ->
  0 < maxFailures b ->
  ((state b = open /\ maxFailures b <= failures b) \/
   (state b = closed /\ 0 <= failures b < maxFailures b)) /\
  stateName (getState b)
  = (if maxFailures b <=? failures b then "open" else "closed").
Proof.
  intros Hreach Hmax.
  assert (Hinv : (state b = open /\ maxFailures b <= failures b) \/
                 (state b = closed /\ 0 <= failures b < maxFailures b)).
  { induction Hreach as [m t c | b T op w r b' w' _ IH Hex].
    - right. cbn in *. split; [reflexivity | lia].
    - pose proof (execute_maxFailures _ _ _ _ _ _ Hex) as Hm.
      rewrite Hm in Hmax.
      eapply breaker_states_step; [exact Hmax | | exact Hex]. now apply IH. }
  split; [assumption|]. unfold getState; cbn.
  destruct Hinv as [(-> & H) | (-> & H)]; cbn.
  - apply Z.leb_le in H. now rewrite H.
  - destruct (maxFailures b <=? failures b) eqn:E; [|reflexivity].
    apply Z.leb_le in E. lia.
Qed.

Lemma breaker_state_follows_counter_witness :
  ((state (after_failures 5 1000) = open /\
    maxFailures (after_failures 5 1000) <= failures (after_failures 5 1000)) \/
   (state (after_failures 5 1000) = closed /\
    0 <= failures (after_failures 5 1000) < maxFailures (after_failures 5 1000))) /\
  stateName (getState (after_failures 5 1000))
  = (if maxFailures (after_failures 5 1000) <=? failures (after_failures 5 1000)
     then "open" else "closed").
Proof.
  apply (breaker_state_follows_counter (after_failures 5 1000)).
  - apply after_failures_reachable.
  - reflexivity.
Defined.

(** X12.  While the breaker of [ApiService] is closed, [fetchProducts]
    resolves and leaves the breaker exactly as it was: no call of
    [fetchProducts] records a failure. *)
Theorem fetchProducts_keeps_breaker_closed
    (isValidUrl : string -> bool) (w : World) :
  state (circuitBreaker (api w)) = closed ->
  exists (products : list Product) (w' : World),
    fetchProducts isValidUrl w = (inr products, w') /\
    circuitBreaker (api w') = circuitBreaker (api w).
Proof.
  intros Hclosed. unfold fetchProducts, execute, guard. rewrite Hclosed.
  destruct (fetchThroughBreaker_never_throws isValidUrl w) as (products & w1 & ->).
  rewrite Hclosed. eexists _, _. split; reflexivity.
Qed.

Lemma fetchProducts_keeps_breaker_closed_witness :
  exists (products : list Product) (w' : World),
    fetchProducts https_only four_not_found = (inr products, w') /\
    circuitBreaker (api w') = circuitBreaker (api four_not_found).
Proof.
  apply (fetchProducts_keeps_breaker_closed https_only four_not_found).
  reflexivity.
Defined.

(** ** [retryWithBackoff] *)

Import ErrorUtilsRetry.

Section BackoffFacts.
Context {T : Type}.
Variable other_text : string.
Variable operation : M T.
Variable maxRetries : nat.
Variable baseDelay : Z.

Lemma backoff_outcome (fuel attempt : nat) (lastError : option JsThrown)
    (w : World) :
  (fuel + attempt = S maxRetries)%nat ->
  (1 <= fuel)%nat ->
  match backoff other_text operation maxRetries baseDelay fuel attempt lastError w with
  | (inr v, w') => exists w0 : World, operation w0 = (inr v, w')
  | (inl e, w') =>
      exists (e0 : JsThrown) (w0 : World),
        operation w0 = (inl e0, w') /\ e = as_Error other_text e0
  end.
Proof.
  revert attempt lastError w.
  induction fuel as [|fuel IH]; intros attempt lastError w Hsum Hpos; [lia|].
  cbn [backoff].
  destruct (operation w) as [[e|v] w1] eqn:Hop.
  - destruct (Nat.eqb attempt maxRetries) eqn:Heq.
    + now exists e, w.
    + destruct (permanent (message_of (as_Error other_text e))).
      * now exists e, w.
      * apply Nat.eqb_neq in Heq. unfold bind, sleep, modify.
        apply IH; lia.
  - now exists w.
Qed.

(** X13.  [retryWithBackoff] resolves only with a value that a run of the
    operation returned, and rejects only with an [Error]: the value that the
    last run threw, wrapped in an [Error] when it was not one. *)
Theorem retryWithBackoff_outcome (w : World) :
  match retryWithBackoff other_text operation maxRetries baseDelay w with
  | (inr v, w') => exists w0 : World, operation w0 = (inr v, w')
  | (inl e, w') =>
      exists (e0 : JsThrown) (w0 : World) (msg : string) (own : option AppError),
        operation w0 = (inl e0, w') /\ e = as_Error other_text e0 /\
        e = JsError msg own
  end.
Proof.
  unfold retryWithBackoff.
  pose proof (backoff_outcome (S maxRetries) 0 None w) as H.
  destruct (backoff other_text operation maxRetries baseDelay (S maxRetries) 0 None w)
    as [[e|v] w'].
  - destruct H as (e0 & w0 & Hop & He); [lia | lia |].
    destruct e0 as [m o | s | a | a |]; cbn in He; subst e;
      eexists _, w0, _, _; (split; [eassumption|]); split; reflexivity.
  - apply H; lia.
Qed.

(** X14.  An error whose message contains [unauthorized], [forbidden] or
    [not found], in these very letters, is thrown by [retryWithBackoff] at
    its first occurrence: the operation is run once and no wait is made. *)
Theorem retryWithBackoff_permanent_error (w w1 : World) (e : JsThrown) :
  operation w = (inl e, w1) ->
  permanent (message_of (as_Error other_text e)) = true ->
  retryWithBackoff other_text operation maxRetries baseDelay w
  = (inl (as_Error other_text e), w1).
Proof.
  intros Hop Hperm. unfold retryWithBackoff. cbn [backoff].
  rewrite Hop, Hperm. destruct (Nat.eqb 0 maxRetries); reflexivity.
Qed.

End BackoffFacts.

Lemma retryWithBackoff_permanent_error_witness :
  retryWithBackoff "undefined" (always_throws (T := unit) "404 not found") 3 1000 fresh
  = (inl (as_Error "undefined" (JsError "404 not found" None)), fresh).
Proof.
  apply (retryWithBackoff_permanent_error "undefined"
           (always_throws (T := unit) "404 not found") 3 1000 fresh fresh
           (JsError "404 not found" None)).
  - reflexivity.
  - reflexivity.
Defined.

(** The server's own wording, with capitals, is not recognised: the request
    is made four times. *)
Example retryWithBackoff_is_case_sensitive :
  permanent "HTTP 404: Not Found" = false /\
  isRecoverableError (JsError "HTTP 404: Not Found" None) = false /\
  clock (snd (retryWithBackoff "undefined"
                (always_throws (T := unit) "HTTP 404: Not Found") 3 1000 fresh))
  = 7000.
Proof. repeat split; reflexivity. Qed.

(** ** Queries and toggles on the store *)

Import StorageQueries.

Lemma positive_not_invalid (x : JsNumber) :
  invalid_id x = true -> positive_finite x = false.
Proof.
  intros H. destruct (positive_finite x) eqn:E; [|reflexivity].
  apply positive_finite_valid in E. congruence.
Qed.

(** What [getFavorites] gives holds positive finite numbers only, whatever
    the store does. *)
Lemma getFavorites_positive (w w' : World) (ids : list JsNumber) :
  getFavorites w = (inr ids, w') ->
  Forall (fun x => positive_finite x = true) ids.
Proof.
  intros H.
  destruct (getFavorites_spec w) as (ids' & w'' & Hget & _ & Hids & _).
  rewrite H in Hget. injection Hget as <- <-.
  destruct Hids as [-> | ->]; [apply favorites_of_positive | constructor].
Qed.

Lemma invalid_not_included (ids : list JsNumber) (x : JsNumber) :
  Forall (fun y => positive_finite y = true) ids ->
  invalid_id x = true ->
  JsNum.includes ids x = false.
Proof.
  intros Hids Hx. destruct (JsNum.includes ids x) eqn:E; [|reflexivity].
  apply includes_In in E. rewrite Forall_forall in Hids.
  apply Hids in E. apply positive_not_invalid in Hx. congruence.
Qed.

Lemma addFavorite_resolves (productId : JsNumber) (w : World) :
  invalid_id productId = false ->
  exists w' : World, addFavorite productId w = (inr tt, w').
Proof.
  intros Hv. unfold addFavorite, bind, modify. rewrite Hv.
  match goal with
  | |- context [safeStorageOperation ?op ?fb ?ctx ?w0] =>
      destruct (safeStorageOperation_total op fb ctx w0) as (d & w' & ->)
  end.
  now exists w'.
Qed.

Lemma removeFavorite_resolves (productId : JsNumber) (w : World) :
  invalid_id productId = false ->
  exists w' : World, removeFavorite productId w = (inr tt, w').
Proof.
  intros Hv. unfold removeFavorite, bind, modify. rewrite Hv.
  match goal with
  | |- context [safeStorageOperation ?op ?fb ?ctx ?w0] =>
      destruct (safeStorageOperation_total op fb ctx w0) as (d & w' & ->)
  end.
  now exists w'.
Qed.

(** X15.  Whatever the store holds and whatever faults it throws,
    [toggleFavorite] rejects exactly when the identifier is [NaN] or not
    above zero, with the error [Failed to toggle favorite] and the store as
    it was; for every other identifier it resolves. *)
Theorem toggleFavorite_rejects_only_invalid_id (productId : JsNumber) (w : World) :
  if invalid_id productId
  then exists w' : World,
         toggleFavorite productId w
         = (inl (JsError "Failed to toggle favorite" None), w') /\
         disk w' = disk w
  else exists (flag : bool) (w' : World),
         toggleFavorite productId w = (inr flag, w').
Proof.
  unfold toggleFavorite, try_catch, bind.
  destruct (getFavorites_spec w) as (cur & w1 & Hget & (Hd & _) & _ & _).
  pose proof (getFavorites_positive _ _ _ Hget) as Hpos. rewrite Hget.
  destruct (invalid_id productId) eqn:Hinv.
  - rewrite (invalid_not_included cur productId Hpos Hinv).
    unfold addFavorite, bind, modify. rewrite Hinv. cbn.
    eexists. split; [reflexivity|]. exact Hd.
  - destruct (JsNum.includes cur productId).
    + destruct (removeFavorite_resolves productId w1 Hinv) as (w2 & ->).
      eexists _, _. reflexivity.
    + destruct (addFavorite_resolves productId w1 Hinv) as (w2 & ->).
      eexists _, _. reflexivity.
Qed.

Lemma includes_false (xs : list JsNumber) (x : JsNumber) :
  JsNum.includes xs x = false <-> ~ In x xs.
Proof.
  rewrite <- includes_In. destruct (JsNum.includes xs x); split; congruence.
Qed.

Lemma includes_same (xs ys : list JsNumber) (x : JsNumber) :
  (In x xs <-> In x ys) -> JsNum.includes xs x = JsNum.includes ys x.
Proof.
  intros H. destruct (JsNum.includes ys x) eqn:E.
  - apply includes_In. apply H. now apply includes_In.
  - apply includes_false. intros Hx. apply H in Hx.
    apply includes_false in E. contradiction.
Qed.

Lemma In_filter_other (cur : list JsNumber) (r x : JsNumber) :
  Forall (fun y => positive_finite y = true) cur ->
  (In x (filter (fun id => negb (JsNum.strict_eq id r)) cur)
   <-> In x cur /\ x <> r).
Proof.
  intros Hcur. rewrite Forall_forall in Hcur. rewrite filter_In, negb_true_iff.
  split.
  - intros (Hx & Hne). split; [assumption|]. intros ->.
    destruct (strict_eq_finite r r (Hcur r Hx)) as (_ & H).
    rewrite (H eq_refl) in Hne. discriminate.
  - intros (Hx & Hne). split; [assumption|].
    destruct (JsNum.strict_eq x r) eqn:E; [|reflexivity].
    apply (strict_eq_finite x r (Hcur x Hx)) in E. contradiction.
Qed.

(** X16.  On a store that does not fault, [toggleFavorite] of a finite
    identifier above zero returns whether the identifier is stored
    afterwards, which is the contrary of before, and changes the place of no
    other identifier. *)
Theorem toggleFavorite_flips_membership (productId : JsNumber) (w : World) :
  faults w = [] ->
  positive_finite productId = true ->
  exists (flag : bool) (w' : World),
    toggleFavorite productId w = (inr flag, w') /\
    faults w' = [] /\
    flag = negb (JsNum.includes (favorites_of (disk w FAVORITES_KEY)) productId) /\
    JsNum.includes (favorites_of (disk w' FAVORITES_KEY)) productId = flag /\
    forall x : JsNumber,
      x <> productId ->
      JsNum.includes (favorites_of (disk w' FAVORITES_KEY)) x
      = JsNum.includes (favorites_of (disk w FAVORITES_KEY)) x.
Proof.
  intros Hf Hid. unfold toggleFavorite, try_catch, bind.
  destruct (getFavorites_spec w) as (cur & w1 & -> & (Hd & Hf1 & _) & _ & Hcur).
  specialize (Hf1 Hf). specialize (Hcur Hf). rewrite <- Hcur.
  assert (Hpos : Forall (fun y => positive_finite y = true) cur)
    by (rewrite Hcur; apply favorites_of_positive).
  destruct (JsNum.includes cur productId) eqn:Hin.
  - destruct (removeFavorite_calm productId w1 Hf1 Hid) as (w2 & -> & Hf2 & Hs).
    rewrite Hd, <- Hcur in Hs.
    exists false, w2. split; [reflexivity|]. split; [assumption|].
    split; [reflexivity|]. rewrite Hs. split.
    + apply includes_false. rewrite (In_filter_other cur productId productId Hpos).
      tauto.
    + intros x Hx. apply includes_same.
      rewrite (In_filter_other cur productId x Hpos). tauto.
  - destruct (addFavorite_calm productId w1 Hf1 Hid) as (w2 & -> & Hf2 & Hs).
    rewrite Hd, <- Hcur, Hin in Hs.
    exists true, w2. split; [reflexivity|]. split; [assumption|].
    split; [reflexivity|]. rewrite Hs. split.
    + apply includes_In, in_app_iff. right. now left.
    + intros x Hx. apply includes_same. rewrite in_app_iff. cbn.
      split; [intros [H|[H|[]]]; [assumption | congruence] | tauto].
Qed.

Lemma toggleFavorite_flips_membership_witness :
  exists (flag : bool) (w' : World),
    toggleFavorite (JsNum.of_Z 3) stored_two_three = (inr flag, w') /\
    faults w' = [] /\
    flag = negb (JsNum.includes
                   (favorites_of (disk stored_two_three FAVORITES_KEY))
                   (JsNum.of_Z 3)) /\
    JsNum.includes (favorites_of (disk w' FAVORITES_KEY)) (JsNum.of_Z 3) = flag /\
    forall x : JsNumber,
      x <> JsNum.of_Z 3 ->
      JsNum.includes (favorites_of (disk w' FAVORITES_KEY)) x
      = JsNum.includes (favorites_of (disk stored_two_three FAVORITES_KEY)) x.
Proof.
  apply (toggleFavorite_flips_membership (JsNum.of_Z 3) stored_two_three).
  - reflexivity.
  - reflexivity.
Defined.

(** X17.  [isFavorite] never rejects and writes nothing; it answers [false]
    for every identifier that is [NaN] or not above zero; and on a store
    that does not fault it answers whether the identifier is among the
    stored favourites. *)
Theorem isFavorite_answers_membership (productId : JsNumber) (w : World) :
  exists (flag : bool) (w' : World),
    isFavorite productId w = (inr flag, w') /\
    disk w' = disk w /\
    (invalid_id productId = true -> flag = false) /\
    (faults w = [] ->
     flag = JsNum.includes (favorites_of (disk w FAVORITES_KEY)) productId).
Proof.
  unfold isFavorite, try_catch, bind.
  destruct (getFavorites_spec w) as (cur & w1 & Hget & (Hd & _) & _ & Hcur).
  pose proof (getFavorites_positive _ _ _ Hget) as Hpos. rewrite Hget.
  eexists _, _. split; [reflexivity|]. split; [assumption|]. split.
  - intros Hinv. now apply invalid_not_included.
  - intros Hf. now rewrite (Hcur Hf).
Qed.

(** ** The theme *)

Lemma readTheme_spec (w : World) :
  readTheme w =
  match next_fault (log (EvGetItem THEME_KEY) w) with
  | (Some e, w') => (inl e, w')
  | (None, w') =>
      (match disk w THEME_KEY with
       | Some v =>
           if negb (present (Some v)) then inr "light"
           else if is_text v "light" then inr "light"
           else if is_text v "dark" then inr "dark"
           else inl (JsError "Invalid theme value in storage" None)
       | None => inr "light"
       end, w')
  end.
Proof.
  unfold readTheme, bind, AsyncStorage_getItem.
  destruct (next_fault_getItem THEME_KEY w) as (f & w' & -> & (Hd & _) & _).
  destruct f as [e|]; [reflexivity|].
  rewrite Hd. destruct (disk w THEME_KEY) as [v|]; [|reflexivity].
  destruct (negb (present (Some v))); [reflexivity|].
  destruct (is_text v "light"); [reflexivity|].
  destruct (is_text v "dark"); reflexivity.
Qed.

(** What a read of the theme gives when the read itself does not fault:
    the stored theme, or the error for a value that is no theme. *)
Lemma stored_theme_cases (value : option Stored) :
  match value with
  | Some v =>
      if negb (present (Some v)) then @inr JsThrown _ "light"
      else if is_text v "light" then inr "light"
      else if is_text v "dark" then inr "dark"
      else inl (JsError "Invalid theme value in storage" None)
  | None => inr "light"
  end = inr (theme_of value)
  \/ (match value with
      | Some v =>
          if negb (present (Some v)) then @inr JsThrown _ "light"
          else if is_text v "light" then inr "light"
          else if is_text v "dark" then inr "dark"
          else inl (JsError "Invalid theme value in storage" None)
      | None => inr "light"
      end = inl (JsError "Invalid theme value in storage" None)
      /\ theme_of value = "light").
Proof.
  unfold theme_of. destruct value as [v|]; [|now left].
  destruct v as [s|j]; cbn [present is_text negb].
  - destruct (JsString.truthy s) eqn:Ht; cbn [negb].
    + destruct (String.eqb s "light") eqn:El.
      * apply String.eqb_eq in El. subst. now left.
      * destruct (String.eqb s "dark"); [now left | now right].
    + destruct s; [|discriminate]. now left.
  - now right.
Qed.

Lemma getTheme_spec (w : World) :
  exists (theme : string) (w' : World),
    getTheme w = (inr theme, w') /\
    reads_only w w' /\
    (theme = theme_of (disk w THEME_KEY) \/ theme = "light") /\
    (faults w = [] -> theme = theme_of (disk w THEME_KEY)).
Proof.
  unfold getTheme, bind. rewrite safeStorageOperation_cases.
  rewrite readTheme_spec.
  destruct (next_fault_getItem THEME_KEY w) as (f & w1 & -> & Hr1 & Hf1).
  pose proof (reads_only_pause 1 1000 0 w1) as Hp.
  pose proof (reads_only_trans _ _ _ Hr1 Hp) as Hr2.
  assert (Hsecond :
    exists (theme : string) (w' : World),
      (let (r, w2) := readTheme (pause 1 1000 0 w1) in
       match r with
       | inr v => (@inr JsThrown _ (Some v), w2)
       | inl _ => (inr (Some "light"), w2)
       end) = (inr (Some theme), w') /\
      reads_only w w' /\
      (theme = theme_of (disk w THEME_KEY) \/ theme = "light")).
  { rewrite readTheme_spec.
    destruct (next_fault_getItem THEME_KEY (pause 1 1000 0 w1))
      as (f2 & w2 & -> & Hr3 & _).
    pose proof (reads_only_trans _ _ _ Hr2 Hr3) as Hr4.
    destruct Hr2 as (Hd2 & _). rewrite Hd2.
    destruct f2 as [e2|].
    - eexists _, _. split; [reflexivity|]. split; [assumption|]. now right.
    - destruct (stored_theme_cases (disk w THEME_KEY)) as [-> | (-> & _)];
        eexists _, _; (split; [reflexivity|]); (split; [assumption|]);
        [now left | now right]. }
  destruct f as [e|].
  - destruct (recoverable (handleError e "Get theme")).
    + destruct Hsecond as (theme & w' & Heq & Hr & Hth).
      destruct (readTheme (pause 1 1000 0 w1)) as [[e2|v2] w2];
        injection Heq as <- <-;
        eexists _, _; (split; [reflexivity|]); (split; [assumption|]);
        (split; [assumption|]); intros Hnf; specialize (Hf1 Hnf); discriminate.
    + eexists _, _. split; [reflexivity|]. split; [assumption|].
      split; [now right|]. intros Hnf; specialize (Hf1 Hnf); discriminate.
  - destruct (stored_theme_cases (disk w THEME_KEY)) as [-> | (-> & Hlight)].
    + eexists _, _. split; [reflexivity|]. split; [assumption|].
      split; [now left | reflexivity].
    + cbn [handleError createAppError recoverable].
      destruct Hsecond as (theme & w' & Heq & Hr & Hth).
      assert (Hth' : theme = "light") by (destruct Hth; congruence).
      destruct (readTheme (pause 1 1000 0 w1)) as [[e2|v2] w2];
        injection Heq as <- <-;
        eexists _, _; (split; [reflexivity|]); (split; [assumption|]);
        (split; [now right|]); intros _; congruence.
Qed.

Lemma theme_of_range (value : option Stored) :
  theme_of value = "light" \/ theme_of value = "dark".
Proof.
  unfold theme_of. destruct value as [v|]; [|now left].
  destruct (is_text v "dark"); [now right | now left].
Qed.

(** X18.  [getTheme] never rejects and writes nothing; what it gives is
    ['light'] or ['dark'], a theme that [validateThemeMode] accepts; and it is
    ['light'] whenever the store holds anything else than the text [dark]
    under the theme key: no value, a value of an older format, or a
    damaged one. *)
Theorem getTheme_gives_a_theme (w : World) :
  exists (theme : string) (w' : World),
    getTheme w = (inr theme, w') /\
    disk w' = disk w /\
    (theme = "light" \/ theme = "dark") /\
    AppValidator.validateThemeMode theme = true /\
    (disk w THEME_KEY <> Some (Text "dark") -> theme = "light").
Proof.
  destruct (getTheme_spec w) as (theme & w' & Hget & (Hd & _) & Hth & _).
  exists theme, w'. split; [assumption|]. split; [assumption|].
  assert (Hrange : theme = "light" \/ theme = "dark").
  { destruct Hth as [-> | ->]; [apply theme_of_range | now left]. }
  split; [assumption|]. split.
  - destruct Hrange as [-> | ->]; reflexivity.
  - intros Hnot. destruct Hth as [-> | ->]; [|reflexivity].
    unfold theme_of. destruct (disk w THEME_KEY) as [[s|j]|]; try reflexivity.
    cbn. destruct (String.eqb s "dark") eqn:E; [|reflexivity].
    apply String.eqb_eq in E. subst. now elim Hnot.
Qed.

(** X19.  On a store that does not fault, [setTheme] of ['light'] or
    ['dark'] followed by [getTheme] gives the theme that was set, and the
    stored favourites are untouched. *)
Theorem setTheme_then_getTheme (theme : string) (w : World) :
  faults w = [] ->
  invalid_theme theme = false ->
  exists w1 w2 : World,
    setTheme theme w = (inr tt, w1) /\
    getTheme w1 = (inr theme, w2) /\
    disk w1 FAVORITES_KEY = disk w FAVORITES_KEY.
Proof.
  intros Hf Hv. unfold setTheme. rewrite Hv. unfold bind.
  rewrite safeStorageOperation_cases, (setItem_calm _ _ _ Hf).
  cbn [ret].
  destruct (getTheme_spec
              (set_disk (update (disk w) THEME_KEY (Text theme))
                 (log (EvSetItem THEME_KEY (Text theme)) w)))
    as (t & w2 & Hget & _ & _ & Hcalm).
  eexists _, w2. split; [reflexivity|]. split; [|reflexivity].
  rewrite Hget. f_equal. f_equal. rewrite Hcalm by exact Hf.
  cbn [disk set_disk]. rewrite update_same. unfold theme_of, is_text.
  unfold invalid_theme in Hv. apply andb_false_iff in Hv.
  destruct (String.eqb theme "dark") eqn:Ed.
  - apply String.eqb_eq in Ed. now subst.
  - destruct Hv as [Hv | Hv]; apply negb_false_iff in Hv; [|congruence].
    apply String.eqb_eq in Hv. now subst.
Qed.

Lemma setTheme_then_getTheme_witness :
  exists w1 w2 : World,
    setTheme "dark" stored_two_three = (inr tt, w1) /\
    getTheme w1 = (inr "dark", w2) /\
    disk w1 FAVORITES_KEY = disk stored_two_three FAVORITES_KEY.
Proof.
  apply (setTheme_then_getTheme "dark" stored_two_three).
  - reflexivity.
  - reflexivity.
Defined.

(** ** Clearing the store *)

(** X20.  [clearAll] makes one call to the store.  When the call faults,
    [clearAll] rejects with the error [Failed to clear storage] and the store
    is as it was; otherwise it resolves, the favourites and the theme are
    gone and every other key is as it was, so that on a store that does not
    fault the next [getFavorites] gives the empty list and the next
    [getTheme] gives ['light']. *)
Theorem clearAll_removes_both_keys (w : World) :
  match faults w with
  | Some e :: later =>
      clearAll w
      = (inl (JsError "Failed to clear storage" None), set_faults later w)
  | _ =>
      exists w' : World,
        clearAll w = (inr tt, w') /\
        disk w' FAVORITES_KEY = None /\
        disk w' THEME_KEY = None /\
        (forall key : string,
            key <> FAVORITES_KEY -> key <> THEME_KEY ->
            disk w' key = disk w key) /\
        (faults w' = [] ->
         fst (getFavorites w') = inr [] /\ fst (getTheme w') = inr "light")
  end.
Proof.
  assert (Hgone : forall w0 : World,
    exists w' : World,
      w' = set_disk (fold_left remove [FAVORITES_KEY; THEME_KEY] (disk w0)) w0 /\
      disk w' FAVORITES_KEY = None /\
      disk w' THEME_KEY = None /\
      (forall key : string,
          key <> FAVORITES_KEY -> key <> THEME_KEY ->
          disk w' key = disk w0 key) /\
      (faults w' = [] ->
       fst (getFavorites w') = inr [] /\ fst (getTheme w') = inr "light")).
  { intros w0. eexists. split; [reflexivity|].
    split; [reflexivity|]. split; [reflexivity|]. split.
    - intros key Hk1 Hk2. cbn [disk set_disk fold_left]. unfold remove.
      apply String.eqb_neq in Hk1, Hk2. now rewrite Hk1, Hk2.
    - intros Hf.
      match goal with
      | |- fst (getFavorites ?w1) = _ /\ _ =>
          destruct (getFavorites_spec w1) as (ids & wa & -> & _ & _ & Hids);
          destruct (getTheme_spec w1) as (t & wb & -> & _ & _ & Ht)
      end.
      rewrite (Hids Hf), (Ht Hf). split; reflexivity. }
  unfold clearAll, try_catch, AsyncStorage_multiRemove, next_fault.
  destruct (faults w) as [|[e|] later] eqn:Hf.
  - destruct (Hgone w) as (w' & -> & H). eexists. split; [reflexivity | exact H].
  - reflexivity.
  - destruct (Hgone (set_faults later w)) as (w' & -> & H).
    eexists. split; [reflexivity | exact H].
Qed.

(** X21.  [getStorageInfo] never rejects and writes nothing.  On a store
    that does not fault it gives the number of stored favourites that
    [getFavorites] keeps, and whether any value is stored under the theme
    key, be it a theme or not. *)
Theorem getStorageInfo_counts (w : World) :
  exists (info : StorageInfo) (w' : World),
    getStorageInfo w = (inr info, w') /\
    disk w' = disk w /\
    (faults w = [] ->
     infoFavorites info = List.length (favorites_of (disk w FAVORITES_KEY)) /\
     (hasTheme info = true <-> disk w THEME_KEY <> None)).
Proof.
  unfold getStorageInfo, try_catch, bind, AsyncStorage_getItem.
  destruct (getFavorites_spec w) as (ids & w1 & -> & (Hd1 & Hf1 & _) & _ & Hids).
  destruct (next_fault_getItem THEME_KEY w1) as (f & w2 & -> & (Hd2 & _) & Hnf).
  destruct f as [e|].
  - eexists _, _. split; [reflexivity|]. split; [congruence|].
    intros Hf. specialize (Hnf (Hf1 Hf)). discriminate.
  - eexists _, _. split; [reflexivity|]. split; [congruence|].
    intros Hf. cbn [infoFavorites hasTheme]. rewrite (Hids Hf), Hd2, Hd1.
    split; [reflexivity|].
    destruct (disk w THEME_KEY); split; congruence.
Qed.

(** ** Adding and removing a favourite *)

Lemma filter_other_app (cur : list JsNumber) (a : JsNumber) :
  Forall (fun y => positive_finite y = true) cur ->
  positive_finite a = true ->
  ~ In a cur ->
  filter (fun id => negb (JsNum.strict_eq id a)) (cur ++ [a])%list = cur.
Proof.
  intros Hcur Ha Hnot. rewrite filter_app. cbn [filter].
  destruct (strict_eq_finite a a Ha) as (_ & Hrefl).
  rewrite (Hrefl eq_refl). cbn [negb]. rewrite app_nil_r.
  induction Hcur as [|x cur Hx _ IH]; [reflexivity|].
  cbn [filter]. destruct (JsNum.strict_eq x a) eqn:E.
  - apply (strict_eq_finite x a Hx) in E. subst. elim Hnot. now left.
  - cbn [negb]. f_equal. apply IH. intros H. apply Hnot. now right.
Qed.

(** X22.  On a store that does not fault, [addFavorite] of a finite
    identifier above zero keeps the stored favourites that were there, in
    their order, with the identifier among them; it keeps them free of
    duplicates when they were; and a second [addFavorite] of the same
    identifier changes nothing. *)
Theorem addFavorite_is_idempotent (productId : JsNumber) (w : World) :
  faults w = [] ->
  positive_finite productId = true ->
  exists w1 w2 : World,
    addFavorite productId w = (inr tt, w1) /\
    addFavorite productId w1 = (inr tt, w2) /\
    (exists suffix : list JsNumber,
        favorites_of (disk w1 FAVORITES_KEY)
        = (favorites_of (disk w FAVORITES_KEY) ++ suffix)%list) /\
    In productId (favorites_of (disk w1 FAVORITES_KEY)) /\
    (NoDup (favorites_of (disk w FAVORITES_KEY)) ->
     NoDup (favorites_of (disk w1 FAVORITES_KEY))) /\
    favorites_of (disk w2 FAVORITES_KEY) = favorites_of (disk w1 FAVORITES_KEY).
Proof.
  intros Hf Hid.
  destruct (addFavorite_calm productId w Hf Hid) as (w1 & Hadd1 & Hf1 & Hs1).
  destruct (addFavorite_calm productId w1 Hf1 Hid) as (w2 & Hadd2 & _ & Hs2).
  exists w1, w2. split; [assumption|]. split; [assumption|].
  assert (Hin : In productId (favorites_of (disk w1 FAVORITES_KEY))).
  { rewrite Hs1.
    destruct (JsNum.includes (favorites_of (disk w FAVORITES_KEY)) productId) eqn:E.
    - now apply includes_In.
    - apply in_or_app. right. now left. }
  split; [|split; [assumption|split]].
  - rewrite Hs1.
    destruct (JsNum.includes (favorites_of (disk w FAVORITES_KEY)) productId).
    + exists []. now rewrite app_nil_r.
    + now exists [productId].
  - intros Hnd. rewrite Hs1.
    destruct (JsNum.includes (favorites_of (disk w FAVORITES_KEY)) productId) eqn:E;
      [assumption|].
    apply includes_false in E.
    apply NoDup_app; [assumption | repeat constructor; auto |].
    intros x Hx [<- | []]. contradiction.
  - rewrite Hs2. apply includes_In in Hin. now rewrite Hin.
Qed.

Lemma addFavorite_is_idempotent_witness :
  exists w1 w2 : World,
    addFavorite (JsNum.of_Z 5) stored_two_three = (inr tt, w1) /\
    addFavorite (JsNum.of_Z 5) w1 = (inr tt, w2) /\
    (exists suffix : list JsNumber,
        favorites_of (disk w1 FAVORITES_KEY)
        = (favorites_of (disk stored_two_three FAVORITES_KEY) ++ suffix)%list) /\
    In (JsNum.of_Z 5) (favorites_of (disk w1 FAVORITES_KEY)) /\
    (NoDup (favorites_of (disk stored_two_three FAVORITES_KEY)) ->
     NoDup (favorites_of (disk w1 FAVORITES_KEY))) /\
    favorites_of (disk w2 FAVORITES_KEY) = favorites_of (disk w1 FAVORITES_KEY).
Proof.
  apply (addFavorite_is_idempotent (JsNum.of_Z 5) stored_two_three).
  - reflexivity.
  - reflexivity.
Defined.

(** X23.  On a store that does not fault, [removeFavorite] of a finite
    identifier above zero leaves the stored favourites without it, and the
    others as they were; after [addFavorite] of an identifier that was not
    stored, it gives back the stored favourites as they were before. *)
Theorem removeFavorite_undoes_addFavorite (productId : JsNumber) (w : World) :
  faults w = [] ->
  positive_finite productId = true ->
  (exists w' : World,
      removeFavorite productId w = (inr tt, w') /\
      forall x : JsNumber,
        In x (favorites_of (disk w' FAVORITES_KEY))
        <-> In x (favorites_of (disk w FAVORITES_KEY)) /\ x <> productId) /\
  (~ In productId (favorites_of (disk w FAVORITES_KEY)) ->
   exists w1 w2 : World,
     addFavorite productId w = (inr tt, w1) /\
     removeFavorite productId w1 = (inr tt, w2) /\
     favorites_of (disk w2 FAVORITES_KEY) = favorites_of (disk w FAVORITES_KEY)).
Proof.
  intros Hf Hid. split.
  - destruct (removeFavorite_calm productId w Hf Hid) as (w' & Hrem & _ & Hs).
    exists w'. split; [assumption|]. intros x. rewrite Hs.
    apply In_filter_other. apply favorites_of_positive.
  - intros Hnot.
    destruct (addFavorite_calm productId w Hf Hid) as (w1 & Hadd & Hf1 & Hs1).
    destruct (removeFavorite_calm productId w1 Hf1 Hid) as (w2 & Hrem & _ & Hs2).
    exists w1, w2. split; [assumption|]. split; [assumption|].
    rewrite Hs2, Hs1. apply includes_false in Hnot. rewrite Hnot.
    apply filter_other_app; [apply favorites_of_positive | assumption |].
    now apply includes_false.
Qed.

Lemma removeFavorite_undoes_addFavorite_witness :
  (exists w' : World,
      removeFavorite (JsNum.of_Z 5) stored_two_three = (inr tt, w') /\
      forall x : JsNumber,
        In x (favorites_of (disk w' FAVORITES_KEY))
        <-> In x (favorites_of (disk stored_two_three FAVORITES_KEY))
            /\ x <> JsNum.of_Z 5) /\
  (~ In (JsNum.of_Z 5) (favorites_of (disk stored_two_three FAVORITES_KEY)) ->
   exists w1 w2 : World,
     addFavorite (JsNum.of_Z 5) stored_two_three = (inr tt, w1) /\
     removeFavorite (JsNum.of_Z 5) w1 = (inr tt, w2) /\
     favorites_of (disk w2 FAVORITES_KEY)
     = favorites_of (disk stored_two_three FAVORITES_KEY)).
Proof.
  apply (removeFavorite_undoes_addFavorite (JsNum.of_Z 5) stored_two_three).
  - reflexivity.
  - reflexivity.
Defined.

(** ** More on the reconciliation *)

Import AppContext.

(** X24.  [saveFavorites] never rejects.  On a store that does not fault
    and for favourites that are finite numbers above zero: when there is
    neither a favourite nor a product, the run touches nothing, not even
    the call log; otherwise the store holds, after the run, the favourites
    of the memory and no other. *)
Theorem saveFavorites_brings_store_in_line
    (favorites : list JsNumber) (productsLength : nat) (w : World) :
  (exists w' : World, saveFavorites favorites productsLength w = (inr tt, w')) /\
  (has_loaded favorites productsLength = false ->
   saveFavorites favorites productsLength w = (inr tt, w)) /\
  (faults w = [] ->
   Forall (fun x => positive_finite x = true) favorites ->
   has_loaded favorites productsLength = true ->
   exists w' : World,
     saveFavorites favorites productsLength w = (inr tt, w') /\
     forall x : JsNumber,
       JsNum.includes (favorites_of (disk w' FAVORITES_KEY)) x
       = JsNum.includes favorites x).
Proof.
  split; [|split].
  - unfold saveFavorites, try_catch.
    match goal with
    | |- exists w', match ?m w with _ => _ end = _ =>
        destruct (m w) as [[e|[]] w1]
    end; eexists; reflexivity.
  - intros Hno. unfold saveFavorites, try_catch.
    fold (has_loaded favorites productsLength). now rewrite Hno.
  - intros Hf Hfav Hyes.
    destruct (saveFavorites_calm favorites productsLength w Hf Hfav)
      as (w' & Hrun & _ & Hsame).
    exists w'. split; [assumption|]. intros x.
    apply includes_same. now apply Hsame.
Qed.

Lemma add_loop_mixed (adds : list JsNumber) (w : World) :
  faults w = [] ->
  Forall (fun x => positive_finite x = true \/ invalid_id x = true) adds ->
  exists (r : JsThrown + unit) (w' : World),
    for_of adds addFavorite w = (r, w') /\
    faults w' = [] /\
    (forall x : JsNumber,
        In x (favorites_of (disk w FAVORITES_KEY)) ->
        In x (favorites_of (disk w' FAVORITES_KEY))) /\
    (Exists (fun x => invalid_id x = true) adds -> exists e : JsThrown, r = inl e).
Proof.
  intros Hf Hadds. revert w Hf.
  induction Hadds as [|a adds Ha _ IH]; intros w Hf.
  - exists (inr tt), w. split; [reflexivity|]. split; [assumption|].
    split; [auto|]. intros H. inversion H.
  - cbn [for_of]. unfold bind.
    destruct (positive_finite a) eqn:Hpos.
    + destruct (addFavorite_calm a w Hf Hpos) as (w1 & -> & Hf1 & Hs1).
      destruct (IH w1 Hf1) as (r & w2 & -> & Hf2 & Hkeep & Hstop).
      exists r, w2. split; [reflexivity|]. split; [assumption|]. split.
      * intros x Hx. apply Hkeep. rewrite Hs1.
        destruct (JsNum.includes (favorites_of (disk w FAVORITES_KEY)) a);
          [assumption | apply in_or_app; now left].
      * intros H. inversion H as [? ? Hbad | ? ? Hrest]; subst.
        -- apply positive_not_invalid in Hbad. congruence.
        -- now apply Hstop.
    + destruct Ha as [Ha | Ha]; [congruence|].
      unfold addFavorite, bind, modify. rewrite Ha. cbn [throw].
      eexists _, _. split; [reflexivity|]. split; [exact Hf|].
      split; [auto|]. intros _. eexists. reflexivity.
Qed.

(** X25.  An identifier in memory that [addFavorite] rejects stops the
    run: on a store that does not fault, when the favourites of the memory
    are finite numbers above zero but for at least one that is [NaN] or not
    above zero, [saveFavorites] still resolves, and no stored favourite is
    removed, whether the memory holds it or not. *)
Theorem saveFavorites_stops_at_rejected_id
    (favorites : list JsNumber) (productsLength : nat) (w : World) :
  faults w = [] ->
  Forall (fun x => positive_finite x = true \/ invalid_id x = true) favorites ->
  Exists (fun x => invalid_id x = true) favorites ->
  exists w' : World,
    saveFavorites favorites productsLength w = (inr tt, w') /\
    forall x : JsNumber,
      In x (favorites_of (disk w FAVORITES_KEY)) ->
      In x (favorites_of (disk w' FAVORITES_KEY)).
Proof.
  intros Hf Hfav Hbad. unfold saveFavorites, try_catch.
  assert (Hlen : (Nat.ltb 0 (List.length favorites) || Nat.ltb 0 productsLength)%bool
                 = true).
  { destruct favorites; [inversion Hbad | reflexivity]. }
  rewrite Hlen. unfold bind.
  destruct (getFavorites_spec w) as (cur & w1 & -> & (Hd & Hf1 & _) & _ & Hcur).
  specialize (Hf1 Hf). specialize (Hcur Hf).
  assert (Hcurp : Forall (fun x => positive_finite x = true) cur)
    by (rewrite Hcur; apply favorites_of_positive).
  assert (Hadds : Forall (fun x => positive_finite x = true \/ invalid_id x = true)
                    (favoritesToAdd favorites cur)).
  { apply Forall_forall. intros x Hx. apply filter_In in Hx as (Hx & _).
    rewrite Forall_forall in Hfav. now apply Hfav. }
  assert (Hstop : Exists (fun x => invalid_id x = true) (favoritesToAdd favorites cur)).
  { apply Exists_exists in Hbad as (x & Hx & Hinv). apply Exists_exists.
    exists x. split; [|assumption]. apply filter_In. split; [assumption|].
    now rewrite (invalid_not_included cur x Hcurp Hinv). }
  destruct (add_loop_mixed _ w1 Hf1 Hadds) as (r & w2 & -> & _ & Hkeep & Hthrows).
  destruct (Hthrows Hstop) as (e & ->).
  eexists. split; [reflexivity|]. intros x Hx. apply Hkeep. now rewrite Hd.
Qed.

Lemma saveFavorites_stops_at_rejected_id_witness :
  exists w' : World,
    saveFavorites [NaN] 0 stored_two_three = (inr tt, w') /\
    forall x : JsNumber,
      In x (favorites_of (disk stored_two_three FAVORITES_KEY)) ->
      In x (favorites_of (disk w' FAVORITES_KEY)).
Proof.
  apply (saveFavorites_stops_at_rejected_id [NaN] 0 stored_two_three).
  - reflexivity.
  - constructor; [now right | constructor].
  - constructor. reflexivity.
Defined.

(** ** Strings *)





(** ** The validators on normalised products *)



Section Validators.
Variable isValidUrl : string -> bool.


End Validators.


(** ** The reducer *)

Import AppReducer.

Lemma strict_eq_spec (x y : JsNumber) :
  y <> NaN -> (JsNum.strict_eq x y = true <-> x = y).
Proof.
  intros Hy. destruct x as [|s|a], y as [|t|b]; cbn; split;
    try discriminate; try congruence.
  - intros H. apply Bool.eqb_prop in H. congruence.
  - intros [= ->]. apply Bool.eqb_reflx.
  - intros H. apply Qc_eq_bool_correct in H. congruence.
  - intros [= ->]. apply Qc_eq_bool_refl.
Qed.

Lemma filter_all {A} (f : A -> bool) (xs : list A) :
  (forall x, In x xs -> f x = true) -> filter f xs = xs.
Proof.
  induction xs as [|x xs IH]; intros H; [reflexivity|].
  cbn. rewrite (H x (or_introl eq_refl)). f_equal. apply IH.
  intros y Hy. apply H. now right.
Qed.

(** X27.  The action [TOGGLE_FAVORITE] of an identifier that is not [NaN]
    flips whether the identifier is a favourite and changes this for no
    other identifier.  [NaN] is different: once among the favourites, the
    action leaves the favourites as they are, since no element is [===]
    to [NaN]. *)
Theorem toggle_action_flips_membership (state : AppState) (productId : JsNumber) :
  (productId <> NaN ->
   useIsFavorite (appReducer state (TOGGLE_FAVORITE productId)) productId
   = negb (useIsFavorite state productId) /\
   forall x : JsNumber,
     x <> productId ->
     useIsFavorite (appReducer state (TOGGLE_FAVORITE productId)) x
     = useIsFavorite state x) /\
  (useIsFavorite state NaN = true ->
   favorites (appReducer state (TOGGLE_FAVORITE NaN)) = favorites state).
Proof.
  unfold useIsFavorite. cbn [appReducer favorites]. split.
  - intros Hp.
    assert (Hfilter : forall x : JsNumber,
      In x (filter (fun id => negb (JsNum.strict_eq id productId)) (favorites state))
      <-> In x (favorites state) /\ x <> productId).
    { intros x. rewrite filter_In, negb_true_iff.
      split; intros (Hx & Hne); (split; [assumption|]).
      - intros ->. rewrite (proj2 (strict_eq_spec productId productId Hp) eq_refl) in Hne.
        discriminate.
      - destruct (JsNum.strict_eq x productId) eqn:E; [|reflexivity].
        apply (strict_eq_spec x productId Hp) in E. contradiction. }
    destruct (JsNum.includes (favorites state) productId) eqn:Hin; cbn [negb]; split.
    + apply includes_false. rewrite Hfilter. tauto.
    + intros x Hx. apply includes_same. rewrite Hfilter. tauto.
    + apply includes_In. apply in_or_app. right. now left.
    + intros x Hx. apply includes_same. rewrite in_app_iff. cbn.
      split; [intros [H | [H | []]]; [assumption | congruence] | tauto].
  - intros Hin. rewrite Hin. apply filter_all.
    intros x _. now destruct x.
Qed.

(** ** The searches *)

Lemma prefix_spec (a s : string) :
  String.prefix a s = true <-> exists b : string, s = (a ++ b)%string.
Proof.
  revert s. induction a as [|c a IH]; intros s; cbn [String.prefix].
  - split; [intros _; now exists s | intros _; destruct s; reflexivity].
  - destruct s as [|d s].
    + split; [discriminate | intros (b & Hb); discriminate].
    + cbn [String.prefix]. destruct (Ascii.ascii_dec c d) as [-> | Hne].
      * rewrite IH. split; intros (b & Hb); exists b; cbn in *; congruence.
      * split; [discriminate | intros (b & Hb); cbn in Hb; congruence].
Qed.

Lemma string_app_assoc (a b c : string) :
  ((a ++ b) ++ c)%string = (a ++ (b ++ c))%string.
Proof. induction a as [|x a IH]; cbn; congruence. Qed.

Lemma string_app_nil (a : string) : (a ++ "")%string = a.
Proof. induction a as [|x a IH]; cbn; congruence. Qed.

Lemma includes_spec (s sub : string) :
  JsString.includes s sub = true
  <-> exists a b : string, s = (a ++ sub ++ b)%string.
Proof.
  split.
  - induction s as [|c s IH]; cbn [JsString.includes];
      destruct (String.prefix sub _) eqn:E.
    + intros _. apply prefix_spec in E as (b & ->). now exists EmptyString, b.
    + discriminate.
    + intros _. apply prefix_spec in E as (b & ->). now exists EmptyString, b.
    + intros H. destruct (IH H) as (a & b & ->). now exists (String c a), b.
  - intros (a & b & ->). induction a as [|c a IH].
    + cbn [append].
      assert (E : String.prefix sub (sub ++ b) = true)
        by (apply prefix_spec; now exists b).
      destruct (sub ++ b)%string; cbn [JsString.includes]; now rewrite E.
    + cbn [append JsString.includes].
      destruct (String.prefix sub _); [reflexivity | exact IH].
Qed.

Lemma includes_trans (s q t : string) :
  JsString.includes s q = true -> JsString.includes q t = true ->
  JsString.includes s t = true.
Proof.
  rewrite !includes_spec. intros (a & b & ->) (a' & b' & ->).
  exists (a ++ a')%string, (b' ++ b)%string.
  now rewrite !string_app_assoc.
Qed.

Lemma trimStart_suffix (s : string) :
  exists a : string, s = (a ++ JsString.trimStart s)%string.
Proof.
  induction s as [|c s (a & IH)]; [now exists EmptyString|].
  cbn [JsString.trimStart]. destruct (JsString.is_space c).
  - exists (String c a). cbn. now rewrite <- IH.
  - now exists EmptyString.
Qed.

Lemma trimEnd_prefix (s : string) :
  exists b : string, s = (JsString.trimEnd s ++ b)%string.
Proof.
  induction s as [|c s (b & IH)]; [now exists EmptyString|].
  cbn [JsString.trimEnd]. destruct (JsString.trimEnd s) as [|d r] eqn:E.
  - destruct (JsString.is_space c).
    + now exists (String c s).
    + exists s. reflexivity.
  - exists b. cbn [append]. f_equal. exact IH.
Qed.

Lemma includes_trim (q : string) : JsString.includes q (JsString.trim q) = true.
Proof.
  apply includes_spec. unfold JsString.trim.
  destruct (trimStart_suffix q) as (a & Ha).
  destruct (trimEnd_prefix (JsString.trimStart q)) as (b & Hb).
  exists a, b. now rewrite <- Hb.
Qed.

Lemma is_space_lower (c : ascii) :
  JsString.is_space (JsString.lower_ascii c) = JsString.is_space c.
Proof.
  destruct c as [[] [] [] [] [] [] [] []]; vm_compute; reflexivity.
Qed.

Lemma trimStart_lower (s : string) :
  JsString.trimStart (JsString.toLowerCase s)
  = JsString.toLowerCase (JsString.trimStart s).
Proof.
  induction s as [|c s IH]; [reflexivity|].
  cbn [JsString.toLowerCase JsString.trimStart]. rewrite is_space_lower.
  destruct (JsString.is_space c); [exact IH | reflexivity].
Qed.

Lemma trimEnd_lower (s : string) :
  JsString.trimEnd (JsString.toLowerCase s)
  = JsString.toLowerCase (JsString.trimEnd s).
Proof.
  induction s as [|c s IH]; [reflexivity|].
  cbn [JsString.toLowerCase JsString.trimEnd]. rewrite IH, is_space_lower.
  destruct (JsString.trimEnd s); cbn [JsString.toLowerCase].
  - destruct (JsString.is_space c); reflexivity.
  - reflexivity.
Qed.

Lemma trim_lower (s : string) :
  JsString.trim (JsString.toLowerCase s) = JsString.toLowerCase (JsString.trim s).
Proof. unfold JsString.trim. now rewrite trimStart_lower, trimEnd_lower. Qed.

Lemma truthy_lower (s : string) :
  JsString.truthy (JsString.toLowerCase s) = JsString.truthy s.
Proof. now destruct s. Qed.

Lemma blank_by_lower (q1 q2 : string) :
  JsString.toLowerCase q1 = JsString.toLowerCase q2 ->
  JsString.truthy (JsString.trim q1) = JsString.truthy (JsString.trim q2).
Proof.
  intros H. rewrite <- (truthy_lower (JsString.trim q1)),
    <- (truthy_lower (JsString.trim q2)), <- !trim_lower. now rewrite H.
Qed.

(** X28.  The three searches of the code ignore the case of the query:
    two queries with the same lower-case form give the same products, in
    [useFilteredProducts] and in both [filterProductsByQuery]. *)
Theorem searches_ignore_case_of_query
    (products : list Product) (loading : bool) (error : option string)
    (favorites : list JsNumber) (q1 q2 : string) :
  JsString.toLowerCase q1 = JsString.toLowerCase q2 ->
  useFilteredProducts (mkAppState products favorites loading error q1)
  = useFilteredProducts (mkAppState products favorites loading error q2) /\
  ContextDemo.filterProductsByQuery products q1
  = ContextDemo.filterProductsByQuery products q2 /\
  DataTransform.filterProductsByQuery products q1
  = DataTransform.filterProductsByQuery products q2.
Proof.
  intros H. pose proof (blank_by_lower q1 q2 H) as Hb.
  unfold useFilteredProducts, ContextDemo.filterProductsByQuery,
    DataTransform.filterProductsByQuery.
  cbn [searchQuery AppReducer.products]. rewrite Hb, H.
  repeat split.
Qed.

Lemma searches_ignore_case_of_query_witness :
  useFilteredProducts (mkAppState [MoreSamples.mug] [] false None "MUG")
  = useFilteredProducts (mkAppState [MoreSamples.mug] [] false None "mug") /\
  ContextDemo.filterProductsByQuery [MoreSamples.mug] "MUG"
  = ContextDemo.filterProductsByQuery [MoreSamples.mug] "mug" /\
  DataTransform.filterProductsByQuery [MoreSamples.mug] "MUG"
  = DataTransform.filterProductsByQuery [MoreSamples.mug] "mug".
Proof.
  apply (searches_ignore_case_of_query [MoreSamples.mug] false None [] "MUG" "mug").
  reflexivity.
Defined.

(** X29.  The three searches nest: a product that [useFilteredProducts]
    finds by its title is found by the [filterProductsByQuery] of
    [contextDemo], which looks at the description and the category too;
    and a product that this one finds is found by the
    [filterProductsByQuery] of [dataTransform], which trims the query
    before it looks.  All three give products of the list only. *)
Theorem searches_nest
    (state : AppState) (p : Product) :
  (In p (useFilteredProducts state) ->
   In p (ContextDemo.filterProductsByQuery (AppReducer.products state)
           (searchQuery state))) /\
  (In p (ContextDemo.filterProductsByQuery (AppReducer.products state)
           (searchQuery state)) ->
   In p (DataTransform.filterProductsByQuery (AppReducer.products state)
           (searchQuery state))) /\
  (In p (DataTransform.filterProductsByQuery (AppReducer.products state)
           (searchQuery state)) ->
   In p (AppReducer.products state)).
Proof.
  unfold useFilteredProducts, ContextDemo.filterProductsByQuery,
    DataTransform.filterProductsByQuery.
  destruct (negb (JsString.truthy (JsString.trim (searchQuery state)))).
  - tauto.
  - assert (Hsub : forall s : string,
      JsString.includes s (JsString.toLowerCase (searchQuery state)) = true ->
      JsString.includes s (JsString.trim (JsString.toLowerCase (searchQuery state)))
      = true).
    { intros s Hs. apply (includes_trans _ _ _ Hs). apply includes_trim. }
    rewrite !filter_In. split; [|split].
    + intros (Hp & Ht). split; [assumption|]. now rewrite Ht.
    + intros (Hp & Hany). split; [assumption|].
      apply orb_true_iff in Hany as [Hany | Hc].
      * apply orb_true_iff in Hany as [Ht | Hd].
        -- now rewrite (Hsub _ Ht).
        -- rewrite (Hsub _ Hd). now rewrite !orb_true_r.
      * rewrite (Hsub _ Hc). now rewrite !orb_true_r.
    + tauto.
Qed.

(** ** [truncateText] *)

Lemma length_substring_from_start (n : nat) (s : string) :
  String.length (String.substring 0 n s) = Nat.min n (String.length s).
Proof.
  revert s. induction n as [|n IH]; intros s.
  - destruct s; reflexivity.
  - destruct s as [|c s]; [reflexivity|]. cbn. now rewrite IH.
Qed.

Lemma length_string_app (a b : string) :
  String.length (a ++ b) = (String.length a + String.length b)%nat.
Proof. induction a as [|c a IH]; cbn; congruence. Qed.

Lemma prefix_substring (n : nat) (s : string) :
  String.prefix (String.substring 0 n s) s = true.
Proof.
  revert s. induction n as [|n IH]; intros s.
  - destruct s; reflexivity.
  - destruct s as [|c s]; [reflexivity|]. cbn.
    destruct (Ascii.ascii_dec c c); [apply IH | congruence].
Qed.

(** X30.  [truncateText] gives the text itself when it fits.  When it
    does not, the result ends in three dots and has the length
    [maxLength], for a [maxLength] of three or more; below three it is
    the three dots alone, longer than [maxLength] allows. *)
Theorem truncateText_length (text : string) (maxLength : Z) :
  Z.of_nat (String.length (DataTransform.truncateText text maxLength))
  = (if Z.of_nat (String.length text) <=? maxLength
     then Z.of_nat (String.length text)
     else Z.max maxLength 3) /\
  (maxLength < Z.of_nat (String.length text) ->
   exists kept : string,
     DataTransform.truncateText text maxLength = (kept ++ "...")%string /\
     String.prefix kept text = true).
Proof.
  unfold DataTransform.truncateText.
  destruct (Z.of_nat (String.length text) <=? maxLength) eqn:E.
  - split; [reflexivity|]. intros H. apply Z.leb_le in E. lia.
  - apply Z.leb_gt in E. split.
    + rewrite length_string_app, length_substring_from_start. cbn [String.length]. lia.
    + intros _. eexists. split; [reflexivity | apply prefix_substring].
Qed.
